(** * PMPipelineApp: the streaming telemetry pipeline

    A shallow embedding of the two halves of the pipeline:

    - [Consumer]: [SensorDataConsumer] of [data_ingestion/kafka_consumer.py]
      (per-equipment buffering, size-triggered flush, flush-all on shutdown);
    - [Simulator]: [SensorSimulator] of [data_simulator/sensor_simulator.py]
      (health degradation and the per-tick sensor reading);

    and of what joins them to the rest:

    - [Files]: the names of the files the stages hand to each other (the
      frames of the consumer read by [load_data], the model files of
      [train_model] read by [load_models]) and of the simulators of
      [run_simulator.py];
    - [Pipeline]: a reading on its way from the simulator to the consumer.

    Python floats are IEEE binary64 numbers and are modelled by Rocq's
    primitive floats, which are the same format with the same rounding. *)

From Stdlib Require Import String Ascii Bool Arith ZArith Lia Floats List.
From Stdlib Require DecimalString DecimalNat.
Import ListNotations.

Set Implicit Arguments.
Local Set Warnings "-register-all".
Local Set Warnings "-inexact-float".

(** ** JSON values, as [json.loads] builds them *)

Inductive json : Type :=
| JNull
| JBool (b : bool)
| JInt (n : Z)
| JFloat (f : float)
| JStr (s : string)
| JList (l : list json)
| JDict (kv : list (string * json)).

(** Python truth value of a decoded JSON value ([if equipment_id:]). *)
Definition truthy (j : json) : bool :=
  match j with
  | JNull => false
  | JBool b => b
  | JInt n => negb (Z.eqb n 0)
  | JFloat f => negb (PrimFloat.eqb f 0%float)
  | JStr s => negb (String.eqb s EmptyString)
  | JList l => match l with [] => false | _ => true end
  | JDict kv => match kv with [] => false | _ => true end
  end.

(** [d.get(name)] on a decoded object: the value, or Python's [None]. *)
Fixpoint dict_get (kv : list (string * json)) (name : string) : json :=
  match kv with
  | [] => JNull
  | (k, v) :: rest => if String.eqb k name then v else dict_get rest name
  end.

(** ** File names

    The names under which the consumer writes its frames, the training
    its models, and what the training and the inference service read
    back from the names they find; and the names [run_simulator.py]
    gives its simulators. *)

Module Files.

Local Open Scope string_scope.

(** *** Python strings *)

(** [c in s]. *)
Fixpoint contains (c : ascii) (s : string) : bool :=
  match s with
  | EmptyString => false
  | String c' rest => Ascii.eqb c' c || contains c rest
  end.

(** [s.split(sep)] for a separator of one character. *)
Fixpoint split (sep : ascii) (s : string) : list string :=
  match s with
  | EmptyString => [EmptyString]
  | String c rest =>
      if Ascii.eqb c sep then EmptyString :: split sep rest
      else
        match split sep rest with
        | part :: parts => String c part :: parts
        | [] => [String c EmptyString]
        end
  end.

(** [sep.join(parts)]. *)
Fixpoint join (sep : string) (parts : list string) : string :=
  match parts with
  | [] => EmptyString
  | [part] => part
  | part :: rest => part ++ sep ++ join sep rest
  end.

(** [s.startswith(p)]. *)
Definition startswith (s p : string) : bool := String.prefix p s.

(** [s.endswith(p)]. *)
Fixpoint endswith (s p : string) : bool :=
  if String.eqb s p then true
  else
    match s with
    | EmptyString => false
    | String _ rest => endswith rest p
    end.

(** [parts[1:-1]]. *)
Definition middle (parts : list string) : list string :=
  removelast (tl parts).

(** [str(n)] for a natural number, and [s.zfill(width)], which is how
    [{n:03d}] and the two-digit fields of [strftime] are padded. *)
Definition decimal (n : nat) : string :=
  DecimalString.NilZero.string_of_uint (Nat.to_uint n).

Fixpoint zeros (n : nat) : string :=
  match n with
  | O => EmptyString
  | S k => String "0" (zeros k)
  end.

Definition zfill (width : nat) (s : string) : string :=
  zeros (width - String.length s) ++ s.

(** *** The names of the model files *)

(** The name [train_model] saves a model under. *)
Definition model_file (equip_id target_column : string) : string :=
  equip_id ++ "_" ++ target_column ++ "_model.pkl".

(** What [load_models] reads in the name of a file of the model
    directory: the equipment and the target it stores the model under,
    [None] for a file its filter leaves out. *)
Definition parse_model_file (model_file : string) : option (string * string) :=
  if endswith model_file "_model.pkl" then
    let parts := split "_" model_file in
    Some (hd EmptyString parts, join "_" (middle parts))
  else None.

(** *** The names of the frames *)

(** The fields of [datetime.now()] that [strftime] prints. *)
Record datetime : Type := Datetime {
  year : nat;
  month : nat;
  day : nat;
  hour : nat;
  minute : nat;
  second : nat
}.


(** [now.strftime("%Y%m%d_%H%M%S")]. *)
Definition strftime (now : datetime) : string :=
  decimal (year now) ++ zfill 2 (decimal (month now))
  ++ zfill 2 (decimal (day now)) ++ "_"
  ++ zfill 2 (decimal (hour now)) ++ zfill 2 (decimal (minute now))
  ++ zfill 2 (decimal (second now)).

(** The file name [_save_buffer] writes the frame of [equipment_id] to,
    for an identity that is a string. *)
Definition csv_file (equipment_id : string) (now : datetime) : string :=
  equipment_id ++ "_" ++ strftime now ++ ".csv".

(** Whether [load_data] reads a file of the data directory: a [.csv]
    file, whose name starts with the equipment that was asked for, if
    one was. *)
Definition load_data_reads (equipment_id : option string) (file : string)
  : bool :=
  endswith file ".csv" &&
  match equipment_id with
  | None | Some EmptyString => true
  | Some e => startswith file e
  end.


(** *** The names of the simulators *)

(** The identity [run_simulator.py] gives its [i]-th simulator. *)
Definition equipment_name (i : nat) : string :=
  "EQUIP-" ++ zfill 3 (decimal i).

(** *** Strings *)

Lemma append_nil_r s : s ++ "" = s.
Proof. induction s; simpl; congruence. Qed.

Lemma append_assoc s1 s2 s3 : (s1 ++ s2) ++ s3 = s1 ++ (s2 ++ s3).
Proof. induction s1; simpl; congruence. Qed.


Lemma append_inv_length x1 y1 x2 y2 :
  String.length x1 = String.length x2 ->
  x1 ++ y1 = x2 ++ y2 -> x1 = x2 /\ y1 = y2.
Proof.
  revert x2. induction x1 as [|c x1 IH]; intros [|c' x2]; simpl;
    try discriminate.
  - auto.
  - intros Hl H. injection Hl as Hl. injection H as -> H.
    destruct (IH x2 Hl H) as [-> ->]. auto.
Qed.


Lemma contains_append c s1 s2 :
  contains c (s1 ++ s2) = contains c s1 || contains c s2.
Proof.
  induction s1 as [|c' s1 IH]; simpl; [reflexivity|].
  now rewrite IH, orb_assoc.
Qed.

Lemma split_nonempty sep s : split sep s <> [].
Proof.
  destruct s as [|c s]; simpl; [discriminate|].
  destruct (Ascii.eqb c sep); [discriminate|].
  destruct (split sep s); discriminate.
Qed.

Lemma split_without sep s : contains sep s = false -> split sep s = [s].
Proof.
  induction s as [|c s IH]; simpl; [reflexivity|].
  intros H. apply orb_false_elim in H. destruct H as [Hc Hs].
  rewrite Hc, (IH Hs). reflexivity.
Qed.

(** The parts hold no separator, and the first part is the whole string
    only if the string holds none. *)
Lemma split_parts sep s :
  Forall (fun part => contains sep part = false) (split sep s).
Proof.
  induction s as [|c s IH]; simpl; [repeat constructor|].
  destruct (Ascii.eqb c sep) eqn:Hc; [constructor; [reflexivity|exact IH]|].
  destruct (split sep s) as [|part parts]; [repeat constructor; simpl;
                                            now rewrite Hc|].
  inversion IH as [|? ? Hp Hps]; subst.
  constructor; [simpl; now rewrite Hc, Hp|exact Hps].
Qed.

Lemma split_append sep a b :
  split sep (a ++ String sep b) = (split sep a ++ split sep b)%list.
Proof.
  induction a as [|c a IH]; simpl.
  - now rewrite Ascii.eqb_refl.
  - destruct (Ascii.eqb c sep); [now rewrite IH|].
    rewrite IH. pose proof (split_nonempty sep a) as Hne.
    destruct (split sep a); [contradiction|reflexivity].
Qed.

Lemma join_cons sep part rest :
  rest <> [] -> join sep (part :: rest) = part ++ sep ++ join sep rest.
Proof. destruct rest; [contradiction|reflexivity]. Qed.

Lemma join_app sep l1 l2 :
  l1 <> [] -> l2 <> [] ->
  join sep (l1 ++ l2)%list = join sep l1 ++ sep ++ join sep l2.
Proof.
  intros H1 H2. induction l1 as [|p l1 IH]; [contradiction|].
  destruct l1 as [|q l1].
  - simpl app. now rewrite join_cons.
  - change ((p :: q :: l1) ++ l2)%list with (p :: ((q :: l1) ++ l2))%list.
    rewrite join_cons by discriminate.
    rewrite IH by discriminate.
    rewrite (@join_cons sep p (q :: l1)) by discriminate.
    now rewrite !append_assoc.
Qed.

Lemma join_split sep s : join (String sep "") (split sep s) = s.
Proof.
  induction s as [|c s IH]; simpl; [reflexivity|].
  pose proof (split_nonempty sep s) as Hne.
  destruct (Ascii.eqb_spec c sep) as [->|Hc].
  - rewrite join_cons by exact Hne. simpl. now rewrite IH.
  - destruct (split sep s) as [|part parts]; [contradiction|].
    destruct parts as [|q parts]; simpl in *; now rewrite <- IH.
Qed.

Lemma endswith_cons c s p :
  endswith (String c s) p =
  if String.eqb (String c s) p then true else endswith s p.
Proof. reflexivity. Qed.

Lemma endswith_refl p : endswith p p = true.
Proof.
  destruct p; [reflexivity|]. now rewrite endswith_cons, String.eqb_refl.
Qed.

Lemma endswith_append a p : endswith (a ++ p) p = true.
Proof.
  induction a as [|c a IH]; [apply endswith_refl|].
  change (String c a ++ p) with (String c (a ++ p)).
  rewrite endswith_cons, IH. now destruct (String.eqb _ p).
Qed.


Lemma prefix_append_r p s r :
  String.prefix p s = true -> String.prefix p (s ++ r) = true.
Proof.
  revert s. induction p as [|c p IH]; intros [|c' s]; simpl;
    try discriminate; try reflexivity.
  - now destruct r.
  - destruct (ascii_dec c c'); [apply IH|discriminate].
Qed.

(** *** Numbers in decimal *)

(** The number a string of digits writes. *)
Definition number (s : string) : option nat :=
  option_map Nat.of_uint (DecimalString.NilEmpty.uint_of_string s).

Lemma number_decimal n : number (decimal n) = Some n.
Proof.
  unfold number, decimal, DecimalString.NilZero.string_of_uint.
  pose proof (DecimalNat.Unsigned.of_to n) as Hn.
  destruct (Nat.to_uint n) eqn:E;
    try (rewrite DecimalString.NilEmpty.usu; simpl; now rewrite <- Hn).
  simpl in *. now rewrite <- Hn.
Qed.

Lemma number_zero s : number (String "0" s) = number s.
Proof.
  unfold number. simpl.
  now destruct (DecimalString.NilEmpty.uint_of_string s).
Qed.

Lemma number_zeros k s : number (zeros k ++ s) = number s.
Proof.
  induction k as [|k IH]; [reflexivity|].
  simpl. now rewrite number_zero.
Qed.

Lemma number_zfill width n : number (zfill width (decimal n)) = Some n.
Proof. unfold zfill. now rewrite number_zeros, number_decimal. Qed.

Lemma zfill_injective width n m :
  zfill width (decimal n) = zfill width (decimal m) -> n = m.
Proof.
  intros H. apply (f_equal number) in H. rewrite !number_zfill in H.
  now injection H.
Qed.


(** Digits are no underscores. *)
Lemma digits_without_underscore d :
  contains "_" (DecimalString.NilEmpty.string_of_uint d) = false.
Proof. induction d; simpl; auto. Qed.

Lemma decimal_without_underscore n : contains "_" (decimal n) = false.
Proof.
  unfold decimal, DecimalString.NilZero.string_of_uint.
  destruct (Nat.to_uint n) eqn:E; try (rewrite <- E);
    try apply digits_without_underscore.
  reflexivity.
Qed.

Lemma zfill_without_underscore width n :
  contains "_" (zfill width (decimal n)) = false.
Proof.
  unfold zfill. rewrite contains_append, decimal_without_underscore.
  induction (width - String.length (decimal n)); simpl; auto.
Qed.





(** *** What is read back from the names *)

Lemma parse_model_file_split (equip_id target_column : string) :
  parse_model_file (model_file equip_id target_column) =
  Some (hd "" (split "_" equip_id),
        join "_" (tl (split "_" equip_id) ++ split "_" target_column)%list).
Proof.
  unfold parse_model_file, model_file.
  replace (equip_id ++ "_" ++ target_column ++ "_model.pkl")
    with ((equip_id ++ "_" ++ target_column) ++ "_model.pkl")
    by now rewrite !append_assoc.
  rewrite endswith_append.
  change "_model.pkl" with (String "_" "model.pkl").
  rewrite split_append.
  change (equip_id ++ "_" ++ target_column)
    with (equip_id ++ String "_" target_column).
  rewrite split_append.
  change (split "_" "model.pkl") with ["model.pkl"].
  pose proof (split_nonempty "_" equip_id) as Hne.
  destruct (split "_" equip_id) as [|e others]; [contradiction|].
  cbv zeta. unfold middle. simpl hd. simpl tl.
  now rewrite removelast_last.
Qed.

(** X8: the name of a model file, read back. [load_models] keeps every
    file [train_model] saved and reads in its name an equipment without
    underscore and a target which, put together again, give what was
    written; they are the equipment and the target of [train_model] when
    the equipment identity holds no underscore, whatever the target, and
    another equipment when it holds one. *)
Theorem model_file_read_back (equip_id target_column : string) :
  exists e t,
    parse_model_file (model_file equip_id target_column) = Some (e, t) /\
    contains "_" e = false /\
    e ++ "_" ++ t = equip_id ++ "_" ++ target_column /\
    (contains "_" equip_id = false -> e = equip_id /\ t = target_column) /\
    (contains "_" equip_id = true -> e <> equip_id).
Proof.
  rewrite parse_model_file_split.
  pose proof (split_nonempty "_" equip_id) as Hne.
  pose proof (split_nonempty "_" target_column) as Hnt.
  pose proof (split_parts "_" equip_id) as Hparts.
  pose proof (join_split "_" equip_id) as Hje.
  pose proof (join_split "_" target_column) as Hjt.
  destruct (split "_" equip_id) as [|e others] eqn:He; [contradiction|].
  pose proof (Forall_inv Hparts) as Hfirst. simpl in Hfirst.
  simpl hd. simpl tl.
  assert (Hrest : (others ++ split "_" target_column)%list <> [])
    by (destruct others; [exact Hnt|discriminate]).
  exists e, (join "_" (others ++ split "_" target_column)).
  split; [reflexivity|]. split; [exact Hfirst|].
  assert (Hwhole : e ++ "_" ++ join "_" (others ++ split "_" target_column)
                   = equip_id ++ "_" ++ target_column).
  { rewrite <- join_cons by exact Hrest.
    change (e :: (others ++ split "_" target_column))%list
      with ((e :: others) ++ split "_" target_column)%list.
    rewrite join_app by (try discriminate; exact Hnt).
    now rewrite Hje, Hjt. }
  split; [exact Hwhole|]. split.
  - intros Hnone. rewrite (split_without _ _ Hnone) in He.
    injection He as <- <-. simpl. now split.
  - intros Hsome <-. congruence.
Qed.



(** X10: [load_data] asked for an equipment reads the frame files of
    every equipment whose identity starts with the one asked for, the
    equipment itself among them. *)
Theorem load_data_reads_by_prefix (asked e : string) (t : datetime) :
  String.prefix asked e = true ->
  load_data_reads (Some asked) (csv_file e t) = true.
Proof.
  intros H.
  assert (Hcsv : endswith (csv_file e t) ".csv" = true).
  { unfold csv_file. rewrite <- !append_assoc. apply endswith_append. }
  unfold load_data_reads. rewrite Hcsv.
  destruct asked; [reflexivity|]. now apply prefix_append_r.
Qed.

(** X11: the identities [run_simulator.py] gives its simulators are all
    different, none is empty, so the consumer takes it for an identity,
    and none holds an underscore, so the name of a model file of such an
    equipment is read back as that equipment and its target. *)
Theorem equipment_names (i j : nat) (target_column : string) :
  (equipment_name i = equipment_name j -> i = j) /\
  truthy (JStr (equipment_name i)) = true /\
  contains "_" (equipment_name i) = false /\
  parse_model_file (model_file (equipment_name i) target_column) =
    Some (equipment_name i, target_column).
Proof.
  assert (Hno : contains "_" (equipment_name i) = false).
  { unfold equipment_name. rewrite contains_append.
    now rewrite zfill_without_underscore. }
  split; [|split; [reflexivity|split; [exact Hno|]]].
  - unfold equipment_name. intros H.
    apply append_inv_length in H; [|reflexivity].
    now apply (@zfill_injective 3).
  - rewrite parse_model_file_split, (split_without _ _ Hno). simpl.
    now rewrite join_split.
Qed.


(** Asked for [EQUIP-1], [load_data] reads a frame of [EQUIP-10]. *)
Lemma load_data_reads_by_prefix_witness :
  String.prefix "EQUIP-1" "EQUIP-10" = true /\
  load_data_reads (Some "EQUIP-1")
    (csv_file "EQUIP-10" (Datetime 2024 3 1 15 0 7)) = true.
Proof.
  split; [reflexivity|].
  apply load_data_reads_by_prefix. reflexivity.
Defined.

End Files.

(** ** The consumer *)

Module Consumer.

(** What a call either does: returns, or raises a Python exception. *)
Inductive outcome : Type := Returned | Raised.

(** A Kafka message that carries no error: [msg.value()] is the payload
    bytes, or [None] for a message without a value. *)
Record message : Type := Message { value : option (list Byte.byte) }.

(** What [consumer.poll(timeout=1.0)] gives back. *)
Inductive polled : Type :=
| PollNone
| PollError (partition_eof : bool)
| PollMessage (msg : message).

Section WithRuntime.

(** The pieces of the Python runtime and of the libraries the consumer
    calls, taken as they are:
    - [K], the hashable Python values up to [==], which is how a [dict]
      tells its keys apart, with [hash_key j = None] when [j] is unhashable
      (a list or a dict: [TypeError]);
    - [decode_utf8], [bytes.decode('utf-8')], [None] on [UnicodeDecodeError];
    - [json_loads], [None] when [json.loads] raises;
    - [csv_ok n], whether the [n]-th attempt to build the frame and write it
      with [to_csv] returns ([true]) or raises ([false]);
    - [str_key k], the text an f-string gives for the identity [k] (for
      a string, the string itself);
    - [now n], what [datetime.now()] answers in the [n]-th attempt, which
      reads the clock once, for the name of its file. *)
Variable K : Type.
Variable K_eq_dec : forall a b : K, {a = b} + {a <> b}.
Variable hash_key : json -> option K.
Variable decode_utf8 : list Byte.byte -> option string.
Variable json_loads : string -> option json.
Variable csv_ok : nat -> bool.
Variable str_key : K -> string.
Variable now : nat -> Files.datetime.

(** Lines the consumer prints. *)
Inductive log_line : Type :=
| LogProcessed (equipment_id : json) (data : json)
| LogProcessError
| LogSaved (records : nat) (equipment_id : K)
| LogPartitionEOF
| LogKafkaError
| LogStoppedByUser.

(** A flush handed to persistence: one [to_csv] call that returned. *)
Definition flush_record : Type := (K * list json)%type.

(** What a file of the output directory holds: the rows of the frame
    written to it last, or [None] for what a write that raised left
    under that name, which the code does not know. *)
Definition file_content : Type := option (list json).

(** The consumer object together with what it has done to the outside:
    [data_buffer] is the dict in insertion order, [persisted] the frames
    handed to [to_csv] calls that returned, oldest first, [directory] the
    files of [output_dir] by name, in the order they were created,
    [stdout] the printed lines, [csv_attempts] the number of write
    attempts so far, [closed] whether [consumer.close()] ran. *)
Record consumer : Type := mkConsumer {
  data_buffer : list (K * list json);
  buffer_size : nat;
  running : bool;
  persisted : list flush_record;
  directory : list (string * file_content);
  stdout : list log_line;
  csv_attempts : nat;
  closed : bool
}.

(** [__init__]. *)
Definition init : consumer :=
  {| data_buffer := []; buffer_size := 100; running := false;
     persisted := []; directory := []; stdout := []; csv_attempts := 0;
     closed := false |}.

(** *** The buffer dict *)

(** [k in d] and [d[k]]. *)
Fixpoint lookup (d : list (K * list json)) (k : K) : option (list json) :=
  match d with
  | [] => None
  | (k', rows) :: rest => if K_eq_dec k k' then Some rows else lookup rest k
  end.

(** [d[k] = rows]: replaces the value in place, or adds the key last. *)
Fixpoint store (d : list (K * list json)) (k : K) (rows : list json)
  : list (K * list json) :=
  match d with
  | [] => [(k, rows)]
  | (k', rows') :: rest =>
      if K_eq_dec k k' then (k', rows) :: rest
      else (k', rows') :: store rest k rows
  end.

(** [list(d.keys())]. *)
Definition keys (d : list (K * list json)) : list K := map fst d.

(** The rows buffered for [k], none when the key is unknown. *)
Definition buffered (c : consumer) (k : K) : list json :=
  match lookup (data_buffer c) k with
  | Some rows => rows
  | None => []
  end.

Definition set_buffer (c : consumer) (d : list (K * list json)) : consumer :=
  {| data_buffer := d; buffer_size := buffer_size c; running := running c;
     persisted := persisted c; directory := directory c; stdout := stdout c;
     csv_attempts := csv_attempts c; closed := closed c |}.

Definition print (c : consumer) (l : log_line) : consumer :=
  {| data_buffer := data_buffer c; buffer_size := buffer_size c;
     running := running c; persisted := persisted c;
     directory := directory c; stdout := stdout c ++ [l];
     csv_attempts := csv_attempts c; closed := closed c |}.

Definition set_running (c : consumer) (b : bool) : consumer :=
  {| data_buffer := data_buffer c; buffer_size := buffer_size c;
     running := b; persisted := persisted c; directory := directory c;
     stdout := stdout c;
     csv_attempts := csv_attempts c; closed := closed c |}.

Definition close (c : consumer) : consumer :=
  {| data_buffer := data_buffer c; buffer_size := buffer_size c;
     running := running c; persisted := persisted c;
     directory := directory c; stdout := stdout c;
     csv_attempts := csv_attempts c; closed := true |}.

(** Writing a file: a file of that name is replaced where it stands, a
    new name is added last. *)
Fixpoint write (d : list (string * file_content)) (name : string)
    (content : file_content) : list (string * file_content) :=
  match d with
  | [] => [(name, content)]
  | (name', content') :: rest =>
      if String.eqb name' name then (name', content) :: rest
      else (name', content') :: write rest name content
  end.

(** One attempt at [pd.DataFrame(rows)] followed by [df.to_csv(filepath)],
    for the rows of [k]: a call that returns has replaced the file of
    that name, or created it. *)
Definition to_csv (c : consumer) (k : K) (filepath : string)
    (rows : list json) : outcome * consumer :=
  let c' :=
    {| data_buffer := data_buffer c; buffer_size := buffer_size c;
       running := running c;
       persisted := if csv_ok (csv_attempts c)
                    then persisted c ++ [(k, rows)] else persisted c;
       directory := write (directory c) filepath
                      (if csv_ok (csv_attempts c) then Some rows else None);
       stdout := stdout c;
       csv_attempts := S (csv_attempts c); closed := closed c |} in
  (if csv_ok (csv_attempts c) then Returned else Raised, c').

(** [_save_buffer]: the file is named after the identity and the second
    the clock reads. *)
Definition _save_buffer (k : K) (c : consumer) : outcome * consumer :=
  match lookup (data_buffer c) k with
  | Some (r :: rs) =>
      let filename := Files.csv_file (str_key k) (now (csv_attempts c)) in
      match to_csv c k filename (r :: rs) with
      | (Raised, c1) => (Raised, c1)
      | (Returned, c1) =>
          let c2 := print c1 (LogSaved (List.length (r :: rs)) k) in
          (Returned, set_buffer c2 (store (data_buffer c2) k []))
      end
  | _ => (Returned, c)
  end.

(** [_save_all_buffers]: the keys are listed once, before the first flush;
    an exception leaves the loop. *)
Fixpoint save_keys (ks : list K) (c : consumer) : outcome * consumer :=
  match ks with
  | [] => (Returned, c)
  | k :: rest =>
      match _save_buffer k c with
      | (Raised, c1) => (Raised, c1)
      | (Returned, c1) => save_keys rest c1
      end
  end.

Definition _save_all_buffers (c : consumer) : outcome * consumer :=
  save_keys (keys (data_buffer c)) c.

(** The body of the [try] block of [_process_message]. *)
Definition process_body (msg : message) (c : consumer) : outcome * consumer :=
  match value msg with
  | None => (Raised, c)
  | Some bytes =>
      match decode_utf8 bytes with
      | None => (Raised, c)
      | Some value_str =>
          match json_loads value_str with
          | None => (Raised, c)
          | Some (JDict kv) =>
              let data := JDict kv in
              let equipment_id := dict_get kv "equipment_id" in
              if truthy equipment_id then
                match hash_key equipment_id with
                | None => (Raised, c)
                | Some k =>
                    let c1 :=
                      match lookup (data_buffer c) k with
                      | None => set_buffer c (store (data_buffer c) k [])
                      | Some _ => c
                      end in
                    let c2 :=
                      set_buffer c1
                        (store (data_buffer c1) k (buffered c1 k ++ [data])) in
                    if buffer_size c2 <=? List.length (buffered c2 k) then
                      match _save_buffer k c2 with
                      | (Raised, c3) => (Raised, c3)
                      | (Returned, c3) =>
                          (Returned, print c3 (LogProcessed equipment_id data))
                      end
                    else (Returned, print c2 (LogProcessed equipment_id data))
                end
              else (Returned, c)
          | Some _ => (Raised, c)
          end
      end
  end.

(** [_process_message]: whatever the body raises is caught and printed. *)
Definition _process_message (msg : message) (c : consumer)
  : outcome * consumer :=
  match process_body msg c with
  | (Returned, c1) => (Returned, c1)
  | (Raised, c1) => (Returned, print c1 LogProcessError)
  end.

(** One turn of the poll loop of [start_consuming]. *)
Definition poll_step (p : polled) (c : consumer) : outcome * consumer :=
  match p with
  | PollNone => (Returned, c)
  | PollError true => (Returned, print c LogPartitionEOF)
  | PollError false => (Returned, print c LogKafkaError)
  | PollMessage msg => _process_message msg c
  end.

Fixpoint poll_loop (ps : list polled) (c : consumer) : outcome * consumer :=
  match ps with
  | [] => (Returned, c)
  | p :: rest =>
      match poll_step p c with
      | (Raised, c1) => (Raised, c1)
      | (Returned, c1) => poll_loop rest c1
      end
  end.

(** How the poll loop ends: [stop_consuming] cleared [running], so that
    the [while] test fails, or the user interrupted it. *)
Inductive shutdown : Type := Stopped | Interrupted.

(** The [finally] block: flush everything, then close and stop. *)
Definition finally_block (c : consumer) : outcome * consumer :=
  match _save_all_buffers c with
  | (Raised, c1) => (Raised, c1)
  | (Returned, c1) => (Returned, set_running (close c1) false)
  end.

(** [start_consuming], given what the polls return until the shutdown. *)
Definition start_consuming (ps : list polled) (how : shutdown) (c : consumer)
  : outcome * consumer :=
  match poll_loop ps (set_running c true) with
  | (Raised, c1) => finally_block c1
  | (Returned, c1) =>
      finally_block
        match how with
        | Stopped => set_running c1 false
        | Interrupted => print c1 LogStoppedByUser
        end
  end.

(** The reading a message is ingested as, with the key it is buffered
    under: [None] for a message that never reaches the buffer. *)
Definition reading_of (msg : message) : option (K * json) :=
  match value msg with
  | None => None
  | Some bytes =>
      match decode_utf8 bytes with
      | None => None
      | Some value_str =>
          match json_loads value_str with
          | Some (JDict kv) =>
              if truthy (dict_get kv "equipment_id") then
                match hash_key (dict_get kv "equipment_id") with
                | Some k => Some (k, JDict kv)
                | None => None
                end
              else None
          | _ => None
          end
      end
  end.

(** The readings ingested under [k] by a run of polls, in arrival order. *)
Fixpoint ingested (ps : list polled) (k : K) : list json :=
  match ps with
  | [] => []
  | PollMessage msg :: rest =>
      match reading_of msg with
      | Some (k', data) =>
          if K_eq_dec k k' then data :: ingested rest k else ingested rest k
      | None => ingested rest k
      end
  | _ :: rest => ingested rest k
  end.

(** The flushes of [k] among the frames written, oldest first. *)
Fixpoint records_for (k : K) (l : list flush_record) : list (list json) :=
  match l with
  | [] => []
  | (k', rows) :: rest =>
      if K_eq_dec k k' then rows :: records_for k rest else records_for k rest
  end.

(** Every row written for [k], oldest first. *)
Definition flushed (c : consumer) (k : K) : list json :=
  concat (records_for k (persisted c)).

(** *** The readings of a run and the files of its frames, said without
    the consumer *)

(** The value of a field of a decoded object, if the object has it. *)
Definition field (kv : list (string * json)) (name : string) : option json :=
  option_map snd (find (fun p => String.eqb (fst p) name) kv).

(** The identities Python takes for false: [None], [False], a zero, and
    the empty string, list and dict. *)
Definition empty_identity (id : json) : bool :=
  match id with
  | JNull | JBool false | JList [] | JDict [] => true
  | JInt n => Z.eqb n 0
  | JFloat f => PrimFloat.eqb f 0%float
  | JStr s => match s with EmptyString => true | _ => false end
  | _ => false
  end.

(** The reading a message carries, with its key: the payload is a JSON
    object that has an [equipment_id], which is not empty and can be a
    dict key. *)
Definition accepted (msg : message) : option (K * json) :=
  match value msg with
  | Some bytes =>
      match decode_utf8 bytes with
      | Some text =>
          match json_loads text with
          | Some (JDict kv) =>
              match field kv "equipment_id" with
              | Some id =>
                  if empty_identity id then None
                  else option_map (fun k => (k, JDict kv)) (hash_key id)
              | None => None
              end
          | _ => None
          end
      | None => None
      end
  | None => None
  end.

(** The readings the polls of a run bring, in arrival order, and those
    of them that belong to [k]. *)
Definition readings (ps : list polled) : list (K * json) :=
  flat_map (fun p =>
              match p with
              | PollMessage msg =>
                  match accepted msg with
                  | Some r => [r]
                  | None => []
                  end
              | _ => []
              end) ps.






(** The payload decodes to [j]. *)
Definition decodes_to (msg : message) (j : json) : Prop :=
  exists bytes value_str,
    value msg = Some bytes /\ decode_utf8 bytes = Some value_str /\
    json_loads value_str = Some j.




(** *** The buffer dict *)

Lemma lookup_store_same d k rows : lookup (store d k rows) k = Some rows.
Proof.
  induction d as [|[k' rows'] d IH]; simpl.
  - destruct (K_eq_dec k k); congruence.
  - destruct (K_eq_dec k k') as [->|Hne]; simpl.
    + destruct (K_eq_dec k' k'); congruence.
    + destruct (K_eq_dec k k'); [contradiction|exact IH].
Qed.

Lemma lookup_store_other d k k' rows :
  k <> k' -> lookup (store d k rows) k' = lookup d k'.
Proof.
  intros Hne. induction d as [|[k0 rows0] d IH]; simpl.
  - destruct (K_eq_dec k' k); congruence.
  - destruct (K_eq_dec k k0) as [->|Hk]; simpl.
    + destruct (K_eq_dec k' k0); congruence.
    + destruct (K_eq_dec k' k0); [reflexivity|exact IH].
Qed.

Lemma keys_store_known d k rows rows' :
  lookup d k = Some rows' -> keys (store d k rows) = keys d.
Proof.
  unfold keys.
  induction d as [|[k0 rows0] d IH]; simpl; [discriminate|].
  destruct (K_eq_dec k k0) as [->|Hk]; simpl; [reflexivity|].
  intros H. f_equal. now apply IH.
Qed.

Lemma lookup_keys d k : lookup d k <> None <-> In k (keys d).
Proof.
  induction d as [|[k0 rows0] d IH]; simpl.
  - split; [congruence|intros []].
  - destruct (K_eq_dec k k0) as [->|Hk].
    + split; [auto|congruence].
    + rewrite IH. split; [auto|]. intros [H|H]; [congruence|exact H].
Qed.


Lemma records_for_app k l1 l2 :
  records_for k (l1 ++ l2) = records_for k l1 ++ records_for k l2.
Proof.
  induction l1 as [|[k' rows] l1 IH]; simpl; [reflexivity|].
  destruct (K_eq_dec k k'); simpl; now rewrite IH.
Qed.

Lemma store_store d k rows1 rows2 :
  store (store d k rows1) k rows2 = store d k rows2.
Proof.
  induction d as [|[k0 rows0] d IH]; simpl.
  - destruct (K_eq_dec k k); congruence.
  - destruct (K_eq_dec k k0) as [->|Hk]; simpl.
    + destruct (K_eq_dec k0 k0); congruence.
    + destruct (K_eq_dec k k0); [contradiction|now rewrite IH].
Qed.

Lemma buffered_store_same c k rows :
  buffered (set_buffer c (store (data_buffer c) k rows)) k = rows.
Proof. unfold buffered; simpl. now rewrite lookup_store_same. Qed.

Lemma buffered_store_other c k k' rows :
  k <> k' ->
  buffered (set_buffer c (store (data_buffer c) k rows)) k' = buffered c k'.
Proof. intros H. unfold buffered; simpl. now rewrite lookup_store_other. Qed.

(** *** [_save_buffer] *)

Lemma save_buffer_empty k c :
  buffered c k = [] -> _save_buffer k c = (Returned, c).
Proof.
  unfold buffered, _save_buffer.
  destruct (lookup (data_buffer c) k) as [[|r rs]|]; try reflexivity.
  discriminate.
Qed.

Lemma save_buffer_returns k c r rs :
  lookup (data_buffer c) k = Some (r :: rs) ->
  csv_ok (csv_attempts c) = true ->
  exists c',
    _save_buffer k c = (Returned, c') /\
    persisted c' = persisted c ++ [(k, r :: rs)] /\
    data_buffer c' = store (data_buffer c) k [] /\
    buffer_size c' = buffer_size c /\
    csv_attempts c' = S (csv_attempts c) /\
    stdout c' = stdout c ++ [LogSaved (length (r :: rs)) k].
Proof.
  intros Hl Hok. unfold _save_buffer, to_csv. rewrite Hl, Hok.
  eexists. split; [reflexivity|]. simpl. repeat split.
Qed.

Lemma save_buffer_raises k c r rs :
  lookup (data_buffer c) k = Some (r :: rs) ->
  csv_ok (csv_attempts c) = false ->
  exists c',
    _save_buffer k c = (Raised, c') /\
    persisted c' = persisted c /\ data_buffer c' = data_buffer c /\
    buffer_size c' = buffer_size c /\ stdout c' = stdout c.
Proof.
  intros Hl Hok. unfold _save_buffer, to_csv. rewrite Hl, Hok.
  eexists. split; [reflexivity|]. simpl. repeat split.
Qed.

(** A flush of [k] touches no other key, whether the write succeeds or not. *)
Lemma save_buffer_frame k k' c :
  k <> k' ->
  lookup (data_buffer (snd (_save_buffer k c))) k' = lookup (data_buffer c) k'.
Proof.
  intros Hne. unfold _save_buffer.
  destruct (lookup (data_buffer c) k) as [[|r rs]|] eqn:Hl; try reflexivity.
  unfold to_csv. destruct (csv_ok (csv_attempts c)); simpl; [|reflexivity].
  now apply lookup_store_other.
Qed.

Lemma save_buffer_size k c :
  buffer_size (snd (_save_buffer k c)) = buffer_size c.
Proof.
  unfold _save_buffer.
  destruct (lookup (data_buffer c) k) as [[|r rs]|]; try reflexivity.
  unfold to_csv. now destruct (csv_ok (csv_attempts c)).
Qed.

(** *** [_process_message] *)

Lemma process_body_reading msg c k data :
  reading_of msg = Some (k, data) ->
  exists equipment_id,
    process_body msg c =
      let c2 :=
        set_buffer c (store (data_buffer c) k (buffered c k ++ [data])) in
      if buffer_size c <=? length (buffered c k ++ [data]) then
        match _save_buffer k c2 with
        | (Raised, c3) => (Raised, c3)
        | (Returned, c3) =>
            (Returned, print c3 (LogProcessed equipment_id data))
        end
      else (Returned, print c2 (LogProcessed equipment_id data)).
Proof.
  unfold reading_of, process_body.
  destruct (value msg) as [bytes|]; [|discriminate].
  destruct (decode_utf8 bytes) as [value_str|]; [|discriminate].
  destruct (json_loads value_str) as [[| | | | | |kv]|]; try discriminate.
  destruct (truthy (dict_get kv "equipment_id")); [|discriminate].
  destruct (hash_key (dict_get kv "equipment_id")) as [k0|]; [|discriminate].
  intros H; injection H as -> <-.
  exists (dict_get kv "equipment_id").
  assert (Hb : forall c1 : consumer,
             c1 = match lookup (data_buffer c) k with
                  | None => set_buffer c (store (data_buffer c) k [])
                  | Some _ => c
                  end ->
             buffered c1 k = buffered c k /\
             store (data_buffer c1) k (buffered c k ++ [JDict kv]) =
             store (data_buffer c) k (buffered c k ++ [JDict kv]) /\
             buffer_size c1 = buffer_size c /\
             set_buffer c1 (store (data_buffer c) k (buffered c k ++ [JDict kv]))
             = set_buffer c (store (data_buffer c) k (buffered c k ++ [JDict kv]))).
  { intros c1 ->. unfold buffered.
    destruct (lookup (data_buffer c) k) eqn:Hl; simpl.
    - rewrite Hl. repeat split.
    - rewrite lookup_store_same, store_store. repeat split. }
  destruct (Hb _ eq_refl) as (Hb1 & Hb2 & Hb3 & Hb4).
  cbv zeta. rewrite Hb1, Hb2, Hb4. rewrite buffered_store_same.
  reflexivity.
Qed.

Lemma process_body_discard msg c :
  reading_of msg = None -> snd (process_body msg c) = c.
Proof.
  unfold reading_of, process_body.
  destruct (value msg) as [bytes|]; [|reflexivity].
  destruct (decode_utf8 bytes) as [value_str|]; [|reflexivity].
  destruct (json_loads value_str) as [[| | | | | |kv]|]; try reflexivity.
  destruct (truthy (dict_get kv "equipment_id")); [|reflexivity].
  destruct (hash_key (dict_get kv "equipment_id")) as [k0|];
    [discriminate|reflexivity].
Qed.

(** *** The readings of a run, as the consumer takes them *)





(** *** Files that replace each other *)












(** *** Flushes when every write succeeds *)

(** The one record a flush of [rows] writes, none for an empty buffer. *)
Definition flush_of (rows : list json) : list (list json) :=
  match rows with
  | [] => []
  | _ => [rows]
  end.


Definition emptied (o : option (list json)) : option (list json) :=
  match o with
  | Some _ => Some []
  | None => None
  end.

Section WritesSucceed.

Hypothesis csv_always_ok : forall n, csv_ok n = true.

Lemma save_buffer_view k0 c :
  exists c1,
    _save_buffer k0 c = (Returned, c1) /\
    buffer_size c1 = buffer_size c /\
    (exists recs, persisted c1 = persisted c ++ recs) /\
    forall k,
      lookup (data_buffer c1) k =
        (if K_eq_dec k k0 then emptied (lookup (data_buffer c) k)
         else lookup (data_buffer c) k) /\
      records_for k (persisted c1) =
        records_for k (persisted c) ++
        (if K_eq_dec k k0 then flush_of (buffered c k) else []).
Proof.
  assert (Hnone : buffered c k0 = [] ->
    exists c1,
    _save_buffer k0 c = (Returned, c1) /\
    buffer_size c1 = buffer_size c /\
    (exists recs, persisted c1 = persisted c ++ recs) /\
    forall k,
      lookup (data_buffer c1) k =
        (if K_eq_dec k k0 then emptied (lookup (data_buffer c) k)
         else lookup (data_buffer c) k) /\
      records_for k (persisted c1) =
        records_for k (persisted c) ++
        (if K_eq_dec k k0 then flush_of (buffered c k) else [])).
  { intros He. exists c. rewrite (save_buffer_empty _ _ He).
    split; [reflexivity|]. split; [reflexivity|].
    split; [exists []; now rewrite app_nil_r|].
    intros k. unfold buffered in *.
    destruct (K_eq_dec k k0) as [->|Hne].
    - destruct (lookup (data_buffer c) k0) as [rows|]; simpl in *;
        subst; now rewrite app_nil_r.
    - now rewrite app_nil_r. }
  destruct (lookup (data_buffer c) k0) as [[|r rs]|] eqn:Hl;
    try (apply Hnone; unfold buffered; now rewrite Hl).
  clear Hnone.
  destruct (save_buffer_returns k0 c Hl (csv_always_ok _))
    as (c1 & Hs & Hp & Hd & Hb & _).
  exists c1. split; [exact Hs|]. split; [exact Hb|].
  split; [now exists [(k0, r :: rs)]|].
  intros k. rewrite Hd, Hp, records_for_app. simpl. unfold buffered.
  destruct (K_eq_dec k k0) as [->|Hne].
  - now rewrite lookup_store_same, Hl.
  - split; [now apply lookup_store_other, not_eq_sym|reflexivity].
Qed.

Lemma buffered_emptied c c1 k :
  lookup (data_buffer c1) k = emptied (lookup (data_buffer c) k) ->
  buffered c1 k = [].
Proof.
  unfold buffered. intros ->. now destruct (lookup (data_buffer c) k).
Qed.

Lemma save_keys_view ks c :
  exists c1,
    save_keys ks c = (Returned, c1) /\
    buffer_size c1 = buffer_size c /\
    (exists recs, persisted c1 = persisted c ++ recs) /\
    forall k,
      lookup (data_buffer c1) k =
        (if in_dec K_eq_dec k ks then emptied (lookup (data_buffer c) k)
         else lookup (data_buffer c) k) /\
      records_for k (persisted c1) =
        records_for k (persisted c) ++
        (if in_dec K_eq_dec k ks then flush_of (buffered c k) else []).
Proof.
  revert c. induction ks as [|k0 ks IH]; intros c.
  - exists c. simpl. split; [reflexivity|]. split; [reflexivity|].
    split; [exists []; now rewrite app_nil_r|].
    intros k. now rewrite app_nil_r.
  - destruct (save_buffer_view k0 c) as (c1 & Hs & Hb & [r1 Hr1] & H1).
    destruct (IH c1) as (c2 & Hs2 & Hb2 & [r2 Hr2] & H2).
    exists c2. simpl save_keys. rewrite Hs.
    split; [exact Hs2|]. split; [congruence|].
    split; [exists (r1 ++ r2); now rewrite Hr2, Hr1, app_assoc|].
    intros k.
    destruct (H1 k) as [Hl1 Hp1]. destruct (H2 k) as [Hl2 Hp2].
    rewrite Hl2, Hp2, Hp1, <- app_assoc.
    assert (Hbuf : buffered c1 k =
                   if K_eq_dec k k0 then [] else buffered c k).
    { unfold buffered. rewrite Hl1.
      destruct (K_eq_dec k k0); [|reflexivity].
      now destruct (lookup (data_buffer c) k). }
    rewrite Hbuf, Hl1.
    destruct (in_dec K_eq_dec k (k0 :: ks)) as [Hin|Hnin];
      destruct (in_dec K_eq_dec k ks) as [Hin'|Hnin'];
      destruct (K_eq_dec k k0) as [->|Hne];
      try (exfalso; simpl in *; intuition congruence);
      simpl; rewrite ?app_nil_r; split; try reflexivity;
      now destruct (lookup (data_buffer c) k0).
Qed.

Lemma process_message_ingest msg c k0 data :
  reading_of msg = Some (k0, data) ->
  exists c1,
    _process_message msg c = (Returned, c1) /\
    buffer_size c1 = buffer_size c /\
    (forall k, k <> k0 ->
       lookup (data_buffer c1) k = lookup (data_buffer c) k) /\
    if buffer_size c <=? length (buffered c k0 ++ [data])
    then persisted c1 = persisted c ++ [(k0, buffered c k0 ++ [data])] /\
         lookup (data_buffer c1) k0 = Some []
    else persisted c1 = persisted c /\
         lookup (data_buffer c1) k0 = Some (buffered c k0 ++ [data]).
Proof.
  intros Hr. destruct (process_body_reading msg c Hr) as [eid Hbody].
  unfold _process_message. rewrite Hbody. cbv zeta.
  set (rows := buffered c k0 ++ [data]).
  set (c2 := set_buffer c (store (data_buffer c) k0 rows)).
  assert (Hl2 : lookup (data_buffer c2) k0 = Some rows)
    by apply lookup_store_same.
  assert (Hf2 : forall k, k <> k0 ->
                lookup (data_buffer c2) k = lookup (data_buffer c) k).
  { intros k Hne. apply lookup_store_other. congruence. }
  destruct (buffer_size c <=? length rows) eqn:Hfull.
  - assert (Hne : exists r rs, rows = r :: rs).
    { subst rows. destruct (buffered c k0); simpl; eauto. }
    destruct Hne as (r & rs & Hrows). rewrite Hrows in Hl2.
    destruct (save_buffer_returns k0 c2 Hl2 (csv_always_ok _))
      as (c3 & Hs & Hp & Hd & Hb & _).
    rewrite Hs. eexists. split; [reflexivity|]. simpl.
    split; [exact Hb|]. split.
    + intros k Hne. rewrite Hd, lookup_store_other by congruence.
      now apply Hf2.
    + rewrite Hp, Hd, lookup_store_same, <- Hrows. now split.
  - eexists. split; [reflexivity|]. simpl. now repeat split.
Qed.

Lemma process_message_discard msg c :
  reading_of msg = None ->
  exists c1,
    _process_message msg c = (Returned, c1) /\
    data_buffer c1 = data_buffer c /\ persisted c1 = persisted c /\
    buffer_size c1 = buffer_size c /\ csv_attempts c1 = csv_attempts c /\
    (stdout c1 = stdout c \/ stdout c1 = stdout c ++ [LogProcessError]).
Proof.
  intros Hr. pose proof (process_body_discard msg c Hr) as Hb.
  unfold _process_message.
  destruct (process_body msg c) as [[|] c1]; simpl in Hb; subst c1;
    eexists; (split; [reflexivity|]); simpl; auto 10.
Qed.



Lemma save_all_view c :
  exists c1,
    _save_all_buffers c = (Returned, c1) /\
    buffer_size c1 = buffer_size c /\
    (exists recs, persisted c1 = persisted c ++ recs) /\
    forall k,
      lookup (data_buffer c1) k = emptied (lookup (data_buffer c) k) /\
      records_for k (persisted c1) =
        records_for k (persisted c) ++ flush_of (buffered c k).
Proof.
  unfold _save_all_buffers.
  destruct (save_keys_view (keys (data_buffer c)) c)
    as (c1 & Hs & Hb & Hr & H).
  exists c1. split; [exact Hs|]. split; [exact Hb|]. split; [exact Hr|].
  intros k. destruct (H k) as [Hl Hp]. rewrite Hl, Hp.
  destruct (in_dec K_eq_dec k (keys (data_buffer c))) as [Hin|Hnin];
    [now split|].
  assert (Hn : lookup (data_buffer c) k = None).
  { destruct (lookup (data_buffer c) k) eqn:E; [|reflexivity].
    exfalso. apply Hnin, lookup_keys. congruence. }
  unfold buffered. rewrite Hn. now split.
Qed.

(** Fewer readings than the buffer still has room for: nothing is written. *)
Lemma ingest_below_capacity k msgs datas :
  Forall2 (fun m d => reading_of m = Some (k, d)) msgs datas ->
  forall c,
    length (buffered c k) + length datas < buffer_size c ->
    exists c1,
      poll_loop (map PollMessage msgs) c = (Returned, c1) /\
      buffer_size c1 = buffer_size c /\
      persisted c1 = persisted c /\
      buffered c1 k = buffered c k ++ datas /\
      (datas <> [] ->
       lookup (data_buffer c1) k = Some (buffered c k ++ datas)) /\
      forall k', k' <> k ->
        lookup (data_buffer c1) k' = lookup (data_buffer c) k'.
Proof.
  induction 1 as [|m d msgs datas Hm Htail IH]; intros c Hlen.
  - exists c. simpl. rewrite app_nil_r. repeat split; congruence.
  - destruct (process_message_ingest m c Hm) as (c1 & Hs & Hb & Hf & Hk).
    simpl in Hlen.
    assert (Hroom : (buffer_size c <=? length (buffered c k ++ [d])) = false).
    { apply Nat.leb_gt. rewrite length_app. simpl. lia. }
    rewrite Hroom in Hk. destruct Hk as [Hp Hl].
    assert (Hb1 : buffered c1 k = buffered c k ++ [d])
      by (unfold buffered at 1; now rewrite Hl).
    destruct (IH c1) as (c2 & Hs2 & Hb2 & Hp2 & Hbuf2 & Hl2 & Hf2).
    { rewrite Hb, Hb1, length_app. simpl. lia. }
    exists c2. simpl. rewrite Hs.
    split; [exact Hs2|]. split; [congruence|]. split; [congruence|].
    rewrite Hb1, <- app_assoc in Hbuf2. simpl in Hbuf2.
    split; [exact Hbuf2|]. split.
    + intros _. destruct datas as [|d' datas'].
      * inversion Htail; subst. simpl in Hs2. injection Hs2 as <-.
        now rewrite Hl.
      * rewrite Hl2 by discriminate. now rewrite Hb1, <- app_assoc.
    + intros k' Hne. now rewrite Hf2, Hf.
Qed.

(** *** The directory when every write succeeds *)








(** C3: for a key [k] whose buffer is empty (or not yet created) and a
    positive capacity, with every write succeeding: ingesting exactly
    [buffer_size] readings of [k] writes exactly one record, holding those
    readings in ingestion order, and leaves the buffer of [k] empty and
    known; ingesting at least one and fewer than [buffer_size] readings
    writes nothing, and the flush-all that follows writes for [k] exactly
    one record, holding those readings in order, and leaves the buffer of
    [k] empty and still known; flushing a key whose buffer is empty
    returns normally and changes nothing. *)
Theorem flush_policy (c : consumer) (k : K)
    (msgs : list message) (datas : list json) :
  0 < buffer_size c ->
  buffered c k = [] ->
  Forall2 (fun m d => reading_of m = Some (k, d)) msgs datas ->
  (length datas = buffer_size c ->
   exists c1,
     poll_loop (map PollMessage msgs) c = (Returned, c1) /\
     persisted c1 = persisted c ++ [(k, datas)] /\
     lookup (data_buffer c1) k = Some []) /\
  (0 < length datas < buffer_size c ->
   exists c1 c2,
     poll_loop (map PollMessage msgs) c = (Returned, c1) /\
     persisted c1 = persisted c /\
     buffered c1 k = datas /\
     _save_all_buffers c1 = (Returned, c2) /\
     records_for k (persisted c2) = records_for k (persisted c) ++ [datas] /\
     lookup (data_buffer c2) k = Some []) /\
  (forall c0, buffered c0 k = [] -> _save_buffer k c0 = (Returned, c0)).
Proof.
  intros Hcap Hempty Hms. split; [|split].
  - intros Hlen.
    pose proof (Forall2_length Hms) as Hsame.
    destruct (exists_last (l := msgs)) as (msgs0 & m & ->).
    { intros ->. simpl in Hsame. lia. }
    clear Hsame.
    apply Forall2_app_inv_l in Hms.
    destruct Hms as (datas0 & dl & Hms0 & Hml & ->).
    inversion Hml as [|? d ? ? Hm Hnil]; subst. inversion Hnil; subst.
    rewrite length_app in Hlen. simpl in Hlen.
    destruct (ingest_below_capacity Hms0 c)
      as (c1 & Hs1 & Hb1 & Hp1 & Hbuf1 & _ & _).
    { rewrite Hempty. simpl. lia. }
    rewrite Hempty in Hbuf1. simpl in Hbuf1.
    destruct (process_message_ingest m c1 Hm) as (c2 & Hs2 & _ & _ & Hk).
    rewrite Hbuf1 in Hk.
    assert (Hfull : (buffer_size c1 <=? length (datas0 ++ [d])) = true).
    { apply Nat.leb_le. rewrite length_app. simpl. lia. }
    rewrite Hfull in Hk. destruct Hk as [Hp2 Hl2].
    exists c2. rewrite map_app.
    assert (Hloop : forall ps qs c0 c0',
              poll_loop ps c0 = (Returned, c0') ->
              poll_loop (ps ++ qs) c0 = poll_loop qs c0').
    { induction ps as [|p ps IHps]; intros qs c0 c0' H; simpl in *.
      - now injection H as ->.
      - destruct (poll_step p c0) as [[|] c']; [now apply IHps|discriminate]. }
    rewrite (Hloop _ _ _ _ Hs1). simpl. rewrite Hs2.
    split; [reflexivity|]. split; [congruence|exact Hl2].
  - intros [Hpos Hlen].
    destruct (ingest_below_capacity Hms c)
      as (c1 & Hs1 & Hb1 & Hp1 & Hbuf1 & Hl1 & _).
    { rewrite Hempty. simpl. lia. }
    rewrite Hempty in Hbuf1, Hl1. simpl in Hbuf1, Hl1.
    assert (Hne : datas <> []) by (intros ->; simpl in Hpos; lia).
    destruct (save_all_view c1) as (c2 & Hs2 & _ & _ & H2).
    destruct (H2 k) as [Hl2 Hr2].
    exists c1, c2. split; [exact Hs1|]. split; [exact Hp1|].
    split; [exact Hbuf1|]. split; [exact Hs2|].
    rewrite Hr2, Hl2, Hl1 by exact Hne. rewrite Hbuf1, Hp1.
    split; [|reflexivity]. now destruct datas.
  - intros c0. apply save_buffer_empty.
Qed.

End WritesSucceed.

(** C10: handling a message ingested under key [k], and flushing the
    buffer of [k] (on its own or as one step of the flush-all), leave the
    dict entry of every other key [k'] as it was, whether the write
    succeeds or raises: same presence, same rows, same order. *)
Theorem other_keys_untouched (c : consumer) (msg : message)
    (k k' : K) (data : json) :
  k <> k' ->
  reading_of msg = Some (k, data) ->
  lookup (data_buffer (snd (_process_message msg c))) k' =
    lookup (data_buffer c) k' /\
  lookup (data_buffer (snd (_save_buffer k c))) k' =
    lookup (data_buffer c) k'.
Proof.
  intros Hne Hr. split; [|now apply save_buffer_frame].
  destruct (process_body_reading msg c Hr) as [eid Hbody].
  unfold _process_message. rewrite Hbody. cbv zeta.
  set (c2 := set_buffer c _).
  assert (H2 : lookup (data_buffer c2) k' = lookup (data_buffer c) k')
    by now apply lookup_store_other.
  destruct (buffer_size c <=? _).
  - pose proof (save_buffer_frame c2 Hne) as Hf.
    destruct (_save_buffer k c2) as [[|] c3]; simpl in *; congruence.
  - exact H2.
Qed.




(** *** The consumer when writes fail *)

(** [stop_consuming]. *)
Definition stop_consuming (c : consumer) : consumer := set_running c false.

(** What [main] does with the consumer it builds: [start_consuming], and
    [stop_consuming] in its [finally] block. *)
Definition main (ps : list polled) (how : shutdown) : outcome * consumer :=
  let (o, c) := start_consuming ps how init in (o, stop_consuming c).

(** The [Saved n records] lines among the printed ones, with their keys. *)
Fixpoint saved_lines (out : list log_line) : list (nat * K) :=
  match out with
  | [] => []
  | LogSaved n k :: rest => (n, k) :: saved_lines rest
  | _ :: rest => saved_lines rest
  end.

(** The line a written frame is announced with. *)
Definition saved_line_of (r : flush_record) : nat * K :=
  (length (snd r), fst r).

(** What every piece of the consumer keeps, from a state [c] to a later
    state [c1] between which the readings [news] were ingested: the
    capacity and the flags, frames that are only added, never empty and
    each announced, and rows that are either written or still buffered. *)
Record account (news : K -> list json) (c c1 : consumer) : Prop := Account {
  account_size : buffer_size c1 = buffer_size c;
  account_running : running c1 = running c;
  account_closed : closed c1 = closed c;
  account_frames : exists recs,
    persisted c1 = persisted c ++ recs /\
    Forall (fun r => snd r <> []) recs /\
    saved_lines (stdout c1) = saved_lines (stdout c) ++ map saved_line_of recs;
  account_rows : forall k,
    flushed c1 k ++ buffered c1 k = (flushed c k ++ buffered c k) ++ news k
}.

Definition silent (l : log_line) : Prop :=
  match l with
  | LogSaved _ _ => False
  | _ => True
  end.

Lemma saved_lines_app out1 out2 :
  saved_lines (out1 ++ out2) = saved_lines out1 ++ saved_lines out2.
Proof.
  induction out1 as [|l out1 IH]; simpl; [reflexivity|].
  destruct l; simpl; now rewrite IH.
Qed.

Lemma account_refl c : account (fun _ => []) c c.
Proof.
  constructor; try reflexivity.
  - exists []. simpl. now rewrite !app_nil_r.
  - intros k. now rewrite app_nil_r.
Qed.

Lemma account_trans n1 n2 c c1 c2 :
  account n1 c c1 -> account n2 c1 c2 ->
  account (fun k => n1 k ++ n2 k) c c2.
Proof.
  intros [S1 R1 C1 (r1 & P1 & F1 & L1) W1] [S2 R2 C2 (r2 & P2 & F2 & L2) W2].
  constructor; try congruence.
  - exists (r1 ++ r2). rewrite P2, P1, L2, L1, map_app, <- !app_assoc.
    split; [reflexivity|]. split; [now apply Forall_app|reflexivity].
  - intros k. now rewrite W2, W1, <- !app_assoc.
Qed.

Lemma account_news n1 n2 c c1 :
  (forall k, n1 k = n2 k) -> account n1 c c1 -> account n2 c c1.
Proof.
  intros E [S1 R1 C1 F1 W1]. constructor; try assumption.
  intros k. now rewrite W1, E.
Qed.

Lemma account_print news c c1 l :
  silent l -> account news c c1 -> account news c (print c1 l).
Proof.
  intros Hl [S1 R1 C1 (r1 & P1 & F1 & L1) W1].
  constructor; try assumption.
  exists r1. simpl. rewrite saved_lines_app, L1.
  split; [exact P1|]. split; [exact F1|].
  destruct l; simpl in *; try contradiction; now rewrite app_nil_r.
Qed.

(** [_save_buffer], whether the write succeeds or not. *)
Lemma save_buffer_account k0 c :
  account (fun _ => []) c (snd (_save_buffer k0 c)) /\
  (fst (_save_buffer k0 c) = Returned ->
   buffered (snd (_save_buffer k0 c)) k0 = []) /\
  (fst (_save_buffer k0 c) = Raised ->
   data_buffer (snd (_save_buffer k0 c)) = data_buffer c /\
   persisted (snd (_save_buffer k0 c)) = persisted c /\
   stdout (snd (_save_buffer k0 c)) = stdout c /\
   buffered c k0 <> []).
Proof.
  destruct (lookup (data_buffer c) k0) as [[|r rs]|] eqn:Hl.
  - rewrite save_buffer_empty by (unfold buffered; now rewrite Hl).
    simpl. split; [apply account_refl|]. split; [|discriminate].
    intros _. unfold buffered. now rewrite Hl.
  - destruct (csv_ok (csv_attempts c)) eqn:Hok.
    + destruct (save_buffer_returns k0 c Hl Hok)
        as (c1 & Hs & Hp & Hd & Hb & _ & Ho).
      rewrite Hs. simpl. split; [|split; [|discriminate]].
      * constructor; try assumption.
        -- unfold _save_buffer, to_csv in Hs. rewrite Hl, Hok in Hs.
           now injection Hs as <-.
        -- unfold _save_buffer, to_csv in Hs. rewrite Hl, Hok in Hs.
           now injection Hs as <-.
        -- exists [(k0, r :: rs)]. rewrite Ho, saved_lines_app. simpl.
           split; [exact Hp|]. split; [|reflexivity].
           constructor; [discriminate|constructor].
        -- intros k. unfold flushed, buffered.
           rewrite Hp, Hd, records_for_app, concat_app, app_nil_r. simpl.
           destruct (K_eq_dec k k0) as [->|Hne].
           ++ rewrite lookup_store_same, Hl. simpl.
              now rewrite !app_nil_r.
           ++ rewrite lookup_store_other by congruence. simpl.
              now rewrite app_nil_r.
      * intros _. unfold buffered. now rewrite Hd, lookup_store_same.
    + destruct (save_buffer_raises k0 c Hl Hok)
        as (c1 & Hs & Hp & Hd & Hb & Ho).
      rewrite Hs. simpl. split; [|split; [discriminate|]].
      * constructor; try assumption.
        -- unfold _save_buffer, to_csv in Hs. rewrite Hl, Hok in Hs.
           now injection Hs as <-.
        -- unfold _save_buffer, to_csv in Hs. rewrite Hl, Hok in Hs.
           now injection Hs as <-.
        -- exists []. rewrite Hp, Ho, !app_nil_r. simpl.
           repeat split. constructor.
        -- intros k. unfold flushed, buffered.
           now rewrite Hp, Hd, app_nil_r.
      * intros _. repeat split; try assumption.
        unfold buffered. rewrite Hl. discriminate.
  - rewrite save_buffer_empty by (unfold buffered; now rewrite Hl).
    simpl. split; [apply account_refl|]. split; [|discriminate].
    intros _. unfold buffered. now rewrite Hl.
Qed.

(** A flush leaves an empty buffer empty. *)
Lemma save_buffer_keeps_empty k0 k c :
  buffered c k = [] -> buffered (snd (_save_buffer k0 c)) k = [].
Proof.
  intros He. destruct (K_eq_dec k0 k) as [->|Hne].
  - now rewrite save_buffer_empty.
  - unfold buffered in *. now rewrite save_buffer_frame.
Qed.

Lemma ingested_one msg k :
  ingested [PollMessage msg] k =
  match reading_of msg with
  | Some (k', data) => if K_eq_dec k k' then [data] else []
  | None => []
  end.
Proof.
  simpl. destruct (reading_of msg) as [[k' d]|]; [|reflexivity].
  now destruct (K_eq_dec k k').
Qed.

(** Appending a reading to the buffer of [k0]. *)
Lemma append_account c k0 data :
  account (fun k => if K_eq_dec k k0 then [data] else []) c
    (set_buffer c (store (data_buffer c) k0 (buffered c k0 ++ [data]))).
Proof.
  constructor; try reflexivity.
  - exists []. simpl. now rewrite !app_nil_r.
  - intros k. unfold flushed. simpl persisted.
    destruct (K_eq_dec k k0) as [->|Hne].
    + now rewrite buffered_store_same, app_assoc.
    + rewrite buffered_store_other by congruence. now rewrite app_nil_r.
Qed.

(** [_process_message], whether a write succeeds or not: it returns, and
    the reading, if there is one, is written or buffered. *)
Lemma process_message_account msg c :
  exists c1,
    _process_message msg c = (Returned, c1) /\
    account (ingested [PollMessage msg]) c c1.
Proof.
  destruct (reading_of msg) as [[k0 data]|] eqn:Hr.
  - destruct (process_body_reading msg c Hr) as [eid Hbody].
    pose proof (append_account c k0 data) as Ha.
    assert (Hnews : forall k,
              (if K_eq_dec k k0 then [data] else []) ++ [] =
              ingested [PollMessage msg] k).
    { intros k. rewrite ingested_one, Hr, app_nil_r. reflexivity. }
    unfold _process_message. rewrite Hbody. cbv zeta.
    set (c2 := set_buffer c _) in *.
    destruct (buffer_size c <=? _).
    + destruct (save_buffer_account k0 c2) as (Hs & _ & _).
      pose proof (account_news _ Hnews (account_trans Ha Hs)) as Hacc.
      destruct (_save_buffer k0 c2) as [[|] c3]; simpl in Hacc;
        eexists; (split; [reflexivity|]);
        now apply account_print.
    + eexists. split; [reflexivity|]. apply account_print; [exact I|].
      apply (account_news _ Hnews).
      apply (account_trans Ha (account_refl _)).
  - destruct (process_message_discard msg c Hr)
      as (c1 & Hs & Hd & Hp & Hb & Hc & Ho).
    exists c1. split; [exact Hs|].
    pose proof (process_body_discard msg c Hr) as Hbody.
    unfold _process_message in Hs.
    destruct (process_body msg c) as [[|] c0]; simpl in Hbody; subst c0;
      injection Hs as <-;
      apply (@account_news (fun _ => []));
      try (intros k; now rewrite ingested_one, Hr);
      [|apply account_print; [exact I|]]; apply account_refl.
Qed.

Lemma poll_loop_account ps c :
  exists c1,
    poll_loop ps c = (Returned, c1) /\ account (ingested ps) c c1.
Proof.
  revert c. induction ps as [|p ps IH]; intros c.
  - exists c. split; [reflexivity|apply account_refl].
  - assert (Hstep : exists c1, poll_step p c = (Returned, c1) /\
                               account (ingested [p]) c c1).
    { destruct p as [|[|]|msg]; simpl poll_step;
        try apply process_message_account;
        (eexists; split; [reflexivity|]);
        try (apply account_print; [exact I|]); apply account_refl. }
    destruct Hstep as (c1 & Hs & H1).
    destruct (IH c1) as (c2 & Hs2 & H2).
    exists c2. simpl poll_loop. rewrite Hs. split; [exact Hs2|].
    apply (account_news _ (n1 := fun k => ingested [p] k ++ ingested ps k));
      [|exact (account_trans H1 H2)].
    intros k. destruct p as [|[|]|msg]; simpl; try reflexivity.
    destruct (reading_of msg) as [[k' d]|]; [|reflexivity].
    now destruct (K_eq_dec k k').
Qed.

(** The flushes of a list of keys: either all return and the buffers of
    the keys are empty, or one raises and its buffer is as it was. *)
Lemma save_keys_account ks c :
  account (fun _ => []) c (snd (save_keys ks c)) /\
  (forall k, buffered c k = [] -> buffered (snd (save_keys ks c)) k = []) /\
  (fst (save_keys ks c) = Returned ->
   forall k, In k ks -> buffered (snd (save_keys ks c)) k = []) /\
  (fst (save_keys ks c) = Raised ->
   exists k, buffered (snd (save_keys ks c)) k <> []).
Proof.
  revert c. induction ks as [|k0 ks IH]; intros c.
  - simpl. split; [apply account_refl|]. split; [auto|].
    split; [intros _ k []|discriminate].
  - simpl save_keys.
    destruct (save_buffer_account k0 c) as (Ha & Hret & Hraise).
    pose proof (fun k => @save_buffer_keeps_empty k0 k c) as Hkeep.
    destruct (_save_buffer k0 c) as [[|] c1]; simpl in *.
    + destruct (IH c1) as (Ha2 & Hkeep2 & Hret2 & Hraise2).
      split; [apply (account_news _ (fun _ => eq_refl)
                       (account_trans Ha Ha2))|].
      split; [intros k He; now apply Hkeep2, Hkeep|].
      split; [|exact Hraise2].
      intros Hr k [<-|Hin]; [apply Hkeep2; now apply Hret|now apply Hret2].
    + split; [exact Ha|]. split; [intros k He; now apply Hkeep|].
      split; [discriminate|]. intros _. exists k0.
      destruct (Hraise eq_refl) as (Hd & _ & _ & Hne).
      unfold buffered in *. now rewrite Hd.
Qed.

Lemma save_all_account c :
  account (fun _ => []) c (snd (_save_all_buffers c)) /\
  (fst (_save_all_buffers c) = Returned ->
   forall k, buffered (snd (_save_all_buffers c)) k = []) /\
  (fst (_save_all_buffers c) = Raised ->
   exists k, buffered (snd (_save_all_buffers c)) k <> []).
Proof.
  unfold _save_all_buffers.
  destruct (save_keys_account (keys (data_buffer c)) c)
    as (Ha & Hkeep & Hret & Hraise).
  split; [exact Ha|]. split; [|exact Hraise].
  intros Hr k.
  destruct (in_dec K_eq_dec k (keys (data_buffer c))) as [Hin|Hnin];
    [now apply Hret|].
  apply Hkeep. unfold buffered.
  destruct (lookup (data_buffer c) k) eqn:E; [|reflexivity].
  exfalso. apply Hnin, lookup_keys. rewrite E. discriminate.
Qed.

(** Flushing when every buffer is empty does nothing. *)
Lemma save_keys_empty ks c :
  (forall k, buffered c k = []) -> save_keys ks c = (Returned, c).
Proof.
  intros He. induction ks as [|k0 ks IH]; simpl; [reflexivity|].
  now rewrite save_buffer_empty.
Qed.

(** Each frame a run of flushes writes is the buffer of its key as it was
    before the run. *)
Lemma save_keys_frames ks c :
  exists recs,
    persisted (snd (save_keys ks c)) = persisted c ++ recs /\
    Forall (fun r => snd r = buffered c (fst r) /\ snd r <> []) recs.
Proof.
  revert c. induction ks as [|k0 ks IH]; intros c.
  - exists []. simpl. now rewrite app_nil_r.
  - simpl save_keys.
    assert (Hstep : exists r1,
              persisted (snd (_save_buffer k0 c)) = persisted c ++ r1 /\
              Forall (fun r => snd r = buffered c (fst r) /\ snd r <> []) r1).
    { unfold _save_buffer, to_csv.
      destruct (lookup (data_buffer c) k0) as [[|r rs]|] eqn:Hl;
        try (exists []; simpl; now rewrite app_nil_r).
      destruct (csv_ok (csv_attempts c)); simpl.
      - exists [(k0, r :: rs)]. split; [reflexivity|].
        constructor; [|constructor]. simpl. unfold buffered. rewrite Hl.
        split; [reflexivity|discriminate].
      - exists []. now rewrite app_nil_r. }
    destruct Hstep as (r1 & Hp1 & F1).
    pose proof (fun k => @save_buffer_frame k0 k c) as Hframe.
    destruct (save_buffer_account k0 c) as (_ & Hret & _).
    destruct (_save_buffer k0 c) as [[|] c1]; simpl in *.
    + destruct (IH c1) as (r2 & Hp2 & F2).
      exists (r1 ++ r2). rewrite Hp2, Hp1, app_assoc.
      split; [reflexivity|]. apply Forall_app. split; [exact F1|].
      apply Forall_forall. intros [k rows] Hin.
      apply (proj1 (Forall_forall _ _) F2) in Hin. simpl in *.
      destruct Hin as [Hrows Hne]. split; [|exact Hne].
      destruct (K_eq_dec k0 k) as [<-|Hk].
      * rewrite Hret in Hrows by reflexivity. contradiction.
      * rewrite Hrows. unfold buffered. now rewrite Hframe.
    + exists r1. now split.
Qed.

(** [start_consuming] from the state [__init__] leaves, whatever the
    writes do. *)
Lemma account_set_running news c c1 b :
  account news c c1 -> account news (set_running c b) (set_running c1 b).
Proof. intros [S R C F W]. constructor; assumption || reflexivity. Qed.

Lemma start_consuming_view ps how :
  exists o c,
    start_consuming ps how init = (o, c) /\
    buffer_size c = 100 /\
    (forall k, flushed c k ++ buffered c k = ingested ps k) /\
    Forall (fun r => snd r <> []) (persisted c) /\
    saved_lines (stdout c) = map saved_line_of (persisted c) /\
    match o with
    | Returned =>
        closed c = true /\ running c = false /\
        forall k, buffered c k = []
    | Raised =>
        closed c = false /\
        running c = match how with
                    | Stopped => false
                    | Interrupted => true
                    end /\
        exists k, buffered c k <> []
    end.
Proof.
  destruct (poll_loop_account ps (set_running init true)) as (c1 & Hs & Ha).
  unfold start_consuming. rewrite Hs.
  set (c1' := match how with
              | Stopped => set_running c1 false
              | Interrupted => print c1 LogStoppedByUser
              end).
  set (b := match how with
            | Stopped => false
            | Interrupted => true
            end).
  assert (Ha' : account (ingested ps) (set_running init b) c1').
  { subst c1' b. destruct how.
    - apply (account_set_running false) in Ha. exact Ha.
    - apply account_print; [exact I|exact Ha]. }
  destruct (save_all_account c1') as (Hall & Hret & Hraise).
  pose proof (account_trans Ha' Hall) as [S R C (recs & P & F & L) W].
  unfold finally_block.
  destruct (_save_all_buffers c1') as [[|] c2]; simpl in *;
    eexists; eexists; (split; [reflexivity|]); simpl;
    (split; [exact S|]);
    (split; [intros k; unfold flushed, buffered in *; simpl;
             now rewrite W, app_nil_r|]);
    (split; [now rewrite P|]); (split; [now rewrite L, P|]).
  - split; [reflexivity|]. split; [reflexivity|].
    intros k. now apply Hret.
  - split; [exact C|]. split; [exact R|]. now apply Hraise.
Qed.

(** X1: the poll loop never raises, whatever the polls bring and whether
    the writes succeed or fail, and at its end, for every key, the rows
    written followed by the rows still buffered are what was there
    before followed by the readings ingested, in order: a write that
    fails loses no reading. *)
Theorem failed_writes_lose_nothing (ps : list polled) (c : consumer) :
  exists c1,
    poll_loop ps c = (Returned, c1) /\
    buffer_size c1 = buffer_size c /\
    (exists recs, persisted c1 = persisted c ++ recs) /\
    forall k,
      flushed c1 k ++ buffered c1 k =
      (flushed c k ++ buffered c k) ++ ingested ps k.
Proof.
  destruct (poll_loop_account ps c) as (c1 & Hs & [S R C (recs & P & _) W]).
  exists c1. split; [exact Hs|]. split; [exact S|].
  split; [now exists recs|exact W].
Qed.

(** X2: what [main] leaves behind. When the flush-all of the [finally]
    block returns, [start_consuming] returns with the Kafka consumer
    closed and every buffer empty, every reading written; when a write of
    the flush-all raises, the exception leaves [start_consuming], the
    Kafka consumer is never closed and some buffer still holds its rows.
    In both cases no reading is lost or written twice, and [main] leaves
    the [running] flag cleared. *)
Theorem shutdown_outcome (ps : list polled) (how : shutdown) :
  exists o c,
    main ps how = (o, c) /\
    running c = false /\
    (forall k, flushed c k ++ buffered c k = ingested ps k) /\
    match o with
    | Returned => closed c = true /\ forall k, buffered c k = []
    | Raised => closed c = false /\ exists k, buffered c k <> []
    end.
Proof.
  destruct (start_consuming_view ps how) as (o & c & Hs & _ & W & _ & _ & H).
  exists o, (stop_consuming c). unfold main. rewrite Hs.
  split; [reflexivity|]. split; [reflexivity|]. split; [exact W|].
  destruct o; destruct H as (Hc & _ & Hb); now split.
Qed.

(** X3: no empty frame is ever written, and the output tells the frames
    exactly: the [Saved n records] lines, in order, give the number of
    rows and the key of each frame written, in order, whatever the polls
    bring and whether writes fail or not. *)
Theorem every_frame_announced (ps : list polled) (how : shutdown) :
  let c := snd (start_consuming ps how init) in
  Forall (fun r => snd r <> []) (persisted c) /\
  saved_lines (stdout c) = map saved_line_of (persisted c).
Proof.
  destruct (start_consuming_view ps how) as (o & c & Hs & _ & _ & F & L & _).
  cbv zeta. rewrite Hs. now split.
Qed.


(** X5: a flush-all that returned has emptied every buffer, so a second
    flush-all writes nothing and changes nothing. *)
Theorem flush_all_idempotent (c c1 : consumer) :
  _save_all_buffers c = (Returned, c1) ->
  (forall k, buffered c1 k = []) /\
  _save_all_buffers c1 = (Returned, c1).
Proof.
  intros Hs. destruct (save_all_account c) as (_ & Hret & _).
  rewrite Hs in Hret. simpl in Hret. specialize (Hret eq_refl).
  split; [exact Hret|]. unfold _save_all_buffers. now apply save_keys_empty.
Qed.

(** X6: an identity the consumer cannot use. A JSON object whose
    [equipment_id] is false for Python ([null], [false], [0], [0.0], the
    empty string, list or object) is dropped like one without the field:
    nothing is buffered, written or printed. One whose [equipment_id] is
    true but unhashable (a list or an object) raises inside the [try]:
    nothing is buffered or written, and the error line is printed. *)
Theorem unusable_identity (msg : message) (c : consumer)
    (kv : list (string * json)) :
  decodes_to msg (JDict kv) ->
  (truthy (dict_get kv "equipment_id") = false ->
   _process_message msg c = (Returned, c)) /\
  (truthy (dict_get kv "equipment_id") = true ->
   hash_key (dict_get kv "equipment_id") = None ->
   _process_message msg c = (Returned, print c LogProcessError)).
Proof.
  intros (bytes & value_str & Hv & Hd & Hj).
  unfold _process_message, process_body. rewrite Hv, Hd, Hj.
  split.
  - now intros ->.
  - now intros -> ->.
Qed.

Section WritesSucceedAgain.

Hypothesis csv_always_ok : forall n, csv_ok n = true.

(** Every buffer has room for one more reading. *)
Definition roomy (c : consumer) : Prop :=
  forall k, length (buffered c k) < buffer_size c.

Lemma process_message_roomy msg c :
  roomy c ->
  exists c1 recs,
    _process_message msg c = (Returned, c1) /\
    buffer_size c1 = buffer_size c /\
    roomy c1 /\
    persisted c1 = persisted c ++ recs /\
    Forall (fun r => length (snd r) = buffer_size c) recs.
Proof.
  intros Hroom. destruct (reading_of msg) as [[k0 data]|] eqn:Hr.
  - destruct (process_message_ingest csv_always_ok msg c Hr)
      as (c1 & Hs & Hb & Hf & Hk).
    pose proof (Hroom k0) as Hk0.
    assert (Hlen : length (buffered c k0 ++ [data]) =
                   S (length (buffered c k0)))
      by (rewrite length_app; simpl; lia).
    assert (Hother : forall k, k <> k0 -> buffered c1 k = buffered c k)
      by (intros k Hne; unfold buffered; now rewrite Hf).
    destruct (buffer_size c <=? length (buffered c k0 ++ [data])) eqn:Hfull;
      destruct Hk as [Hp Hl].
    + apply Nat.leb_le in Hfull.
      exists c1, [(k0, buffered c k0 ++ [data])].
      split; [exact Hs|]. split; [exact Hb|]. split; [|split; [exact Hp|]].
      * intros k. rewrite Hb. destruct (K_eq_dec k k0) as [->|Hne].
        -- unfold buffered. rewrite Hl. simpl. lia.
        -- rewrite Hother by exact Hne. apply Hroom.
      * constructor; [simpl; lia|constructor].
    + apply Nat.leb_gt in Hfull.
      exists c1, []. split; [exact Hs|]. split; [exact Hb|].
      split; [|split; [now rewrite app_nil_r|constructor]].
      intros k. rewrite Hb. destruct (K_eq_dec k k0) as [->|Hne].
      * unfold buffered. rewrite Hl. lia.
      * rewrite Hother by exact Hne. apply Hroom.
  - destruct (process_message_discard msg c Hr)
      as (c1 & Hs & Hd & Hp & Hb & _).
    exists c1, []. split; [exact Hs|]. split; [exact Hb|].
    split; [|split; [now rewrite app_nil_r|constructor]].
    intros k. unfold buffered. rewrite Hd, Hb. apply Hroom.
Qed.

Lemma poll_loop_roomy ps c :
  roomy c ->
  exists c1 recs,
    poll_loop ps c = (Returned, c1) /\
    buffer_size c1 = buffer_size c /\
    roomy c1 /\
    persisted c1 = persisted c ++ recs /\
    Forall (fun r => length (snd r) = buffer_size c) recs.
Proof.
  revert c. induction ps as [|p ps IH]; intros c Hroom.
  - exists c, []. simpl. rewrite app_nil_r. repeat split; auto.
  - assert (Hstep : exists c1 recs,
              poll_step p c = (Returned, c1) /\
              buffer_size c1 = buffer_size c /\ roomy c1 /\
              persisted c1 = persisted c ++ recs /\
              Forall (fun r => length (snd r) = buffer_size c) recs).
    { destruct p as [|[|]|msg]; simpl poll_step;
        try (now apply process_message_roomy);
        (eexists; exists []; split; [reflexivity|]; simpl;
         rewrite app_nil_r; repeat split; auto). }
    destruct Hstep as (c1 & r1 & Hs & Hb & Hroom1 & Hp1 & F1).
    destruct (IH c1 Hroom1) as (c2 & r2 & Hs2 & Hb2 & Hroom2 & Hp2 & F2).
    exists c2, (r1 ++ r2). simpl poll_loop. rewrite Hs.
    split; [exact Hs2|]. split; [congruence|]. split; [exact Hroom2|].
    split; [now rewrite Hp2, Hp1, app_assoc|].
    apply Forall_app. split; [exact F1|]. now rewrite <- Hb.
Qed.

(** X7: the size of the frames, when every write succeeds. A frame
    written during the poll loop holds exactly 100 rows, no buffer ever
    holds 100 rows once a message is processed, and a frame written by
    the flush-all at shutdown holds between 1 and 99 rows. *)
Theorem frame_sizes (ps : list polled) (how : shutdown) :
  exists c_loop c_end final_frames,
    poll_loop ps (set_running init true) = (Returned, c_loop) /\
    start_consuming ps how init = (Returned, c_end) /\
    persisted c_end = persisted c_loop ++ final_frames /\
    Forall (fun r => length (snd r) = 100) (persisted c_loop) /\
    (forall k, length (buffered c_loop k) < 100) /\
    Forall (fun r => 1 <= length (snd r) < 100) final_frames.
Proof.
  assert (Hinit : roomy (set_running init true))
    by (intros k; unfold buffered; simpl; lia).
  destruct (poll_loop_roomy ps Hinit) as (c1 & recs & Hs & Hb & Hroom & Hp & F).
  set (c1' := match how with
              | Stopped => set_running c1 false
              | Interrupted => print c1 LogStoppedByUser
              end).
  destruct (save_all_view csv_always_ok c1') as (c2 & Hs2 & _ & _ & _).
  destruct (save_keys_frames (keys (data_buffer c1')) c1')
    as (finals & Hpf & Ff).
  fold (_save_all_buffers c1') in Hpf. rewrite Hs2 in Hpf. simpl in Hpf.
  assert (Hsame : persisted c1' = persisted c1 /\
                  forall k, buffered c1' k = buffered c1 k)
    by (subst c1'; destruct how; split; reflexivity).
  destruct Hsame as [Hp' Hb'].
  exists c1, (set_running (close c2) false), finals.
  split; [exact Hs|]. unfold start_consuming, finally_block.
  rewrite Hs. fold c1'. rewrite Hs2.
  split; [reflexivity|]. split; [simpl; now rewrite Hpf, Hp'|].
  split; [now rewrite Hp|]. split; [intros k; specialize (Hroom k);
                                    now rewrite Hb in Hroom|].
  apply Forall_forall. intros [k rows] Hin.
  apply (proj1 (Forall_forall _ _) Ff) in Hin. simpl in *.
  destruct Hin as [-> Hne]. rewrite Hb' in Hne |- *. specialize (Hroom k).
  rewrite Hb in Hroom. simpl in Hroom.
  destruct (buffered c1 k); [contradiction|simpl in *; lia].
Qed.

End WritesSucceedAgain.

End WithRuntime.

(** *** A runtime for the examples

    Identities are strings, payloads are ASCII, and [json.loads] is
    tabulated on the payloads the examples use. *)

Definition string_key (j : json) : option string :=
  match j with
  | JStr s => Some s
  | _ => None
  end.

Definition is_ascii (b : Byte.byte) : bool :=
  N.ltb (Byte.to_N b) 128.

Definition decode_ascii (bytes : list Byte.byte) : option string :=
  if forallb is_ascii bytes then Some (string_of_list_byte bytes) else None.

Definition quote : string := String (ascii_of_nat 34) EmptyString.

(** The JSON text of an object whose values are strings. *)
Fixpoint fields_text (kv : list (string * string)) : string :=
  match kv with
  | [] => EmptyString
  | [(k, v)] => quote ++ k ++ quote ++ ": " ++ quote ++ v ++ quote
  | (k, v) :: rest =>
      quote ++ k ++ quote ++ ": " ++ quote ++ v ++ quote ++ ", "
      ++ fields_text rest
  end%string.

Definition object_text (kv : list (string * string)) : string :=
  ("{" ++ fields_text kv ++ "}")%string.

Definition object_value (kv : list (string * string)) : json :=
  JDict (map (fun p => (fst p, JStr (snd p))) kv).

(** A reading of the examples: equipment [id], with a sequence label. *)
Definition sample (id seq : string) : list (string * string) :=
  [("equipment_id", id); ("timestamp", seq)]%string.

Definition sample_objects : list (list (string * string)) :=
  [ []; [("timestamp", "t0")]%string;
    sample "EQ-1" "t1"; sample "EQ-1" "t2"; sample "EQ-1" "t3";
    sample "EQ-1" "t4"; sample "EQ-1" "t5"; sample "EQ-2" "t1" ].

Definition sample_loads (text : string) : option json :=
  if String.eqb text "[]" then Some (JList [])
  else
    option_map object_value
      (find (fun kv => String.eqb (object_text kv) text) sample_objects).

Definition sample_message (text : string) : message :=
  Message (Some (list_byte_of_string text)).

Definition reading_message (id seq : string) : message :=
  sample_message (object_text (sample id seq)).

Definition reading (id seq : string) : json := object_value (sample id seq).


(** Every write succeeds. *)
Definition csv_fine (n : nat) : bool := true.

(** Identities are strings: the text of one is the string itself. *)
Definition str_of_string (k : string) : string := k.

(** A clock that reads the next second at every reading, within an hour
    of a Friday afternoon, and one that stands still within a second. *)
Definition ticking_clock (n : nat) : Files.datetime :=
  Files.Datetime 2024 3 1 15 ((n / 60) mod 60) (n mod 60).


(** A consumer with capacity [capacity] holding the given buffers. *)
Definition consumer_with (capacity : nat)
    (buffers : list (string * list json)) : consumer string :=
  {| data_buffer := buffers; buffer_size := capacity; running := true;
     persisted := []; directory := []; stdout := []; csv_attempts := 0;
     closed := false |}.

(** Polls of a short run: two equipments, a payload without identity, a
    payload that is not JSON, an idle poll and an end of partition. *)
Definition sample_polls : list polled :=
  [ PollMessage (reading_message "EQ-1" "t1"); PollNone;
    PollMessage (sample_message "{}");
    PollMessage (sample_message "oops");
    PollMessage (reading_message "EQ-2" "t1"); PollError true;
    PollMessage (reading_message "EQ-1" "t2") ].








(** The scenario of capacity 3: three readings of EQ-1 into an empty
    buffer. *)
Lemma flush_policy_witness :
  let c := consumer_with 3 [] in
  let msgs := [reading_message "EQ-1" "t3"; reading_message "EQ-1" "t4";
               reading_message "EQ-1" "t5"] in
  let datas := [reading "EQ-1" "t3"; reading "EQ-1" "t4";
                reading "EQ-1" "t5"] in
  (0 < buffer_size c /\ buffered string_dec c "EQ-1"%string = [] /\
   length datas = buffer_size c) /\
  exists c1,
    poll_loop string_dec string_key decode_ascii sample_loads csv_fine
      str_of_string ticking_clock
      (map PollMessage msgs) c = (Returned, c1) /\
    persisted c1 = persisted c ++ [("EQ-1"%string, datas)] /\
    lookup string_dec (data_buffer c1) "EQ-1"%string = Some [].
Proof.
  cbv zeta. split; [repeat split; simpl; lia|].
  refine (proj1 (@flush_policy string string_dec string_key decode_ascii
                   sample_loads csv_fine
                     str_of_string ticking_clock (fun _ => eq_refl)
                   (consumer_with 3 []) "EQ-1"%string _ _ _ _ _) _).
  - simpl; lia.
  - reflexivity.
  - repeat constructor.
  - reflexivity.
Defined.

(** A reading of EQ-1 that fills its buffer, next to a buffer of EQ-2. *)
Lemma other_keys_untouched_witness :
  let c := consumer_with 2 [("EQ-2"%string, [reading "EQ-2" "t1"]);
                            ("EQ-1"%string, [reading "EQ-1" "t1"])] in
  let msg := reading_message "EQ-1" "t2" in
  "EQ-1"%string <> "EQ-2"%string /\
  lookup string_dec
    (data_buffer
       (snd (_process_message string_dec string_key decode_ascii
               sample_loads csv_fine
                 str_of_string ticking_clock msg c))) "EQ-2"%string =
    lookup string_dec (data_buffer c) "EQ-2"%string /\
  lookup string_dec
    (data_buffer (snd (_save_buffer string_dec csv_fine
      str_of_string ticking_clock "EQ-1"%string c)))
    "EQ-2"%string =
    lookup string_dec (data_buffer c) "EQ-2"%string.
Proof.
  cbv zeta. split; [discriminate|].
  apply (@other_keys_untouched string string_dec string_key decode_ascii
           sample_loads csv_fine
             str_of_string ticking_clock _ _ "EQ-1"%string "EQ-2"%string
           (reading "EQ-1" "t2")).
  - discriminate.
  - reflexivity.
Defined.



(** *** Examples for the consumer when writes fail *)


(** Payloads with an empty identity. *)
Definition edge_objects : list (list (string * string)) :=
  [ sample "" "t1" ].

Definition edge_loads (text : string) : option json :=
  option_map object_value
    (find (fun kv => String.eqb (object_text kv) text) edge_objects).


(** Two keys, one with a row to write. *)
Lemma flush_all_idempotent_witness :
  let c := consumer_with 3 [("EQ-1"%string, [reading "EQ-1" "t1"]);
                            ("EQ-2"%string, [])] in
  let c1 := snd (_save_all_buffers string_dec csv_fine
    str_of_string ticking_clock c) in
  _save_all_buffers string_dec csv_fine
    str_of_string ticking_clock c = (Returned, c1) /\
  (forall k, buffered string_dec c1 k = []) /\
  _save_all_buffers string_dec csv_fine
    str_of_string ticking_clock c1 = (Returned, c1).
Proof.
  cbv zeta. split; [reflexivity|].
  apply (@flush_all_idempotent string string_dec csv_fine
    str_of_string ticking_clock
           (consumer_with 3 [("EQ-1"%string, [reading "EQ-1" "t1"]);
                             ("EQ-2"%string, [])])).
  reflexivity.
Defined.

(** A reading whose identity is the empty string. *)
Lemma unusable_identity_witness :
  let msg := sample_message (object_text (sample "" "t1")) in
  let kv := [("equipment_id"%string, JStr ""); ("timestamp"%string, JStr "t1")] in
  let c := init string in
  decodes_to decode_ascii edge_loads msg (JDict kv) /\
  (truthy (dict_get kv "equipment_id") = false ->
   _process_message string_dec string_key decode_ascii edge_loads csv_fine
     str_of_string ticking_clock
     msg c = (Returned, c)) /\
  (truthy (dict_get kv "equipment_id") = true ->
   string_key (dict_get kv "equipment_id") = None ->
   _process_message string_dec string_key decode_ascii edge_loads csv_fine
     str_of_string ticking_clock
     msg c = (Returned, print c (LogProcessError string))).
Proof.
  cbv zeta.
  assert (H : decodes_to decode_ascii edge_loads
                (sample_message (object_text (sample "" "t1")))
                (JDict [("equipment_id"%string, JStr "");
                        ("timestamp"%string, JStr "t1")])).
  { exists (list_byte_of_string (object_text (sample "" "t1"))),
           (object_text (sample "" "t1")).
    repeat split. }
  split; [exact H|].
  apply (@unusable_identity string string_dec string_key decode_ascii
           edge_loads csv_fine str_of_string ticking_clock _ (init string) _ H).
Defined.

(** The run of [sample_polls], stopped by [stop_consuming]. *)
Lemma frame_sizes_witness :
  (forall n, csv_fine n = true) /\
  exists c_loop c_end final_frames,
    poll_loop string_dec string_key decode_ascii sample_loads csv_fine
      str_of_string ticking_clock
      sample_polls (set_running (init string) true) = (Returned, c_loop) /\
    start_consuming string_dec string_key decode_ascii sample_loads csv_fine
      str_of_string ticking_clock
      sample_polls Stopped (init string) = (Returned, c_end) /\
    persisted c_end = persisted c_loop ++ final_frames /\
    Forall (fun r => length (snd r) = 100) (persisted c_loop) /\
    (forall k, length (buffered string_dec c_loop k) < 100) /\
    Forall (fun r => 1 <= length (snd r) < 100) final_frames.
Proof.
  split; [reflexivity|].
  apply (@frame_sizes string string_dec string_key decode_ascii sample_loads
           csv_fine str_of_string ticking_clock).
  reflexivity.
Defined.

End Consumer.

(** ** Rounding to binary64

    What the proofs below need about the arithmetic of Python floats,
    from the specification of the primitive operations ([SpecFloat]). *)

Module Binary64.

Local Open Scope Z_scope.

(** *** Digits and exponents *)

(** The exponent a binary64 number of magnitude [2^(k-1) <= |x| < 2^k]
    is written with. *)
Definition fexp64 (k : Z) : Z := Z.max (k - 53) (-1074).

Lemma fexp_fexp64 k : fexp prec emax k = fexp64 k.
Proof. reflexivity. Qed.

Lemma fexp64_mono a b : a <= b -> fexp64 a <= fexp64 b.
Proof. unfold fexp64. lia. Qed.

Lemma digits2_bounds p :
  2 ^ (Zpos (digits2_pos p) - 1) <= Zpos p < 2 ^ Zpos (digits2_pos p).
Proof.
  induction p as [p IH|p IH|]; simpl digits2_pos.
  - rewrite Pos2Z.inj_succ, Z.pow_succ_r by lia.
    replace (Z.succ (Zpos (digits2_pos p)) - 1) with
      (Z.succ (Zpos (digits2_pos p) - 1)) by lia.
    rewrite Z.pow_succ_r by lia. lia.
  - rewrite Pos2Z.inj_succ, Z.pow_succ_r by lia.
    replace (Z.succ (Zpos (digits2_pos p)) - 1) with
      (Z.succ (Zpos (digits2_pos p) - 1)) by lia.
    rewrite Z.pow_succ_r by lia. lia.
  - simpl. lia.
Qed.

(** A number below [2^k] has at most [k] digits, and one from [2^k] on
    has more. *)
Lemma digits2_le p k : 0 <= k -> Zpos p < 2 ^ k -> Zpos (digits2_pos p) <= k.
Proof.
  intros Hk Hp. destruct (digits2_bounds p) as [Hlo _].
  destruct (Z_le_gt_dec (Zpos (digits2_pos p)) k) as [H|H]; [exact H|].
  exfalso.
  assert (2 ^ k <= 2 ^ (Zpos (digits2_pos p) - 1))
    by (apply Z.pow_le_mono_r; lia).
  lia.
Qed.

Lemma digits2_gt p k : 0 <= k -> 2 ^ k <= Zpos p -> k < Zpos (digits2_pos p).
Proof.
  intros Hk Hp. destruct (digits2_bounds p) as [_ Hhi].
  assert (H : 2 ^ k < 2 ^ Zpos (digits2_pos p)) by lia.
  apply Z.pow_lt_mono_r_iff in H; lia.
Qed.

Lemma Zdigits2_bounds m :
  0 <= m ->
  0 <= Zdigits2 m /\ m < 2 ^ Zdigits2 m /\
  (1 <= m -> 1 <= Zdigits2 m /\ 2 ^ (Zdigits2 m - 1) <= m).
Proof.
  intros Hm. destruct m as [|p|p]; [| |lia]; cbn [Zdigits2].
  - repeat split; simpl; lia.
  - destruct (digits2_bounds p). repeat split; lia.
Qed.

Lemma pow2_xO n : 2 ^ Zpos n~0 = 2 ^ Zpos n * 2 ^ Zpos n.
Proof.
  change (Zpos n~0) with (2 * Zpos n).
  replace (2 * Zpos n) with (Zpos n + Zpos n) by lia.
  now rewrite Z.pow_add_r by lia.
Qed.

Lemma pow2_xI n : 2 ^ Zpos n~1 = 2 * (2 ^ Zpos n * 2 ^ Zpos n).
Proof.
  change (Zpos n~1) with (2 * Zpos n + 1).
  replace (2 * Zpos n + 1) with (Z.succ (Zpos n + Zpos n)) by lia.
  rewrite Z.pow_succ_r by lia. now rewrite Z.pow_add_r by lia.
Qed.

(** *** Rounding to nearest, ties to even *)

(** [a / b] rounded to the nearest integer, ties to the even one. *)
Definition nearest_even (a b : Z) : Z :=
  match 2 * (a mod b) ?= b with
  | Lt => a / b
  | Gt => a / b + 1
  | Eq => if Z.even (a / b) then a / b else a / b + 1
  end.

(** The location [binary_round_aux] keeps of [a / b] between [a / b]
    and the next integer. *)
Definition location_of (a b : Z) : location :=
  if a mod b =? 0 then loc_Exact else loc_Inexact (2 * (a mod b) ?= b).

Lemma round_location a b :
  0 < b ->
  round_nearest_even (a / b) (location_of a b) = nearest_even a b.
Proof.
  intros Hb. unfold location_of, nearest_even.
  destruct (Z.eqb_spec (a mod b) 0) as [H0|H0].
  - rewrite H0. change (2 * 0) with 0. cbn [round_nearest_even].
    destruct (Z.compare_spec 0 b); try lia; reflexivity.
  - destruct (2 * (a mod b) ?= b); reflexivity.
Qed.

Lemma nearest_even_bounds a b :
  a / b <= nearest_even a b <= a / b + 1.
Proof.
  unfold nearest_even.
  destruct (2 * (a mod b) ?= b); try lia. destruct (Z.even (a / b)); lia.
Qed.

(** Rounding to nearest keeps the order of the quotients. *)
Lemma nearest_even_mono a1 b1 a2 b2 :
  0 < b1 -> 0 < b2 -> a1 * b2 <= a2 * b1 ->
  nearest_even a1 b1 <= nearest_even a2 b2.
Proof.
  intros Hb1 Hb2 Hle.
  pose proof (Z.div_mod a1 b1 ltac:(lia)) as H1.
  pose proof (Z.div_mod a2 b2 ltac:(lia)) as H2.
  pose proof (Z.mod_pos_bound a1 b1 Hb1) as Hf1.
  pose proof (Z.mod_pos_bound a2 b2 Hb2) as Hf2.
  pose proof (nearest_even_bounds a1 b1) as Hn1.
  pose proof (nearest_even_bounds a2 b2) as Hn2.
  set (q1 := a1 / b1) in *. set (q2 := a2 / b2) in *.
  set (f1 := a1 mod b1) in *. set (f2 := a2 mod b2) in *.
  assert (Hq : q1 <= q2).
  { destruct (Z_le_gt_dec q1 q2) as [H|H]; [exact H|exfalso].
    assert (q2 + 1 <= q1) by lia.
    assert (b1 * b2 * (q2 + 1) <= b1 * b2 * q1)
      by (apply Z.mul_le_mono_nonneg_l; nia).
    nia. }
  destruct (Z.eq_dec q1 q2) as [Heq|Hne]; [|lia].
  assert (Hf : f1 * b2 <= f2 * b1) by nia.
  unfold nearest_even. fold q1 q2 f1 f2. rewrite <- Heq.
  destruct (Z.compare_spec (2 * f1) b1) as [E1|L1|G1];
    destruct (Z.compare_spec (2 * f2) b2) as [E2|L2|G2];
    try (destruct (Z.even q1)); try lia; exfalso; nia.
Qed.

(** *** Shifting right *)

(** A shift record holds [a / b]: its mantissa is the quotient and its
    two bits locate the remainder. *)
Definition holds (mrs : shr_record) (a b : Z) : Prop :=
  shr_m mrs = a / b /\ loc_of_shr_record mrs = location_of a b.

Lemma holds_of_loc m l a b :
  m = a / b -> l = location_of a b -> holds (shr_record_of_loc m l) a b.
Proof.
  intros -> ->. unfold holds.
  destruct (location_of a b) as [|[| |]]; split; reflexivity.
Qed.

Lemma shr_1_record m r s :
  0 <= m ->
  shr_1 {| shr_m := m; shr_r := r; shr_s := s |} =
  {| shr_m := m / 2; shr_r := Z.odd m; shr_s := orb r s |}.
Proof.
  intros Hm.
  destruct m as [|[p|p|]|p]; cbn [shr_1 Z.odd]; try reflexivity; try lia.
  - f_equal. apply Z.div_unique with 1; lia.
  - f_equal. apply Z.div_unique with 0; lia.
Qed.

Lemma shr_1_holds mrs a b :
  0 <= a -> 0 < b -> holds mrs a b -> holds (shr_1 mrs) a (2 * b).
Proof.
  intros Ha Hb [Hm Hl].
  assert (Hq : 0 <= a / b) by (apply Z.div_pos; lia).
  pose proof (Z.mod_pos_bound a b Hb) as Hr.
  pose proof (Z.div_mod a b ltac:(lia)) as Hab.
  pose proof (Z.div_mod (a / b) 2 ltac:(lia)) as Hq2.
  pose proof (Zmod_odd (a / b)) as Hodd.
  assert (Hdiv : a / (2 * b) = a / b / 2).
  { rewrite (Z.mul_comm 2 b). now rewrite <- Z.div_div by lia. }
  assert (Hmod : a mod (2 * b) = a mod b + b * ((a / b) mod 2)).
  { symmetry. apply Z.mod_unique with (a / b / 2); [|nia].
    destruct (Z.odd (a / b)); nia. }
  assert (Hsticky : orb (shr_r mrs) (shr_s mrs) = negb (a mod b =? 0)).
  { unfold location_of in Hl. destruct mrs as [m [|] [|]];
      cbn [loc_of_shr_record shr_r shr_s orb] in *;
      destruct (a mod b =? 0); try discriminate; reflexivity. }
  destruct mrs as [m r s]. cbn [shr_m shr_r shr_s] in *. subst m.
  rewrite shr_1_record by exact Hq. rewrite Hsticky.
  unfold holds, location_of. cbn [shr_m loc_of_shr_record].
  split; [now rewrite Hdiv|]. rewrite Hmod, Hodd.
  destruct (Z.odd (a / b)); destruct (Z.eqb_spec (a mod b) 0) as [H0|H0];
    cbn [negb];
    repeat match goal with
    | |- context [?x =? 0] => destruct (Z.eqb_spec x 0); try lia
    | |- context [?x ?= ?y] => destruct (Z.compare_spec x y); try lia
    end; reflexivity.
Qed.

Lemma iter_pos_holds n : forall mrs a b,
  0 <= a -> 0 < b -> holds mrs a b ->
  holds (iter_pos shr_1 n mrs) a (b * 2 ^ Zpos n).
Proof.
  induction n as [n IH|n IH|]; intros mrs a b Ha Hb H; cbn [iter_pos];
    try assert (Hp : 0 < 2 ^ Zpos n) by (apply Z.pow_pos_nonneg; lia).
  - rewrite pow2_xI.
    replace (b * (2 * (2 ^ Zpos n * 2 ^ Zpos n)))
      with (2 * b * 2 ^ Zpos n * 2 ^ Zpos n) by lia.
    apply IH; [lia|nia|]. apply IH; [lia|lia|]. now apply shr_1_holds.
  - rewrite pow2_xO, Z.mul_assoc.
    apply IH; [lia|nia|]. now apply IH.
  - replace (b * 2 ^ 1) with (2 * b) by (change (2 ^ 1) with 2; lia).
    now apply shr_1_holds.
Qed.

(** *** What [binary_round_aux] returns *)

(** The result once the mantissa [m1] at exponent [e1] is known: [m1] is
    at most [2^53], and [2^53] is renormalised. *)
Definition rounded (s : bool) (m1 e1 : Z) : spec_float :=
  match m1 with
  | Z0 => S754_zero s
  | Zpos p =>
      if Zpos p <? 2 ^ 53 then
        if e1 <=? 971 then S754_finite s p e1 else S754_infinity s
      else
        if e1 + 1 <=? 971 then S754_finite s (2 ^ 52) (e1 + 1)
        else S754_infinity s
  | Zneg _ => S754_nan
  end.

Lemma second_shift s m1 e1 :
  0 <= m1 <= 2 ^ 53 -> -1074 <= e1 ->
  (let '(mrs, e2) := shr_fexp prec emax m1 e1 loc_Exact in
   match shr_m mrs with
   | Z0 => S754_zero s
   | Zpos m => if e2 <=? emax - prec then S754_finite s m e2
               else S754_infinity s
   | Zneg _ => S754_nan
   end) = rounded s m1 e1.
Proof.
  intros Hm He. unfold shr_fexp, rounded.
  destruct m1 as [|p|p]; [| |lia].
  - cbn [Zdigits2 shr_record_of_loc]. rewrite fexp_fexp64.
    assert (Hn : fexp64 (0 + e1) - e1 <= 0) by (unfold fexp64; lia).
    destruct (fexp64 (0 + e1) - e1); try lia; reflexivity.
  - cbn [Zdigits2 shr_record_of_loc]. rewrite fexp_fexp64.
    destruct (Z.ltb_spec (Zpos p) (2 ^ 53)) as [Hlt|Hge].
    + assert (Hd : Zpos (digits2_pos p) <= 53) by (apply digits2_le; lia).
      assert (Hn : fexp64 (Zpos (digits2_pos p) + e1) - e1 <= 0)
        by (unfold fexp64; lia).
      destruct (fexp64 (Zpos (digits2_pos p) + e1) - e1); try lia;
        reflexivity.
    + assert (Hp : Zpos p = 2 ^ 53) by lia.
      injection Hp as ->.
      change (Zpos (digits2_pos (Z.to_pos (2 ^ 53)))) with 54.
      change (Z.to_pos (2 ^ 53)) with 9007199254740992%positive.
      change (Zpos (digits2_pos 9007199254740992)) with 54.
      replace (fexp64 (54 + e1) - e1) with 1 by (unfold fexp64; lia).
      cbn [shr iter_pos shr_1 shr_m fst snd].
      reflexivity.
Qed.

(** [binary_round_aux] on a mantissa and location that stand for the
    quotient [a / b]: the value [a / b * 2^e] is rounded to nearest at
    the exponent its magnitude asks for. *)
Lemma binary_round_aux_held s m l e a b :
  0 <= a -> 0 < b -> m = a / b -> l = location_of a b ->
  let e1 := fexp64 (Zdigits2 m + e) in
  0 <= e1 - e ->
  binary_round_aux prec emax s m e l =
    rounded s (nearest_even a (b * 2 ^ (e1 - e))) e1 /\
  0 <= nearest_even a (b * 2 ^ (e1 - e)) <= 2 ^ 53.
Proof.
  intros Ha Hb Hm Hl e1 Hn.
  assert (Hm0 : 0 <= m) by (subst m; apply Z.div_pos; lia).
  destruct (@Zdigits2_bounds m Hm0) as (Hd0 & Hdhi & _).
  assert (Hpow : 0 < 2 ^ (e1 - e)) by (apply Z.pow_pos_nonneg; lia).
  assert (Hquo : a / (b * 2 ^ (e1 - e)) = m / 2 ^ (e1 - e)).
  { subst m. now rewrite Z.div_div by lia. }
  assert (Hq : 0 <= m / 2 ^ (e1 - e) < 2 ^ 53).
  { split; [apply Z.div_pos; lia|].
    apply Z.div_lt_upper_bound; [lia|].
    rewrite <- Z.pow_add_r by lia.
    eapply Z.lt_le_trans; [exact Hdhi|].
    apply Z.pow_le_mono_r; [lia|]. subst e1. unfold fexp64. lia. }
  pose proof (nearest_even_bounds a (b * 2 ^ (e1 - e))) as Hb'.
  rewrite Hquo in Hb'. split; [|lia].
  assert (Hheld : holds (fst (shr (shr_record_of_loc m l) e (e1 - e))) a
                    (b * 2 ^ (e1 - e)) /\
                  snd (shr (shr_record_of_loc m l) e (e1 - e)) = e1).
  { pose proof (@holds_of_loc m l a b Hm Hl) as H0.
    destruct (e1 - e) as [|p|p] eqn:Hp; [| |lia]; cbn [shr fst snd].
    - rewrite Z.pow_0_r, Z.mul_1_r. split; [exact H0|lia].
    - split; [now apply iter_pos_holds|lia]. }
  destruct Hheld as [[H1 H2] H3].
  unfold binary_round_aux. unfold shr_fexp at 1. rewrite fexp_fexp64.
  fold e1.
  destruct (shr (shr_record_of_loc m l) e (e1 - e)) as [mrs e'] eqn:Hshr.
  cbn [fst snd] in H1, H2, H3. subst e'.
  rewrite H1, H2, round_location by nia.
  apply second_shift; [|subst e1; unfold fexp64; lia].
  rewrite <- Hquo in Hq. lia.
Qed.

(** The order of two results, read off mantissas and exponents. *)
Lemma rounded_leb_rounded m1 e1 m2 e2 :
  0 <= m1 <= 2 ^ 53 -> 0 <= m2 <= 2 ^ 53 ->
  (e1 = e2 /\ m1 <= m2) \/ (e1 < e2 /\ 2 ^ 52 <= m2) ->
  SFleb (rounded false m1 e1) (rounded false m2 e2) = true /\
  SFleb (rounded true m2 e2) (rounded true m1 e1) = true.
Proof.
  intros Hm1 Hm2 Hcase. unfold rounded.
  assert (H52 : Zpos (2 ^ 52) = 2 ^ 52) by reflexivity.
  destruct m1 as [|p1|p1]; [| |lia]; destruct m2 as [|p2|p2]; try lia;
    repeat match goal with
    | |- context [?a <? ?b] => destruct (Z.ltb_spec a b)
    | |- context [?a <=? ?b] => destruct (Z.leb_spec a b)
    end;
    try (split; reflexivity); try lia;
    unfold SFleb, SFcompare; rewrite ?Pos.compare_cont_spec;
    cbn [Pos.switch_Eq];
    repeat match goal with
    | |- context [Z.compare ?a ?b] => destruct (Z.compare_spec a b)
    | |- context [Pos.compare ?a ?b] => destruct (Pos.compare_spec a b)
    end;
    cbn [CompOpp]; try (split; reflexivity); try lia.
Qed.

Lemma rounded_negative_leb m1 e1 m2 e2 :
  0 <= m1 -> 0 <= m2 ->
  SFleb (rounded true m1 e1) (rounded false m2 e2) = true.
Proof.
  intros H1 H2. unfold rounded.
  destruct m1 as [|p1|p1]; [| |lia]; destruct m2 as [|p2|p2]; try lia;
    repeat match goal with
    | |- context [?a <? ?b] => destruct (Z.ltb_spec a b)
    | |- context [?a <=? ?b] => destruct (Z.leb_spec a b)
    end; reflexivity.
Qed.

(** Quotients in order round to results in order: the monotonicity of
    rounding to binary64, for positive results and, mirrored, for
    negative ones. *)
Lemma binary_round_aux_mono_held base m1 l1 e1 a1 b1 m2 l2 e2 a2 b2 :
  0 <= a1 -> 0 < b1 -> m1 = a1 / b1 -> l1 = location_of a1 b1 ->
  0 <= a2 -> 0 < b2 -> m2 = a2 / b2 -> l2 = location_of a2 b2 ->
  base <= e1 -> base <= e2 ->
  0 <= fexp64 (Zdigits2 m1 + e1) - e1 ->
  0 <= fexp64 (Zdigits2 m2 + e2) - e2 ->
  a1 * b2 * 2 ^ (e1 - base) <= a2 * b1 * 2 ^ (e2 - base) ->
  SFleb (binary_round_aux prec emax false m1 e1 l1)
        (binary_round_aux prec emax false m2 e2 l2) = true /\
  SFleb (binary_round_aux prec emax true m2 e2 l2)
        (binary_round_aux prec emax true m1 e1 l1) = true.
Proof.
  intros Ha1 Hb1 Hm1 Hl1 Ha2 Hb2 Hm2 Hl2 Hbase1 Hbase2 Hn1 Hn2 Hle.
  destruct (@binary_round_aux_held false m1 l1 e1 a1 b1) as [-> Hr1];
    try assumption.
  destruct (@binary_round_aux_held false m2 l2 e2 a2 b2) as [-> Hr2];
    try assumption.
  destruct (@binary_round_aux_held true m1 l1 e1 a1 b1) as [-> _];
    try assumption.
  destruct (@binary_round_aux_held true m2 l2 e2 a2 b2) as [-> _];
    try assumption.
  set (E1 := fexp64 (Zdigits2 m1 + e1)) in *.
  set (E2 := fexp64 (Zdigits2 m2 + e2)) in *.
  assert (Hm10 : 0 <= m1) by (subst m1; apply Z.div_pos; lia).
  assert (Hm20 : 0 <= m2) by (subst m2; apply Z.div_pos; lia).
  destruct (@Zdigits2_bounds m1 Hm10) as (Hd1 & Hhi1 & Hlo1).
  destruct (@Zdigits2_bounds m2 Hm20) as (Hd2 & Hhi2 & Hlo2).
  assert (Hp1 : 0 < 2 ^ (e1 - base)) by (apply Z.pow_pos_nonneg; lia).
  assert (Hp2 : 0 < 2 ^ (e2 - base)) by (apply Z.pow_pos_nonneg; lia).
  pose proof (Z.div_mod a1 b1 ltac:(lia)) as Hdm1.
  pose proof (Z.mod_pos_bound a1 b1 Hb1) as Hf1.
  pose proof (Z.div_mod a2 b2 ltac:(lia)) as Hdm2.
  pose proof (Z.mod_pos_bound a2 b2 Hb2) as Hf2.
  rewrite <- Hm1 in Hdm1. rewrite <- Hm2 in Hdm2.
  assert (HE : E1 <= E2).
  { destruct (Z.eq_dec m1 0) as [H0|H0].
    - subst E1 E2. rewrite H0 in *. cbn [Zdigits2] in *.
      unfold fexp64 in *. lia.
    - assert (Hd : Zdigits2 m1 + e1 <= Zdigits2 m2 + e2);
        [|subst E1 E2; now apply fexp64_mono].
      destruct (Hlo1 ltac:(lia)) as [Hd1' Hlo1'].
      assert (H1 : 2 ^ (Zdigits2 m1 - 1 + (e1 - base)) * (b1 * b2) <=
                   a1 * b2 * 2 ^ (e1 - base)).
      { rewrite (Z.pow_add_r 2 (Zdigits2 m1 - 1)) by lia.
        assert (2 ^ (Zdigits2 m1 - 1) * b1 <= a1) by nia.
        assert (0 < 2 ^ (e1 - base) * b2) by nia.
        nia. }
      assert (H2 : a2 * b1 * 2 ^ (e2 - base) <
                   2 ^ (Zdigits2 m2 + (e2 - base)) * (b1 * b2)).
      { rewrite (Z.pow_add_r 2 (Zdigits2 m2)) by lia.
        assert (a2 < 2 ^ Zdigits2 m2 * b2) by nia.
        assert (0 < 2 ^ (e2 - base) * b1) by nia.
        nia. }
      assert (H3 : 2 ^ (Zdigits2 m1 - 1 + (e1 - base)) <
                   2 ^ (Zdigits2 m2 + (e2 - base))) by nia.
      apply Z.pow_lt_mono_r_iff in H3; lia. }
  apply rounded_leb_rounded; [exact Hr1|exact Hr2|].
  assert (HpE1 : 0 < 2 ^ (E1 - e1)) by (apply Z.pow_pos_nonneg; lia).
  assert (HpE2 : 0 < 2 ^ (E2 - e2)) by (apply Z.pow_pos_nonneg; lia).
  destruct (Z.eq_dec E1 E2) as [Heq|Hne]; [left|right].
  - split; [exact Heq|].
    apply nearest_even_mono; try nia.
    assert (Hs : 0 < 2 ^ (E1 - base)) by (apply Z.pow_pos_nonneg; lia).
    apply (Z.mul_le_mono_pos_r _ _ (2 ^ (E1 - base)) Hs).
    assert (HAP : 2 ^ (e1 - base) * 2 ^ (E1 - e1) = 2 ^ (E1 - base)).
    { rewrite <- Z.pow_add_r by lia. f_equal. lia. }
    assert (HBQ : 2 ^ (e2 - base) * 2 ^ (E2 - e2) = 2 ^ (E1 - base)).
    { rewrite <- Z.pow_add_r by lia. f_equal. lia. }
    replace (a1 * (b2 * 2 ^ (E2 - e2)) * 2 ^ (E1 - base))
      with (a1 * b2 * 2 ^ (e1 - base) * (2 ^ (E1 - e1) * 2 ^ (E2 - e2)))
      by (rewrite <- HAP; ring).
    replace (a2 * (b1 * 2 ^ (E1 - e1)) * 2 ^ (E1 - base))
      with (a2 * b1 * 2 ^ (e2 - base) * (2 ^ (E1 - e1) * 2 ^ (E2 - e2)))
      by (rewrite <- HBQ; ring).
    apply Z.mul_le_mono_nonneg_r; [nia|exact Hle].
  - split; [lia|].
    assert (Hm2pos : 1 <= m2).
    { destruct (Z.eq_dec m2 0) as [H0|H0]; [|lia]. exfalso.
      subst E1 E2. rewrite H0 in *. cbn [Zdigits2] in *.
      unfold fexp64 in *. lia. }
    destruct (Hlo2 Hm2pos) as [Hd2' Hlo2'].
    assert (HE2 : E2 = Zdigits2 m2 + e2 - 53).
    { subst E1 E2. unfold fexp64 in *. lia. }
    eapply Z.le_trans; [|apply nearest_even_bounds].
    rewrite <- Z.div_div, <- Hm2 by lia.
    apply Z.div_le_lower_bound; [lia|].
    rewrite <- Z.pow_add_r by lia.
    replace (E2 - e2 + 52) with (Zdigits2 m2 - 1) by lia.
    exact Hlo2'.
Qed.


(** *** Values *)

(** The value [m * 2^e], as an integer number of units [2^-2200]: no
    exponent below is under [-2200]. *)
Definition scaled (m e : Z) : Z := m * 2 ^ (e + 2200).

(** [S754_finite s mx ex] is a binary64 number. *)
Definition canonical (mx : positive) (ex : Z) : Prop :=
  ex = fexp64 (Zpos (digits2_pos mx) + ex) /\ ex <= 971.

Lemma valid_canonical s mx ex :
  valid_binary (S754_finite s mx ex) = true -> canonical mx ex.
Proof.
  unfold valid_binary, SpecFloat.valid_binary, bounded, canonical_mantissa.
  rewrite fexp_fexp64. intros H. apply andb_true_iff in H.
  destruct H as [H1 H2]. apply Z.eqb_eq in H1. apply Z.leb_le in H2.
  split; [now symmetry|exact H2].
Qed.

Lemma canonical_bounds mx ex :
  canonical mx ex ->
  -1074 <= ex /\ Zpos (digits2_pos mx) <= 53 /\ Zpos mx < 2 ^ 53 /\
  (-1074 < ex -> Zpos (digits2_pos mx) = 53 /\ 2 ^ 52 <= Zpos mx).
Proof.
  intros [Hc _]. unfold fexp64 in Hc.
  destruct (digits2_bounds mx) as [Hlo Hhi].
  split; [lia|]. split; [lia|]. split.
  - eapply Z.lt_le_trans; [exact Hhi|]. apply Z.pow_le_mono_r; lia.
  - intros Hex. assert (Hd : Zpos (digits2_pos mx) = 53) by lia.
    rewrite Hd in Hlo. split; [exact Hd|exact Hlo].
Qed.

(** [r] is what the magnitude [a / b * 2^e] rounds to, with sign [s]. *)
Definition rounds (s : bool) (r : spec_float) (a b e : Z) : Prop :=
  0 <= a /\ 0 < b /\ -2200 <= e /\
  exists m l,
    m = a / b /\ l = location_of a b /\
    0 <= fexp64 (Zdigits2 m + e) - e /\
    r = binary_round_aux prec emax s m e l.

Lemma rounds_rounded s r a b e :
  rounds s r a b e -> exists m1 e1, 0 <= m1 /\ r = rounded s m1 e1 /\
                                   (a = 0 -> m1 = 0).
Proof.
  intros (Ha & Hb & He & m & l & Hm & Hl & Hn & ->).
  destruct (@binary_round_aux_held s m l e a b Ha Hb Hm Hl Hn) as [-> Hr].
  do 2 eexists. split; [apply Hr|]. split; [reflexivity|].
  intros ->. unfold nearest_even.
  rewrite Z.mod_0_l, Z.div_0_l by nia. change (2 * 0) with 0.
  destruct (Z.compare_spec 0 (b * 2 ^ (fexp64 (Zdigits2 m + e) - e)));
    try reflexivity.
  assert (0 < 2 ^ (fexp64 (Zdigits2 m + e) - e))
    by (apply Z.pow_pos_nonneg; lia).
  nia.
Qed.

(** A canonical number is what its own value rounds to. *)
Lemma rounds_finite s m e :
  canonical m e -> rounds s (S754_finite s m e) (Zpos m) 1 e.
Proof.
  intros Hc. destruct (canonical_bounds Hc) as (He & Hd & Hm & _).
  destruct Hc as [Hc Hmax].
  assert (H1 : Zpos m / 1 = Zpos m) by apply Z.div_1_r.
  assert (Hn : fexp64 (Zdigits2 (Zpos m) + e) - e = 0)
    by (cbn [Zdigits2]; lia).
  repeat split; try lia.
  exists (Zpos m), loc_Exact. split; [now rewrite H1|].
  split; [unfold location_of; now rewrite Z.mod_1_r|].
  split; [lia|].
  destruct (@binary_round_aux_held s (Zpos m) loc_Exact e (Zpos m) 1)
    as [-> _]; try lia.
  { unfold location_of. now rewrite Z.mod_1_r. }
  rewrite Hn. change (2 ^ 0) with 1. change (1 * 1) with 1.
  unfold nearest_even. rewrite Z.mod_1_r, Z.div_1_r. change (2 * 0) with 0.
  cbn [Z.compare]. cbn [Zdigits2]. rewrite <- Hc. unfold rounded.
  destruct (Z.ltb_spec (Zpos m) (2 ^ 53)); [|lia].
  destruct (Z.leb_spec e 971); [reflexivity|lia].
Qed.

Lemma rounds_zero s : rounds s (S754_zero s) 0 1 (-1074).
Proof.
  repeat split; try lia. exists 0, loc_Exact. repeat split. simpl. lia.
Qed.

(** The order of what two signed magnitudes round to follows the order
    of the magnitudes. *)
Lemma rounds_leb s1 r1 a1 b1 e1 s2 r2 a2 b2 e2 :
  rounds s1 r1 a1 b1 e1 -> rounds s2 r2 a2 b2 e2 ->
  cond_Zopp s1 (scaled (a1 * b2) e1) <= cond_Zopp s2 (scaled (a2 * b1) e2) ->
  SFleb r1 r2 = true.
Proof.
  intros H1 H2 Hle.
  pose proof (rounds_rounded H1) as (m1 & E1 & Hm1 & Hr1 & Hz1).
  pose proof (rounds_rounded H2) as (m2 & E2 & Hm2 & Hr2 & Hz2).
  destruct H1 as (Ha1 & Hb1 & He1 & m1' & l1 & Hq1 & Hl1 & Hn1 & Hd1).
  destruct H2 as (Ha2 & Hb2 & He2 & m2' & l2 & Hq2 & Hl2 & Hn2 & Hd2).
  assert (Hp1 : 0 < 2 ^ (e1 + 2200)) by (apply Z.pow_pos_nonneg; lia).
  assert (Hp2 : 0 < 2 ^ (e2 + 2200)) by (apply Z.pow_pos_nonneg; lia).
  unfold scaled in Hle.
  destruct s1, s2; cbn [cond_Zopp] in Hle.
  - rewrite Hd1, Hd2.
    apply (@binary_round_aux_mono_held (-2200) m2' l2 e2 a2 b2 m1' l1 e1 a1 b1);
      try assumption.
    replace (e2 - -2200) with (e2 + 2200) by lia.
    replace (e1 - -2200) with (e1 + 2200) by lia. lia.
  - rewrite Hr1, Hr2. now apply rounded_negative_leb.
  - assert (Ha : a1 = 0 /\ a2 = 0) by nia. destruct Ha as [Z1 Z2].
    rewrite Hr1, Hr2, (Hz1 Z1), (Hz2 Z2). reflexivity.
  - rewrite Hd1, Hd2.
    apply (@binary_round_aux_mono_held (-2200) m1' l1 e1 a1 b1 m2' l2 e2 a2 b2);
      assumption.
Qed.

(** *** The operations on finite numbers *)

(** The signed value of a finite number, in units [2^-2200]. *)
Definition sval (x : spec_float) : Z :=
  match x with
  | S754_finite s m e => cond_Zopp s (scaled (Zpos m) e)
  | _ => 0
  end.

(** [x] is a zero or a binary64 number. *)
Definition finite_spec (x : spec_float) : Prop :=
  match x with
  | S754_zero _ => True
  | S754_finite _ m e => canonical m e
  | _ => False
  end.

(** [r] is what the exact value [v / d], in units [2^-2200], rounds to. *)
Definition rounding_of (r : spec_float) (v d : Z) : Prop :=
  exists s a e, rounds s r a d e /\ cond_Zopp s (scaled a e) = v.

Lemma rounding_leb r1 v1 d1 r2 v2 d2 :
  rounding_of r1 v1 d1 -> rounding_of r2 v2 d2 ->
  v1 * d2 <= v2 * d1 -> SFleb r1 r2 = true.
Proof.
  intros (s1 & a1 & e1 & H1 & <-) (s2 & a2 & e2 & H2 & <-) Hle.
  apply (rounds_leb H1 H2). unfold scaled in *.
  destruct s1, s2; cbn [cond_Zopp] in *; lia.
Qed.

Lemma rounding_zero s : rounding_of (S754_zero s) 0 1.
Proof. exists s, 0, (-1074). split; [apply rounds_zero|now destruct s]. Qed.

Lemma rounding_finite x : finite_spec x -> rounding_of x (sval x) 1.
Proof.
  destruct x as [s|s| |s m e]; cbn [finite_spec]; try contradiction.
  - intros _. apply rounding_zero.
  - intros Hc. exists s, (Zpos m), e. split; [now apply rounds_finite|].
    reflexivity.
Qed.

Lemma iter_xO_value p d : Zpos (Pos.iter xO p d) = Zpos p * 2 ^ Zpos d.
Proof.
  induction d as [|d IH] using Pos.peano_ind.
  - simpl Pos.iter. change (2 ^ 1) with 2. lia.
  - rewrite Pos.iter_succ, Pos2Z.inj_xO, IH, Pos2Z.inj_succ.
    rewrite Z.pow_succ_r by lia. lia.
Qed.

Lemma iter_xO_digits p d :
  Zpos (digits2_pos (Pos.iter xO p d)) = Zpos (digits2_pos p) + Zpos d.
Proof.
  induction d as [|d IH] using Pos.peano_ind.
  - simpl Pos.iter. cbn [digits2_pos]. lia.
  - rewrite Pos.iter_succ. cbn [digits2_pos]. lia.
Qed.

Lemma shl_align_value m e e' :
  e' <= e -> Zpos (fst (shl_align m e e')) = Zpos m * 2 ^ (e - e').
Proof.
  intros H. unfold shl_align.
  destruct (e' - e) as [|d|d] eqn:Hd; cbn [fst]; try lia.
  - replace (e - e') with 0 by lia. rewrite Z.pow_0_r. lia.
  - rewrite iter_xO_value. f_equal. f_equal. lia.
Qed.

Lemma exact_rounds s p e :
  -2200 <= e -> 0 <= fexp64 (Zpos (digits2_pos p) + e) - e ->
  rounds s (binary_round_aux prec emax s (Zpos p) e loc_Exact) (Zpos p) 1 e.
Proof.
  intros He Hn. repeat split; try lia.
  exists (Zpos p), loc_Exact. rewrite Z.div_1_r. split; [reflexivity|].
  split; [unfold location_of; now rewrite Z.mod_1_r|].
  split; [exact Hn|reflexivity].
Qed.

(** [binary_round] first aligns the mantissa so that nothing has to be
    shifted in to the left; the value does not change. *)
Lemma binary_round_rounds s p e :
  -1074 <= e ->
  exists a e',
    rounds s (binary_round prec emax s p e) a 1 e' /\
    scaled a e' = scaled (Zpos p) e.
Proof.
  intros He. unfold binary_round, shl_align. rewrite fexp_fexp64.
  set (e1 := fexp64 (Zpos (digits2_pos p) + e)).
  assert (He1 : -1074 <= e1) by (subst e1; unfold fexp64; lia).
  destruct (e1 - e) as [|d|d] eqn:Hd.
  - exists (Zpos p), e. split; [|reflexivity].
    apply exact_rounds; [lia|fold e1; lia].
  - exists (Zpos p), e. split; [|reflexivity].
    apply exact_rounds; [lia|fold e1; lia].
  - exists (Zpos (Pos.iter xO p d)), e1.
    assert (Hde : Zpos d = e - e1) by lia. split.
    + apply exact_rounds; [lia|].
      rewrite iter_xO_digits, Hde.
      replace (Zpos (digits2_pos p) + (e - e1) + e1)
        with (Zpos (digits2_pos p) + e) by lia.
      fold e1. lia.
    + unfold scaled. rewrite iter_xO_value, Hde, <- Z.mul_assoc.
      rewrite <- Z.pow_add_r by lia. f_equal. f_equal. lia.
Qed.

Lemma binary_normalize_rounding m e :
  -1074 <= e ->
  rounding_of (binary_normalize prec emax m e false) (scaled m e) 1.
Proof.
  intros He. destruct m as [|p|p]; cbn [binary_normalize].
  - apply rounding_zero.
  - destruct (@binary_round_rounds false p e He) as (a & e' & Hr & Hv).
    exists false, a, e'. split; [exact Hr|exact Hv].
  - destruct (@binary_round_rounds true p e He) as (a & e' & Hr & Hv).
    exists true, a, e'. split; [exact Hr|].
    cbn [cond_Zopp]. rewrite Hv. unfold scaled. lia.
Qed.

Lemma sval_aligned s m e ez :
  -2200 <= ez -> ez <= e ->
  scaled (cond_Zopp s (Zpos (fst (shl_align m e ez)))) ez =
  sval (S754_finite s m e).
Proof.
  intros Hz H. rewrite shl_align_value by exact H. cbn [sval].
  unfold scaled.
  assert (Hp : 2 ^ (e - ez) * 2 ^ (ez + 2200) = 2 ^ (e + 2200)).
  { rewrite <- Z.pow_add_r by lia. f_equal. lia. }
  destruct s; cbn [cond_Zopp]; nia.
Qed.

Lemma scaled_add a b e : scaled (a + b) e = scaled a e + scaled b e.
Proof. unfold scaled. lia. Qed.

Lemma scaled_sub a b e : scaled (a - b) e = scaled a e - scaled b e.
Proof. unfold scaled. lia. Qed.

Lemma finite_spec_exponent s m e :
  finite_spec (S754_finite s m e) -> -1074 <= e <= 971.
Proof.
  cbn [finite_spec]. intros Hc.
  destruct (canonical_bounds Hc) as (He & _). destruct Hc. lia.
Qed.

(** Addition rounds the exact sum. *)
Lemma SFadd_rounding x y :
  finite_spec x -> finite_spec y ->
  rounding_of (SFadd prec emax x y) (sval x + sval y) 1.
Proof.
  intros Hx Hy.
  destruct x as [sx|sx| |sx mx ex]; try contradiction;
    destruct y as [sy|sy| |sy my ey]; try contradiction.
  - destruct sx, sy; apply rounding_zero.
  - cbn [SFadd sval]. apply (rounding_finite _ Hy).
  - cbn [SFadd sval]. rewrite Z.add_0_r. apply (rounding_finite _ Hx).
  - pose proof (finite_spec_exponent Hx). pose proof (finite_spec_exponent Hy).
    unfold SFadd.
    rewrite <- (@sval_aligned sx mx ex (Z.min ex ey)) by lia.
    rewrite <- (@sval_aligned sy my ey (Z.min ex ey)) by lia.
    rewrite <- scaled_add. apply binary_normalize_rounding. lia.
Qed.

(** Subtraction rounds the exact difference. *)
Lemma SFsub_rounding x y :
  finite_spec x -> finite_spec y ->
  rounding_of (SFsub prec emax x y) (sval x - sval y) 1.
Proof.
  intros Hx Hy.
  destruct x as [sx|sx| |sx mx ex]; try contradiction;
    destruct y as [sy|sy| |sy my ey]; try contradiction.
  - destruct sx, sy; apply rounding_zero.
  - cbn [SFsub]. change (sval (S754_zero sx)) with 0.
    replace (0 - sval (S754_finite sy my ey))
      with (sval (S754_finite (negb sy) my ey))
      by (cbn [sval]; destruct sy; cbn [negb cond_Zopp]; lia).
    apply rounding_finite. exact Hy.
  - cbn [SFsub sval]. rewrite Z.sub_0_r. apply (rounding_finite _ Hx).
  - pose proof (finite_spec_exponent Hx). pose proof (finite_spec_exponent Hy).
    unfold SFsub.
    rewrite <- (@sval_aligned sx mx ex (Z.min ex ey)) by lia.
    rewrite <- (@sval_aligned sy my ey (Z.min ex ey)) by lia.
    rewrite <- scaled_sub. apply binary_normalize_rounding. lia.
Qed.

Lemma mul_aligned mx ex my ey :
  canonical mx ex -> canonical my ey ->
  0 <= fexp64 (Zpos (digits2_pos (mx * my)) + (ex + ey)) - (ex + ey).
Proof.
  intros Hx Hy.
  destruct (canonical_bounds Hx) as (Hex & Hdx & _ & Hnx).
  destruct (canonical_bounds Hy) as (Hey & Hdy & _ & Hny).
  destruct (digits2_bounds mx) as [Hlx _].
  destruct (digits2_bounds my) as [Hly _].
  assert (Hd : Zpos (digits2_pos mx) + Zpos (digits2_pos my) - 2 <
               Zpos (digits2_pos (mx * my))).
  { apply digits2_gt; [lia|]. rewrite Pos2Z.inj_mul.
    replace (Zpos (digits2_pos mx) + Zpos (digits2_pos my) - 2)
      with ((Zpos (digits2_pos mx) - 1) + (Zpos (digits2_pos my) - 1))
      by lia.
    rewrite Z.pow_add_r by lia.
    apply Z.mul_le_mono_nonneg; try lia; apply Z.pow_nonneg; lia. }
  unfold fexp64.
  destruct (Z.eq_dec ex (-1074)); destruct (Z.eq_dec ey (-1074)); lia.
Qed.

(** Multiplication rounds the exact product. *)
Lemma SFmul_rounding x y :
  finite_spec x -> finite_spec y ->
  exists v,
    rounding_of (SFmul prec emax x y) v 1 /\
    v * 2 ^ 2200 = sval x * sval y.
Proof.
  intros Hx Hy.
  destruct x as [sx|sx| |sx mx ex]; try contradiction;
    destruct y as [sy|sy| |sy my ey]; try contradiction;
    try (exists 0; split; [apply rounding_zero|cbn [sval]; lia]).
  pose proof (finite_spec_exponent Hx). pose proof (finite_spec_exponent Hy).
  cbn [finite_spec] in Hx, Hy.
  exists (cond_Zopp (xorb sx sy) (scaled (Zpos (mx * my)) (ex + ey))).
  split.
  - exists (xorb sx sy), (Zpos (mx * my)), (ex + ey). split; [|reflexivity].
    apply exact_rounds; [lia|now apply mul_aligned].
  - cbn [sval]. unfold scaled. rewrite Pos2Z.inj_mul.
    assert (Hp : 2 ^ (ex + ey + 2200) * 2 ^ 2200 =
                 2 ^ (ex + 2200) * 2 ^ (ey + 2200)).
    { rewrite <- !Z.pow_add_r by lia. f_equal. lia. }
    destruct sx, sy; cbn [xorb cond_Zopp]; nia.
Qed.

Lemma new_location_eq nb k :
  0 < nb -> new_location nb k = location_of k nb \/ ~ 0 <= k < nb.
Proof.
  intros Hnb. destruct (Z_le_dec 0 k); [|right; lia].
  destruct (Z_lt_dec k nb); [left|right; lia].
  unfold location_of. rewrite Z.mod_small by lia.
  unfold new_location, new_location_even, new_location_odd.
  destruct (Z.even nb) eqn:Hev; [reflexivity|].
  destruct (Z.eqb_spec k 0); [reflexivity|]. f_equal.
  assert (Hodd : Z.odd nb = true) by (rewrite <- Z.negb_even, Hev; reflexivity).
  apply Z.odd_spec in Hodd. destruct Hodd as [j Hj].
  destruct (Z.compare_spec (2 * k + 1) nb);
    destruct (Z.compare_spec (2 * k) nb); try reflexivity; lia.
Qed.

(** Division by a positive number rounds the exact quotient. *)
Lemma SFdiv_rounding x my ey :
  finite_spec x -> canonical my ey ->
  exists v d,
    0 < d /\
    rounding_of (SFdiv prec emax x (S754_finite false my ey)) v d /\
    v * scaled (Zpos my) ey = sval x * d * 2 ^ 2200.
Proof.
  intros Hx Hy.
  destruct x as [sx|sx| |sx mx ex]; try contradiction.
  { exists 0, 1. split; [lia|]. split; [apply rounding_zero|].
    cbn [sval]. lia. }
  pose proof (finite_spec_exponent Hx) as Hex. cbn [finite_spec] in Hx.
  destruct (canonical_bounds Hy) as (Hey & _).
  assert (Hey' : ey <= 971) by (destruct Hy; lia).
  destruct (digits2_bounds mx) as [Hlx Hhx].
  destruct (digits2_bounds my) as [Hly Hhy].
  unfold SFdiv, SFdiv_core_binary. cbn [Zdigits2]. rewrite fexp_fexp64.
  set (d1 := Zpos (digits2_pos mx)) in *.
  set (d2 := Zpos (digits2_pos my)) in *.
  set (e' := Z.min (fexp64 (d1 + ex - (d2 + ey))) (ex - ey)).
  set (sh := ex - ey - e').
  assert (Hsh : 0 <= sh) by (subst sh e'; lia).
  set (m' := match sh with
             | 0 => Zpos mx
             | Zpos _ => Z.shiftl (Zpos mx) sh
             | Zneg _ => 0
             end).
  assert (Hm' : m' = Zpos mx * 2 ^ sh).
  { subst m'. destruct sh as [|p|p] eqn:E; [| |lia].
    - rewrite Z.pow_0_r. lia.
    - now rewrite Z.shiftl_mul_pow2 by lia. }
  assert (Hpsh : 0 < 2 ^ sh) by (apply Z.pow_pos_nonneg; lia).
  assert (Heucl : Z.div_eucl m' (Zpos my) =
                  (m' / Zpos my, m' mod Zpos my)).
  { unfold Z.div, Z.modulo. now destruct (Z.div_eucl m' (Zpos my)). }
  rewrite Heucl.
  pose proof (Z.mod_pos_bound m' (Zpos my) ltac:(lia)) as Hr.
  assert (Hloc : new_location (Zpos my) (m' mod Zpos my) =
                 location_of m' (Zpos my)).
  { destruct (@new_location_eq (Zpos my) (m' mod Zpos my)) as [H|H];
      [lia| |lia].
    rewrite H. unfold location_of. now rewrite Z.mod_mod by lia. }
  rewrite Hloc.
  assert (He' : -2200 <= e') by (subst e'; unfold fexp64; lia).
  assert (Halign : 0 <= fexp64 (Zdigits2 (m' / Zpos my) + e') - e').
  { assert (Hq0 : 0 <= m' / Zpos my) by (apply Z.div_pos; lia).
    destruct (@Zdigits2_bounds (m' / Zpos my) Hq0) as (Hdq & Hqhi & Hqlo).
    destruct (Z_le_gt_dec e' (-1074)) as [Hlow|Hhigh];
      [unfold fexp64; lia|].
    assert (He'' : e' <= d1 + ex - (d2 + ey) - 53)
      by (subst e'; unfold fexp64 in *; lia).
    assert (Hk : 0 <= d1 + sh - d2 - 1) by (subst sh; lia).
    assert (Hquo : 2 ^ (d1 + sh - d2 - 1) <= m' / Zpos my).
    { apply Z.div_le_lower_bound; [lia|].
      apply Z.le_trans with (2 ^ d2 * 2 ^ (d1 + sh - d2 - 1)).
      - apply Z.mul_le_mono_nonneg_r; [apply Z.pow_nonneg|]; lia.
      - rewrite <- Z.pow_add_r by lia.
        replace (d2 + (d1 + sh - d2 - 1)) with (d1 - 1 + sh) by lia.
        rewrite Z.pow_add_r, Hm' by lia.
        apply Z.mul_le_mono_nonneg_r; lia. }
    assert (Hdig : d1 + sh - d2 - 1 < Zdigits2 (m' / Zpos my)).
    { assert (H : 2 ^ (d1 + sh - d2 - 1) < 2 ^ Zdigits2 (m' / Zpos my))
        by lia.
      apply Z.pow_lt_mono_r_iff in H; lia. }
    unfold fexp64. subst sh. lia. }
  exists (cond_Zopp sx (scaled m' e')), (Zpos my). split; [lia|]. split.
  - exists (xorb sx false), m', e'. rewrite xorb_false_r.
    split; [|reflexivity].
    repeat split; try lia.
    exists (m' / Zpos my), (location_of m' (Zpos my)).
    repeat split; assumption.
  - cbn [sval]. unfold scaled. rewrite Hm'.
    assert (Hp : 2 ^ sh * 2 ^ (e' + 2200) * 2 ^ (ey + 2200) =
                 2 ^ (ex + 2200) * 2 ^ 2200).
    { rewrite <- !Z.pow_add_r by lia. f_equal. subst sh. lia. }
    destruct sx; cbn [cond_Zopp]; nia.
Qed.

(** *** The order of the finite numbers *)

Lemma SFleb_antisym x y :
  finite_spec x -> finite_spec y ->
  SFleb x y = true -> SFleb y x = true -> sval x = sval y.
Proof.
  destruct x as [sx|sx| |sx mx ex], y as [sy|sy| |sy my ey];
    cbn [finite_spec]; try contradiction; intros _ _;
    unfold SFleb, SFcompare; try reflexivity;
    try (destruct sx; discriminate); try (destruct sy; discriminate).
  rewrite !Pos.compare_cont_spec. cbn [Pos.switch_Eq].
  destruct sx, sy; try discriminate;
    destruct (Z.compare_spec ex ey); destruct (Z.compare_spec ey ex);
    try lia; try discriminate;
    destruct (Pos.compare_spec mx my); destruct (Pos.compare_spec my mx);
    try lia; try discriminate; intros _ _; subst; reflexivity.
Qed.

(** Finite numbers are ordered as their values are. *)
Lemma SFleb_sval x y :
  finite_spec x -> finite_spec y ->
  SFleb x y = true <-> sval x <= sval y.
Proof.
  intros Hx Hy. split.
  - intros Hle. destruct (Z_le_gt_dec (sval x) (sval y)) as [H|H]; [exact H|].
    assert (Hyx : SFleb y x = true).
    { apply (rounding_leb (rounding_finite _ Hy) (rounding_finite _ Hx)).
      lia. }
    rewrite (SFleb_antisym _ _ Hx Hy Hle Hyx). lia.
  - intros Hle.
    apply (rounding_leb (rounding_finite _ Hx) (rounding_finite _ Hy)). lia.
Qed.

Lemma SFltb_SFleb x y :
  finite_spec x -> finite_spec y -> SFltb x y = negb (SFleb y x).
Proof.
  destruct x as [sx|sx| |sx mx ex], y as [sy|sy| |sy my ey];
    cbn [finite_spec]; try contradiction; intros _ _;
    unfold SFltb, SFleb, SFcompare; try reflexivity;
    try (destruct sx; reflexivity); try (destruct sy; reflexivity).
  rewrite !Pos.compare_cont_spec. cbn [Pos.switch_Eq].
  destruct sx, sy; try reflexivity;
    destruct (Z.compare_spec ex ey); destruct (Z.compare_spec ey ex);
    try lia; try reflexivity;
    destruct (Pos.compare_spec mx my); destruct (Pos.compare_spec my mx);
    try lia; reflexivity.
Qed.

(** What lies between two finite numbers is finite. *)
Lemma finite_spec_between lo hi x :
  finite_spec lo -> finite_spec hi -> valid_binary x = true ->
  SFleb lo x = true -> SFleb x hi = true -> finite_spec x.
Proof.
  intros Hlo Hhi Hv H1 H2.
  destruct x as [s|s| |s m e]; cbn [finite_spec].
  - exact I.
  - destruct lo as [sl|sl| |sl ml el], hi as [sh|sh| |sh mh eh];
      try contradiction; destruct s; discriminate.
  - destruct lo; discriminate.
  - now apply (@valid_canonical s).
Qed.

(** *** Primitive floats *)

(** [x] is a zero or a binary64 number: not an infinity, not a NaN. *)
Definition finite (x : float) : Prop := finite_spec (Prim2SF x).

(** The value of a finite [x], in units [2^-2200]. *)
Definition value (x : float) : Z := sval (Prim2SF x).

(** [x] is a positive binary64 number. *)
Definition positive_finite (x : float) : Prop :=
  exists m e, Prim2SF x = S754_finite false m e.

(** [x] is a negative binary64 number. *)
Definition negative_finite (x : float) : Prop :=
  exists m e, Prim2SF x = S754_finite true m e.

Lemma finite_shape x :
  match Prim2SF x with
  | S754_zero _ | S754_finite _ _ _ => True
  | _ => False
  end -> finite x.
Proof.
  unfold finite. pose proof (Prim2SF_valid x) as Hv.
  destruct (Prim2SF x) as [s|s| |s m e]; try contradiction; intros _.
  - exact I.
  - now apply (@valid_canonical s).
Qed.

Lemma scaled_positive m e : -2200 <= e -> 0 < scaled (Zpos m) e.
Proof.
  intros H. unfold scaled. apply Z.mul_pos_pos; [lia|].
  apply Z.pow_pos_nonneg; lia.
Qed.

Lemma positive_finite_value x :
  positive_finite x -> finite x /\ 0 < value x.
Proof.
  intros (m & e & H). unfold finite, value.
  pose proof (Prim2SF_valid x) as Hv. rewrite H in Hv |- *.
  apply valid_canonical in Hv. split; [exact Hv|].
  destruct (canonical_bounds Hv) as (He & _).
  cbn [sval cond_Zopp]. apply scaled_positive. lia.
Qed.

Lemma negative_finite_value x :
  negative_finite x -> finite x /\ value x < 0.
Proof.
  intros (m & e & H). unfold finite, value.
  pose proof (Prim2SF_valid x) as Hv. rewrite H in Hv |- *.
  apply valid_canonical in Hv. split; [exact Hv|].
  destruct (canonical_bounds Hv) as (He & _).
  cbn [sval cond_Zopp].
  pose proof (@scaled_positive m e ltac:(lia)). lia.
Qed.

Lemma finite_zero : finite 0.
Proof. exact I. Qed.

Lemma value_zero : value 0 = 0.
Proof. reflexivity. Qed.

Lemma leb_value x y :
  finite x -> finite y -> (x <=? y)%float = true <-> value x <= value y.
Proof. intros Hx Hy. rewrite leb_spec. now apply SFleb_sval. Qed.

Lemma ltb_value x y :
  finite x -> finite y -> (x <? y)%float = true <-> value x < value y.
Proof.
  intros Hx Hy. rewrite ltb_spec, SFltb_SFleb by assumption.
  rewrite Bool.negb_true_iff.
  pose proof (SFleb_sval _ _ Hy Hx) as H. fold (value x) (value y) in H.
  destruct (SFleb (Prim2SF y) (Prim2SF x)).
  - split; [discriminate|]. intros Hlt. apply proj1 in H.
    specialize (H eq_refl). lia.
  - split; [|reflexivity]. intros _.
    destruct (Z_lt_le_dec (value x) (value y)) as [Hlt|Hge]; [exact Hlt|].
    apply H in Hge. discriminate.
Qed.

(** What lies between two finite numbers is finite. *)
Lemma finite_between lo hi x :
  finite lo -> finite hi ->
  (lo <=? x)%float = true -> (x <=? hi)%float = true -> finite x.
Proof.
  intros Hlo Hhi. rewrite !leb_spec. intros H1 H2.
  apply (finite_spec_between _ _ _ Hlo Hhi (Prim2SF_valid x) H1 H2).
Qed.

(** A positive number is what is finite and above zero. *)
Lemma positive_above_zero x :
  finite x -> (0 <? x)%float = true -> positive_finite x.
Proof.
  unfold finite. rewrite ltb_spec. change (Prim2SF 0) with (S754_zero false).
  destruct (Prim2SF x) as [s|s| |s m e] eqn:E; try contradiction; intros _;
    try discriminate.
  destruct s; [discriminate|]. intros _. now exists m, e.
Qed.

(** The four operations round the exact result. *)
Lemma add_rounding x y :
  finite x -> finite y ->
  rounding_of (Prim2SF (x + y)) (value x + value y) 1.
Proof. intros Hx Hy. rewrite add_spec. now apply SFadd_rounding. Qed.

Lemma sub_rounding x y :
  finite x -> finite y ->
  rounding_of (Prim2SF (x - y)) (value x - value y) 1.
Proof. intros Hx Hy. rewrite sub_spec. now apply SFsub_rounding. Qed.

Lemma mul_rounding x y :
  finite x -> finite y ->
  exists v, rounding_of (Prim2SF (x * y)) v 1 /\
            v * 2 ^ 2200 = value x * value y.
Proof. intros Hx Hy. rewrite mul_spec. now apply SFmul_rounding. Qed.

Lemma div_rounding x y :
  finite x -> positive_finite y ->
  exists v d, 0 < d /\ rounding_of (Prim2SF (x / y)) v d /\
              v * value y = value x * d * 2 ^ 2200.
Proof.
  intros Hx (m & e & Hy). rewrite div_spec. unfold value. rewrite Hy.
  apply SFdiv_rounding; [exact Hx|].
  apply (@valid_canonical false). rewrite <- Hy. apply Prim2SF_valid.
Qed.

(** The operations are monotone: the order of the exact results is the
    order of the rounded ones. *)
Lemma add_leb a b c d :
  finite a -> finite b -> finite c -> finite d ->
  value a + value b <= value c + value d ->
  (a + b <=? c + d)%float = true.
Proof.
  intros Ha Hb Hc Hd Hle. rewrite leb_spec.
  apply (rounding_leb (add_rounding _ _ Ha Hb) (add_rounding _ _ Hc Hd)). lia.
Qed.

Lemma sub_leb a b c d :
  finite a -> finite b -> finite c -> finite d ->
  value a - value b <= value c - value d ->
  (a - b <=? c - d)%float = true.
Proof.
  intros Ha Hb Hc Hd Hle. rewrite leb_spec.
  apply (rounding_leb (sub_rounding _ _ Ha Hb) (sub_rounding _ _ Hc Hd)). lia.
Qed.

Lemma mul_leb a b c d :
  finite a -> finite b -> finite c -> finite d ->
  value a * value b <= value c * value d ->
  (a * b <=? c * d)%float = true.
Proof.
  intros Ha Hb Hc Hd Hle. rewrite leb_spec.
  destruct (mul_rounding _ _ Ha Hb) as (v1 & H1 & E1).
  destruct (mul_rounding _ _ Hc Hd) as (v2 & H2 & E2).
  apply (rounding_leb H1 H2).
  assert (Hp : 0 < 2 ^ 2200) by (apply Z.pow_pos_nonneg; lia).
  apply Z.mul_le_mono_pos_r with (p := 2 ^ 2200); [exact Hp|].
  rewrite !Z.mul_1_r, E1, E2. exact Hle.
Qed.

Lemma div_leb a b c :
  finite a -> finite b -> positive_finite c ->
  value a <= value b -> (a / c <=? b / c)%float = true.
Proof.
  intros Ha Hb Hc Hle. rewrite leb_spec.
  destruct (@div_rounding a c Ha Hc) as (v1 & d1 & Hd1 & H1 & E1).
  destruct (@div_rounding b c Hb Hc) as (v2 & d2 & Hd2 & H2 & E2).
  destruct (positive_finite_value Hc) as [_ Hpos].
  apply (rounding_leb H1 H2).
  assert (Hp : 0 < 2 ^ 2200) by (apply Z.pow_pos_nonneg; lia).
  apply Z.mul_le_mono_pos_r with (p := value c); [exact Hpos|].
  replace (v1 * d2 * value c) with (v1 * value c * d2) by ring.
  replace (v2 * d1 * value c) with (v2 * value c * d1) by ring.
  rewrite E1, E2.
  replace (value a * d1 * 2 ^ 2200 * d2)
    with (value a * (d1 * d2 * 2 ^ 2200)) by ring.
  replace (value b * d2 * 2 ^ 2200 * d1)
    with (value b * (d1 * d2 * 2 ^ 2200)) by ring.
  apply Z.mul_le_mono_nonneg_r; [|exact Hle].
  apply Z.lt_le_incl.
  apply Z.mul_pos_pos; [apply Z.mul_pos_pos; [exact Hd1|exact Hd2]|exact Hp].
Qed.

(** A rounded result is as its exact value is, against a finite number. *)
Lemma sub_leb_right a b c :
  finite a -> finite b -> finite c ->
  value a - value b <= value c -> (a - b <=? c)%float = true.
Proof.
  intros Ha Hb Hc Hle. rewrite leb_spec.
  apply (rounding_leb (sub_rounding _ _ Ha Hb) (rounding_finite _ Hc)).
  unfold value in *. lia.
Qed.

Lemma sub_leb_left a b c :
  finite a -> finite b -> finite c ->
  value c <= value a - value b -> (c <=? a - b)%float = true.
Proof.
  intros Ha Hb Hc Hle. rewrite leb_spec.
  apply (rounding_leb (rounding_finite _ Hc) (sub_rounding _ _ Ha Hb)).
  unfold value in *. lia.
Qed.

(** Whatever is above zero and below a finite number is a positive
    number. *)
Lemma positive_between x y :
  (0 <? x)%float = true -> (x <=? y)%float = true ->
  finite y -> positive_finite x.
Proof.
  rewrite ltb_spec, leb_spec. unfold finite. intros H0 Hle Hy.
  change (Prim2SF 0) with (S754_zero false) in H0.
  destruct (Prim2SF x) as [s|s| |s m e] eqn:Hx; try discriminate.
  - destruct s; [discriminate|].
    destruct (Prim2SF y); try contradiction; discriminate.
  - destruct s; [discriminate|]. now exists m, e.
Qed.

Lemma zero_sub_not_positive y :
  positive_finite y -> (0 <? 0 - y)%float = false.
Proof.
  intros (my & ey & Hy). rewrite ltb_spec, sub_spec, Hy. reflexivity.
Qed.

(** Whatever lies between two positive numbers is a positive number. *)
Lemma positive_bounded lo hi x :
  positive_finite lo -> positive_finite hi ->
  (lo <=? x)%float = true -> (x <=? hi)%float = true ->
  positive_finite x.
Proof.
  intros (ml & el & Hl) (mh & eh & Hh). rewrite !leb_spec, Hl, Hh.
  intros H1 H2.
  destruct (Prim2SF x) as [s|s| |s m e] eqn:Hx;
    try discriminate; destruct s; try discriminate.
  now exists m, e.
Qed.

(** *** Strict growth *)

(** Below a finite number that is below [x], whatever [x] is. *)
Lemma ltb_leb_trans a c x :
  finite a -> finite c ->
  (a <? c)%float = true -> (c <=? x)%float = true -> (a <? x)%float = true.
Proof.
  intros Ha Hc Hac Hcx.
  destruct (Prim2SF x) as [s|s| |s m e] eqn:Hx.
  - assert (Hfx : finite x) by (apply finite_shape; now rewrite Hx).
    apply (ltb_value a c Ha Hc) in Hac. apply (leb_value c x Hc Hfx) in Hcx.
    apply (ltb_value a x Ha Hfx). lia.
  - rewrite leb_spec, Hx in Hcx. rewrite ltb_spec, Hx.
    unfold finite in Ha, Hc.
    destruct s; [destruct (Prim2SF c); try contradiction; discriminate|].
    destruct (Prim2SF a); try contradiction; reflexivity.
  - rewrite leb_spec, Hx in Hcx. destruct (Prim2SF c); discriminate.
  - assert (Hfx : finite x) by (apply finite_shape; now rewrite Hx).
    apply (ltb_value a c Ha Hc) in Hac. apply (leb_value c x Hc Hfx) in Hcx.
    apply (ltb_value a x Ha Hfx). lia.
Qed.

Lemma leb_ltb_trans x c a :
  finite c -> finite a ->
  (x <=? c)%float = true -> (c <? a)%float = true -> (x <? a)%float = true.
Proof.
  intros Hc Ha Hxc Hca.
  destruct (Prim2SF x) as [s|s| |s m e] eqn:Hx.
  - assert (Hfx : finite x) by (apply finite_shape; now rewrite Hx).
    apply (ltb_value c a Hc Ha) in Hca. apply (leb_value x c Hfx Hc) in Hxc.
    apply (ltb_value x a Hfx Ha). lia.
  - rewrite leb_spec, Hx in Hxc. rewrite ltb_spec, Hx.
    unfold finite in Ha, Hc.
    destruct s; [|destruct (Prim2SF c); try contradiction; discriminate].
    destruct (Prim2SF a); try contradiction; reflexivity.
  - rewrite leb_spec, Hx in Hxc. discriminate.
  - assert (Hfx : finite x) by (apply finite_shape; now rewrite Hx).
    apply (ltb_value c a Hc Ha) in Hca. apply (leb_value x c Hfx Hc) in Hxc.
    apply (ltb_value x a Hfx Ha). lia.
Qed.

(** An integer below [2^53] in absolute value, as a float. *)
Definition float_of_Z (z : Z) : float :=
  match z with
  | Z0 => 0%float
  | Zpos _ => of_uint63 (Uint63.of_Z z)
  | Zneg p => (- of_uint63 (Uint63.of_Z (Zpos p)))%float
  end.

(** The quarters: the numbers [k / 4]. *)
Definition quarter (k : Z) : float := (float_of_Z k * 0.25)%float.

(** [quarter k] is a finite number whose value is [k / 4]. *)
Definition quarter_exact (k : Z) : bool :=
  match Prim2SF (quarter k) with
  | S754_zero _ => k =? 0
  | S754_finite s m e =>
      (-2200 <=? e) && (e <=? -2) &&
      (cond_Zopp s (Zpos m) =? k * 2 ^ (- e - 2))
  | _ => false
  end.

Definition quarters : list Z :=
  map (fun i => Z.of_nat i - 4001) (seq 0 (Z.to_nat 8003)).

Lemma quarters_exact : forallb quarter_exact quarters = true.
Proof. vm_compute. reflexivity. Qed.

Lemma quarter_value k :
  -4001 <= k <= 4001 ->
  finite (quarter k) /\ value (quarter k) = k * 2 ^ 2198.
Proof.
  intros Hk.
  assert (Hin : In k quarters).
  { unfold quarters. apply in_map_iff. exists (Z.to_nat (k + 4001)).
    split; [cbv beta; lia|]. apply in_seq. lia. }
  pose proof (proj1 (forallb_forall _ _) quarters_exact k Hin) as Hq.
  unfold quarter_exact in Hq. unfold value.
  split; [apply finite_shape; destruct (Prim2SF (quarter k)); auto;
          discriminate|].
  destruct (Prim2SF (quarter k)) as [s|s| |s m e]; try discriminate.
  - apply Z.eqb_eq in Hq. subst k. reflexivity.
  - apply andb_prop in Hq. destruct Hq as [Hq Hm].
    apply andb_prop in Hq. destruct Hq as [Hlo Hhi].
    apply Z.leb_le in Hlo, Hhi. apply Z.eqb_eq in Hm.
    cbn [sval]. unfold scaled.
    replace (cond_Zopp s (Zpos m * 2 ^ (e + 2200)))
      with (cond_Zopp s (Zpos m) * 2 ^ (e + 2200))
      by (destruct s; cbn [cond_Zopp]; lia).
    rewrite Hm, <- Z.mul_assoc, <- Z.pow_add_r by lia.
    do 2 f_equal. lia.
Qed.

(** Between a number from -1000 to 1000 and what lies a half above it,
    there is a quarter. *)
Lemma quarter_above a :
  finite a -> (-1000 <=? a)%float = true -> (a <=? 1000)%float = true ->
  exists c, finite c /\ value a < value c <= value a + 2 ^ 2198.
Proof.
  intros Ha Hlo Hhi.
  destruct (@quarter_value (-4000) ltac:(lia)) as [Hfl Hvl].
  destruct (@quarter_value 4000 ltac:(lia)) as [Hfh Hvh].
  change (quarter (-4000)) with (-1000)%float in Hfl, Hvl.
  change (quarter 4000) with 1000%float in Hfh, Hvh.
  apply (leb_value _ _ Hfl Ha) in Hlo. apply (leb_value _ _ Ha Hfh) in Hhi.
  rewrite Hvl in Hlo. rewrite Hvh in Hhi.
  set (P := 2 ^ 2198) in *.
  assert (HP : 0 < P) by (apply Z.pow_pos_nonneg; lia).
  pose proof (Z.div_mod (value a) P ltac:(lia)) as Hdm.
  pose proof (Z.mod_pos_bound (value a) P HP) as Hmod.
  set (k := value a / P) in *.
  assert (Hk : -4000 <= k <= 4000) by nia.
  destruct (@quarter_value (k + 1) ltac:(lia)) as [Hfc Hvc].
  exists (quarter (k + 1)). split; [exact Hfc|]. fold P in Hvc.
  rewrite Hvc. nia.
Qed.

Lemma quarter_below a :
  finite a -> (-1000 <=? a)%float = true -> (a <=? 1000)%float = true ->
  exists c, finite c /\ value a - 2 ^ 2198 <= value c < value a.
Proof.
  intros Ha Hlo Hhi.
  destruct (@quarter_value (-4000) ltac:(lia)) as [Hfl Hvl].
  destruct (@quarter_value 4000 ltac:(lia)) as [Hfh Hvh].
  change (quarter (-4000)) with (-1000)%float in Hfl, Hvl.
  change (quarter 4000) with 1000%float in Hfh, Hvh.
  apply (leb_value _ _ Hfl Ha) in Hlo. apply (leb_value _ _ Ha Hfh) in Hhi.
  rewrite Hvl in Hlo. rewrite Hvh in Hhi.
  set (P := 2 ^ 2198) in *.
  assert (HP : 0 < P) by (apply Z.pow_pos_nonneg; lia).
  pose proof (Z.div_mod (value a - 1) P ltac:(lia)) as Hdm.
  pose proof (Z.mod_pos_bound (value a - 1) P HP) as Hmod.
  set (k := (value a - 1) / P) in *.
  assert (Hk : -4001 <= k <= 4000) by nia.
  destruct (@quarter_value k ltac:(lia)) as [Hfc Hvc].
  exists (quarter k). split; [exact Hfc|]. fold P in Hvc.
  rewrite Hvc. nia.
Qed.

(** Adding at least a half to a number from -1000 to 1000 gives more;
    subtracting it gives less. *)
Lemma add_increases a b :
  (-1000 <=? a)%float = true -> (a <=? 1000)%float = true ->
  finite b -> (0.5 <=? b)%float = true ->
  (a <? a + b)%float = true.
Proof.
  intros Hlo Hhi Hb Hhalf.
  assert (Ha : finite a)
    by (apply (@finite_between (-1000) 1000 a);
        try (apply finite_shape; exact I); assumption).
  destruct (quarter_above Ha Hlo Hhi) as (c & Hc & Hac & Hca).
  destruct (@quarter_value 2 ltac:(lia)) as [Hf2 Hv2].
  change (quarter 2) with 0.5%float in Hf2, Hv2.
  apply (leb_value _ _ Hf2 Hb) in Hhalf. rewrite Hv2 in Hhalf.
  assert (HP : 0 < 2 ^ 2198) by (apply Z.pow_pos_nonneg; lia).
  apply (@ltb_leb_trans a c (a + b)%float Ha Hc).
  - apply (ltb_value a c Ha Hc). lia.
  - rewrite leb_spec.
    apply (rounding_leb (rounding_finite _ Hc) (add_rounding _ _ Ha Hb)).
    unfold value in *. lia.
Qed.

Lemma sub_decreases a b :
  (-1000 <=? a)%float = true -> (a <=? 1000)%float = true ->
  finite b -> (0.5 <=? b)%float = true ->
  (a - b <? a)%float = true.
Proof.
  intros Hlo Hhi Hb Hhalf.
  assert (Ha : finite a)
    by (apply (@finite_between (-1000) 1000 a);
        try (apply finite_shape; exact I); assumption).
  destruct (quarter_below Ha Hlo Hhi) as (c & Hc & Hac & Hca).
  destruct (@quarter_value 2 ltac:(lia)) as [Hf2 Hv2].
  change (quarter 2) with 0.5%float in Hf2, Hv2.
  apply (leb_value _ _ Hf2 Hb) in Hhalf. rewrite Hv2 in Hhalf.
  assert (HP : 0 < 2 ^ 2198) by (apply Z.pow_pos_nonneg; lia).
  apply (@leb_ltb_trans (a - b)%float c a Hc Ha).
  - rewrite leb_spec.
    apply (rounding_leb (sub_rounding _ _ Ha Hb) (rounding_finite _ Hc)).
    unfold value in *. lia.
  - apply (ltb_value c a Hc Ha). lia.
Qed.

End Binary64.

(** ** The simulator *)

Module Simulator.

Import Binary64.

Local Open Scope float_scope.

(** *** The outside of a simulator *)

(** A value of [datetime.now()]: its ISO-8601 text, which leaves the
    microseconds out when they are zero, its hour and its weekday
    (Monday is 0). *)
Record instant : Type := Instant {
  isoformat : string;
  hour : nat;
  weekday : nat
}.

(** What the surroundings will answer: the successive values of
    [datetime.now()], of [random.random()] (in [0, 1)) and of the index
    drawn by [random.choice]. *)
Record world : Type := World {
  clock : nat -> instant;
  draws : nat -> float;
  picks : nat -> nat
}.

(** Computations that consult the clock and the random source. *)
Definition M (A : Type) : Type := world -> A * world.

Definition ret {A : Type} (a : A) : M A := fun w => (a, w).

Definition bind {A B : Type} (c : M A) (f : A -> M B) : M B :=
  fun w => let (a, w1) := c w in f a w1.

Notation "x <- c ;; k" := (bind c (fun x => k))
  (at level 61, c at next level, right associativity).

(** The world once [k] readings of the clock and [j] random numbers were
    consumed. *)
Definition later (k j : nat) (w : world) : world :=
  {| clock := fun n => clock w (k + n)%nat;
     draws := fun n => draws w (j + n)%nat;
     picks := picks w |}.

(** [datetime.now()]. *)
Definition now : M instant :=
  fun w => (clock w 0%nat,
            {| clock := fun n => clock w (S n); draws := draws w;
               picks := picks w |}).

(** [random.random()]. *)
Definition random : M float :=
  fun w => (draws w 0%nat,
            {| clock := clock w; draws := fun n => draws w (S n);
               picks := picks w |}).

(** [random._randbelow(n)]: an index below [n]. *)
Definition randbelow (n : nat) : M nat :=
  fun w => (Nat.modulo (picks w 0%nat) n,
            {| clock := clock w; draws := draws w;
               picks := fun i => picks w (S i) |}).

(** The value of [random.uniform(a, b)] when [random()] answers [u]. *)
Definition uniform_value (a b u : float) : float := a + (b - a) * u.

(** [random.uniform(a, b)], which is [a + (b - a) * random()]. *)
Definition uniform (a b : float) : M float :=
  u <- random ;; ret (uniform_value a b u).

(** [random.choice(seq)], which is [seq[_randbelow(len(seq))]]. *)
Definition choice (seq : list string) : M string :=
  i <- randbelow (length seq) ;; ret (nth i seq EmptyString).

(** *** The simulator object *)

Record simulator : Type := mkSimulator {
  equipment_id : string;
  normal_temp_range : float * float;
  normal_vibration_range : float * float;
  normal_pressure_range : float * float;
  normal_noise_range : float * float;
  health_score : float;
  degradation_rate : float
}.

(** [__init__]: the degradation rate is drawn once. *)
Definition __init__ (equipment_id : string) : M simulator :=
  degradation_rate <- uniform 0.01 0.05 ;;
  ret {| equipment_id := equipment_id;
         normal_temp_range := (60, 80);
         normal_vibration_range := (0.1, 0.5);
         normal_pressure_range := (95, 105);
         normal_noise_range := (60, 75);
         health_score := 100.0;
         degradation_rate := degradation_rate |}.

(** The dict [generate_sensor_reading] returns. *)
Record reading : Type := mkReading {
  reading_equipment_id : string;
  timestamp : string;
  temperature : float;
  vibration : float;
  pressure : float;
  noise_level : float;
  reading_health_score : float
}.

(** Python's [max(0, x)]: [x] when [x > 0], else [0]. *)
Definition max0 (x : float) : float := if 0 <? x then x else 0.

(** The health score after the two assignments that open a tick. *)
Definition degraded (s : simulator) : float :=
  max0 (health_score s - degradation_rate s).

Definition set_health (s : simulator) (h : float) : simulator :=
  {| equipment_id := equipment_id s;
     normal_temp_range := normal_temp_range s;
     normal_vibration_range := normal_vibration_range s;
     normal_pressure_range := normal_pressure_range s;
     normal_noise_range := normal_noise_range s;
     health_score := h;
     degradation_rate := degradation_rate s |}.

Definition np_pi : float := 0x1.921fb54442d18p+1.

Definition float_of_nat (n : nat) : float :=
  of_uint63 (Uint63.of_Z (Z.of_nat n)).

(** [_generate_value]. *)
Definition _generate_value (normal_range : float * float)
    (base_multiplier health_effect noise_level : float) : M float :=
  base_value <- uniform (fst normal_range) (snd normal_range) ;;
  noise <- uniform (- noise_level) noise_level ;;
  ret (base_value * base_multiplier + health_effect + noise).

(** *** Library functions and surroundings for the examples *)

(** [a / b] rounded to the nearest integer, ties to the even one. *)
Definition div_half_even (a b : Z) : Z :=
  let q := (a / b)%Z in
  match (2 * (a mod b) ?= b)%Z with
  | Lt => q
  | Gt => (q + 1)%Z
  | Eq => if Z.even q then q else (q + 1)%Z
  end.

(** Python's [round(x, ndigits)] on a float: the float nearest to the
    decimal of [ndigits] digits that is nearest to [x], ties to even. *)
Definition python_round (x : float) (ndigits : nat) : float :=
  match Prim2SF x with
  | S754_finite s m e =>
      if (0 <=? e)%Z then x
      else
        let q := div_half_even (Zpos m * 10 ^ Z.of_nat ndigits) (2 ^ (- e)) in
        let r := float_of_Z q / float_of_Z (10 ^ Z.of_nat ndigits) in
        if s then - r else r
  | _ => x
  end.

(** C's [rint]: the nearest integer, ties to even. *)
Definition rint (x : float) : float :=
  match Prim2SF x with
  | S754_finite s m e =>
      if (0 <=? e)%Z then x
      else
        let r := float_of_Z (div_half_even (Zpos m) (2 ^ (- e))) in
        if s then - r else r
  | _ => x
  end.

(** NumPy's [round(x, decimals)] on a [float64]: scale, [rint], unscale. *)
Definition numpy_round (x : float) (decimals : nat) : float :=
  rint (x * float_of_Z (10 ^ Z.of_nat decimals))
  / float_of_Z (10 ^ Z.of_nat decimals).

(** The sine of [pi * h / 12] for the hours [h] of a day. *)
Definition sine_by_hour : list float :=
  [ 0; 0x1.0907dc1930690p-2; 0x1.fffffffffffffp-2; 0x1.6a09e667f3bccp-1;
    0x1.bb67ae8584caap-1; 0x1.ee8dd4748bf15p-1; 1; 0x1.ee8dd4748bf15p-1;
    0x1.bb67ae8584cabp-1; 0x1.6a09e667f3bcdp-1; 0x1.fffffffffffffp-2;
    0x1.0907dc1930695p-2; 0x1.1a62633145c07p-53; -0x1.0907dc1930691p-2;
    -0x1.ffffffffffffbp-2; -0x1.6a09e667f3bc9p-1; -0x1.bb67ae8584ca8p-1;
    -0x1.ee8dd4748bf15p-1; -1; -0x1.ee8dd4748bf16p-1;
    -0x1.bb67ae8584caap-1; -0x1.6a09e667f3bcep-1; -0x1.0000000000004p-1;
    -0x1.0907dc193069fp-2 ].

(** The sine, tabulated on the arguments [generate_sensor_reading]
    passes. *)
Definition tabulated_sin (x : float) : float :=
  match find (fun h => np_pi * float_of_nat h / 12 =? x) (seq 0 24) with
  | Some h => nth h sine_by_hour 0
  | None => 0
  end.

(** A clock that reads Friday just before midnight, then Saturday just
    after, and Saturday noon from then on. *)
Definition midnight_clock (n : nat) : instant :=
  match n with
  | O => Instant "2024-03-01T23:59:59.999998" 23 4
  | S O => Instant "2024-03-02T00:00:00.000003" 0 5
  | _ => Instant "2024-03-02T12:00:00" 12 5
  end.

(** A clock that stands still on a Friday afternoon. *)
Definition still_clock (n : nat) : instant :=
  Instant "2024-03-01T15:00:00" 15 4.

(** A clock that stands still just before Friday's midnight. *)
Definition frozen_clock (n : nat) : instant := midnight_clock 0.

(** A clock that reads as [midnight_clock] does for one tick, and then
    differently. *)
Definition drifting_clock (n : nat) : instant :=
  match n with
  | O | S O => midnight_clock n
  | _ => still_clock n
  end.

(** A random source that always answers [u], and the first item. *)
Definition drawing (u : float) : world :=
  {| clock := still_clock; draws := fun _ => u; picks := fun _ => O |}.

(** A random source that always answers one half, and the first item. *)
Definition steady_world (clock : nat -> instant) : world :=
  {| clock := clock; draws := fun _ => 0.5; picks := fun _ => O |}.

(** A simulator in its initial state, with degradation rate [rate]. *)
Definition started (equipment_id : string) (rate : float) : simulator :=
  {| equipment_id := equipment_id;
     normal_temp_range := (60, 80);
     normal_vibration_range := (0.1, 0.5);
     normal_pressure_range := (95, 105);
     normal_noise_range := (60, 75);
     health_score := 100.0;
     degradation_rate := rate |}.

(** *** Ranges *)

(** [x] is between [lo] and [hi]. *)
Definition within (lo hi x : float) : Prop :=
  (lo <=? x) = true /\ (x <=? hi) = true.

(** A health score: a number from 0 to 100. *)
Definition percentage (h : float) : Prop := within 0 100 h.

(** A number from 0 to 1, as [random()] answers and as the health factor
    is. *)
Definition fraction (f : float) : Prop := within 0 1 f.

(** A channel value of at most 1000 in magnitude. *)
Definition moderate (x : float) : Prop := within (-1000) 1000 x.

(** The health score [n] ticks after it was [h], at rate [r]. *)
Fixpoint decay (n : nat) (h r : float) : float :=
  match n with
  | O => h
  | S k => decay k (max0 (h - r)) r
  end.

Section WithLibraries.

(** Library functions, taken as they are: NumPy's sine, and [round] to a
    number of decimals, of NumPy for the temperature (a [float64], as the
    daily factor is) and of Python for the other fields. *)
Variable np_sin : float -> float.
Variable np_round : float -> nat -> float.
Variable py_round : float -> nat -> float.

(** The daily and weekly multipliers at an instant. *)
Definition time_factor (current_time : instant) : float :=
  1.0 + 0.2 * np_sin (np_pi * float_of_nat (hour current_time) / 12).

Definition day_factor (current_time : instant) : float :=
  1.0 + 0.1 * (if (weekday current_time <? 5)%nat then 1 else -1).

Definition health_factor (health_score : float) : float :=
  (100 - health_score) / 100.

(** The probability bound of the anomaly test. *)
Definition anomaly_threshold (health_factor : float) : float :=
  0.01 + health_factor * 0.1.

(** The [if random.random() < ...] block: the four channels after the
    occasional anomaly. *)
Definition anomalies (health_factor : float)
    (channels : float * float * float * float)
  : M (float * float * float * float) :=
  let '(temperature, vibration, pressure, noise_level) := channels in
  u <- random ;;
  if u <? anomaly_threshold health_factor then
    anomaly_sensor <-
      choice ["temperature"; "vibration"; "pressure"; "noise_level"]%string ;;
    if String.eqb anomaly_sensor "temperature" then
      e <- uniform 10 30 ;;
      ret (temperature + e, vibration, pressure, noise_level)
    else if String.eqb anomaly_sensor "vibration" then
      e <- uniform 0.5 2.0 ;;
      ret (temperature, vibration + e, pressure, noise_level)
    else if String.eqb anomaly_sensor "pressure" then
      e <- uniform 10 30 ;;
      ret (temperature, vibration, pressure - e, noise_level)
    else if String.eqb anomaly_sensor "noise_level" then
      e <- uniform 10 20 ;;
      ret (temperature, vibration, pressure, noise_level + e)
    else ret channels
  else ret channels.

(** The four calls of [_generate_value]: the channels before the
    occasional anomaly. *)
Definition sensor_values (s : simulator)
    (time_factor day_factor health_factor : float)
  : M (float * float * float * float) :=
  temperature <-
    _generate_value (normal_temp_range s) time_factor
      (health_factor * 30) 2.0 ;;
  vibration <-
    _generate_value (normal_vibration_range s) day_factor
      (health_factor * 1.5) 0.05 ;;
  pressure <-
    _generate_value (normal_pressure_range s) 1.0
      (health_factor * -15) 3.0 ;;
  noise_level <-
    _generate_value (normal_noise_range s) day_factor
      (health_factor * 25) 2.0 ;;
  ret (temperature, vibration, pressure, noise_level).

(** [generate_sensor_reading]: the reading, and the simulator with its
    new health score. *)
Definition generate_sensor_reading (s : simulator)
  : M (reading * simulator) :=
  timestamp <- now ;;
  let s := set_health s (degraded s) in
  current_time <- now ;;
  let time_factor := time_factor current_time in
  let day_factor := day_factor current_time in
  let health_factor := health_factor (health_score s) in
  channels <- sensor_values s time_factor day_factor health_factor ;;
  channels <- anomalies health_factor channels ;;
  let '(temperature, vibration, pressure, noise_level) := channels in
  ret ({| reading_equipment_id := equipment_id s;
          timestamp := isoformat timestamp;
          temperature := np_round temperature 2;
          vibration := py_round vibration 3;
          pressure := py_round pressure 2;
          noise_level := py_round noise_level 2;
          reading_health_score := py_round (health_score s) 2 |},
       s).

(** [n] calls of [generate_sensor_reading], one after the other, as the
    loop of [start_simulation] makes them. *)
Fixpoint ticks (n : nat) (s : simulator) : M (list reading * simulator) :=
  match n with
  | O => ret ([], s)
  | S k =>
      rs <- generate_sensor_reading s ;;
      rest <- ticks k (snd rs) ;;
      ret (fst rs :: fst rest, snd rest)
  end.

(** *** The health score *)

Lemma generate_sensor_reading_state s w :
  snd (fst (generate_sensor_reading s w)) = set_health s (degraded s).
Proof.
  unfold generate_sensor_reading, bind, ret, now.
  repeat match goal with
         | |- context [let (_, _) := ?c in _] => destruct c
         end.
  reflexivity.
Qed.

Lemma ticks_state n : forall s w,
  snd (fst (ticks n s w)) =
  set_health s (decay n (health_score s) (degradation_rate s)).
Proof.
  induction n as [|n IH]; intros s w.
  - now destruct s.
  - cbn [ticks decay]. unfold bind at 1.
    pose proof (generate_sensor_reading_state s w) as Hs.
    destruct (generate_sensor_reading s w) as [[r s1] w1].
    cbn [fst snd] in Hs |- *. unfold bind, ret.
    specialize (IH s1 w1).
    destruct (ticks n s1 w1) as [[rs s2] w2].
    cbn [fst snd] in IH |- *. rewrite IH, Hs. reflexivity.
Qed.

Lemma ticks_health n s w :
  health_score (snd (fst (ticks n s w))) =
  decay n (health_score s) (degradation_rate s).
Proof. now rewrite ticks_state. Qed.

End WithLibraries.

Lemma decay_add n k h r : decay (n + k) h r = decay k (decay n h r) r.
Proof. revert h. induction n as [|n IH]; intros h; simpl; auto. Qed.

Lemma decay_succ n h r : decay (S n) h r = max0 (decay n h r - r).
Proof.
  replace (S n) with (n + 1)%nat by lia. now rewrite decay_add.
Qed.

(** *** Bounds *)

Ltac constant := apply finite_shape; exact I.

Lemma percentage_value h :
  percentage h -> finite h /\ (0 <= value h <= value 100)%Z.
Proof.
  intros [H0 H1].
  assert (Hf : finite h)
    by (apply (@finite_between 0 100 h); try constant; assumption).
  split; [exact Hf|]. split.
  - apply (leb_value 0 h); [constant|exact Hf|exact H0].
  - apply (leb_value h 100); [exact Hf|constant|exact H1].
Qed.

Lemma fraction_value f :
  fraction f -> finite f /\ (0 <= value f <= value 1)%Z.
Proof.
  intros [H0 H1].
  assert (Hf : finite f)
    by (apply (@finite_between 0 1 f); try constant; assumption).
  split; [exact Hf|]. split.
  - apply (leb_value 0 f); [constant|exact Hf|exact H0].
  - apply (leb_value f 1); [exact Hf|constant|exact H1].
Qed.

Lemma leb_trans x y z :
  finite x -> finite y -> finite z ->
  (x <=? y) = true -> (y <=? z) = true -> (x <=? z) = true.
Proof.
  intros Hx Hy Hz Hxy Hyz.
  apply (leb_value x y Hx Hy) in Hxy. apply (leb_value y z Hy Hz) in Hyz.
  apply (leb_value x z Hx Hz). lia.
Qed.

(** *** The health score *)

Lemma max0_step h r :
  percentage h -> positive_finite r ->
  percentage (max0 (h - r)) /\ (max0 (h - r) <=? h) = true.
Proof.
  intros Hh Hr.
  destruct (percentage_value Hh) as (Hfh & Hh0 & Hh1).
  destruct (positive_finite_value Hr) as (Hfr & Hr0).
  assert (Hle : (h - r <=? h) = true)
    by (apply sub_leb_right; try assumption; lia).
  unfold max0. destruct (0 <? h - r) eqn:Hpos.
  - pose proof (positive_between Hpos Hle Hfh) as Hx.
    destruct (positive_finite_value Hx) as (Hfx & Hx0).
    split; [|exact Hle]. split.
    + apply (leb_value 0 (h - r)); [constant|exact Hfx|].
      change (value 0) with 0%Z. lia.
    + apply (@leb_trans (h - r) h 100); try assumption; try constant.
      apply Hh.
  - split; [split; reflexivity|apply Hh].
Qed.

Lemma decay_percentage n h r :
  percentage h -> positive_finite r -> percentage (decay n h r).
Proof.
  intros Hh Hr. induction n as [|n IH]; [exact Hh|].
  rewrite decay_succ. now apply max0_step.
Qed.

Lemma decay_zero k r : positive_finite r -> decay k 0 r = 0.
Proof.
  intros Hr. induction k as [|k IH]; [reflexivity|].
  simpl. unfold max0 at 1. now rewrite zero_sub_not_positive.
Qed.

(** What [random.uniform(a, b)] gives lies between what it gives for the
    draws 0 and 1. *)
Lemma uniform_value_between a b u :
  finite a -> finite (b - a) -> finite ((b - a) * 0) ->
  finite ((b - a) * 1) -> (0 <=? b - a) = true -> fraction u ->
  (uniform_value a b 0 <=? uniform_value a b u) = true /\
  (uniform_value a b u <=? uniform_value a b 1) = true.
Proof.
  intros Ha Hc Hc0 Hc1 Hpos Hu.
  destruct (fraction_value Hu) as (Hfu & Hu0 & Hu1).
  apply (leb_value 0 (b - a)) in Hpos; [|constant|exact Hc].
  change (value 0) with 0%Z in *.
  assert (Hlo : ((b - a) * 0 <=? (b - a) * u) = true).
  { apply mul_leb; try assumption; try constant.
    change (value 0) with 0%Z. nia. }
  assert (Hhi : ((b - a) * u <=? (b - a) * 1) = true).
  { apply mul_leb; try assumption; try constant. nia. }
  assert (Hfm : finite ((b - a) * u))
    by (apply (@finite_between ((b - a) * 0) ((b - a) * 1)); assumption).
  unfold uniform_value. split.
  - apply add_leb; try assumption.
    apply (leb_value _ _ Hc0 Hfm) in Hlo. lia.
  - apply add_leb; try assumption.
    apply (leb_value _ _ Hfm Hc1) in Hhi. lia.
Qed.

(** The degradation rate [__init__] draws is between 0.01 and 0.05. *)
Lemma degradation_rate_bounds equipment_id w :
  fraction (draws w 0%nat) ->
  let s := fst (__init__ equipment_id w) in
  health_score s = 100 /\
  (0.01 <=? degradation_rate s) = true /\
  (degradation_rate s <=? 0.05) = true.
Proof.
  intros Hu s. split; [reflexivity|].
  apply (@uniform_value_between 0.01 0.05 (draws w 0%nat));
    try constant; [reflexivity|exact Hu].
Qed.

Lemma degradation_rate_positive r :
  (0.01 <=? r) = true -> (r <=? 0.05) = true -> positive_finite r.
Proof.
  intros Hlo Hhi. apply (@positive_bounded 0.01 0.05); try assumption.
  - now exists 5764607523034235%positive, (-59)%Z.
  - now exists 7205759403792794%positive, (-57)%Z.
Qed.

Lemma percentage_100 : percentage 100.
Proof. split; reflexivity. Qed.

(** C2: a simulator as [__init__] builds it, whatever number of [0, 1]
    the random source answers for its degradation rate, has a rate between
    0.01 and 0.05 and, after every number of ticks, a health score between
    0 and 100 that the next tick does not raise; once the score is 0 it is
    0 after every further tick. *)
Theorem health_score_invariants
    (np_sin : float -> float) (np_round py_round : float -> nat -> float)
    (equipment_id : string) (w0 w : world) (n : nat) :
  fraction (draws w0 0%nat) ->
  let s := fst (__init__ equipment_id w0) in
  let h := fun k =>
    health_score (snd (fst (ticks np_sin np_round py_round k s w))) in
  ((0.01 <=? degradation_rate s) = true /\
   (degradation_rate s <=? 0.05) = true) /\
  (0 <=? h n) = true /\
  (h n <=? 100) = true /\
  (h (S n) <=? h n) = true /\
  (h n = 0 -> forall k, h (n + k)%nat = 0).
Proof.
  intros Hu s h.
  destruct (@degradation_rate_bounds equipment_id w0 Hu)
    as (Hstart & Hlo & Hhi).
  fold s in Hstart, Hlo, Hhi.
  pose proof (degradation_rate_positive Hlo Hhi) as Hr.
  assert (Hh : forall k, h k = decay k 100 (degradation_rate s)).
  { intros k. unfold h. now rewrite ticks_health, Hstart. }
  pose proof (decay_percentage n percentage_100 Hr) as [Hn0 Hn1].
  rewrite !Hh. split; [now split|]. split; [exact Hn0|].
  split; [exact Hn1|]. split.
  - rewrite decay_succ. apply max0_step; [now split|exact Hr].
  - intros H0 k. rewrite Hh, decay_add, H0. now apply decay_zero.
Qed.

(** A simulator whose rate was drawn with the random number one half, ten
    ticks in. *)
Lemma health_score_invariants_witness :
  let s := fst (__init__ "EQUIP-001" (steady_world still_clock)) in
  let h := fun k =>
    health_score
      (snd (fst (ticks tabulated_sin numpy_round python_round k s
                   (steady_world still_clock)))) in
  fraction 0.5 /\
  ((0.01 <=? degradation_rate s) = true /\
   (degradation_rate s <=? 0.05) = true) /\
  (0 <=? h 10%nat) = true /\
  (h 10%nat <=? 100) = true /\
  (h 11%nat <=? h 10%nat) = true /\
  (h 10%nat = 0 -> forall k, h (10 + k)%nat = 0).
Proof.
  cbv zeta. split; [split; reflexivity|].
  apply (@health_score_invariants tabulated_sin numpy_round python_round
           "EQUIP-001" (steady_world still_clock) (steady_world still_clock)
           10).
  split; reflexivity.
Defined.

(** C9, as the floats have it: started at health 100 with degradation
    rate 0.05, the simulator still has a positive health score after 2000
    ticks, about 3.5e-12, because the rate is not exactly one twentieth
    and the two thousand subtractions each round; the score is 0 after
    2001 ticks and after every later tick. *)
Theorem health_exhausted_after_2001_ticks
    (np_sin : float -> float) (np_round py_round : float -> nat -> float)
    (s : simulator) (w : world) (n : nat) :
  health_score s = 100 ->
  degradation_rate s = 0.05 ->
  (2001 <= n)%nat ->
  let h := fun k =>
    health_score (snd (fst (ticks np_sin np_round py_round k s w))) in
  h 2000%nat = 0x1.f2d28p-39 /\ h n = 0.
Proof.
  intros Hstart Hrate Hn h.
  assert (Hh : forall k, h k = decay k 100 0.05).
  { intros k. unfold h. now rewrite ticks_health, Hstart, Hrate. }
  rewrite !Hh. split; [vm_compute; reflexivity|].
  replace n with (2001 + (n - 2001))%nat by lia.
  rewrite decay_add.
  replace (decay 2001 100 0.05) with 0%float by (vm_compute; reflexivity).
  apply decay_zero. now exists 7205759403792794%positive, (-57)%Z.
Qed.

Lemma health_exhausted_after_2001_ticks_witness :
  let s := started "EQUIP-001" 0.05 in
  let h := fun k =>
    health_score
      (snd (fst (ticks tabulated_sin numpy_round python_round k s
                   (steady_world still_clock)))) in
  (health_score s = 100 /\ degradation_rate s = 0.05 /\
   (2001 <= 2500)%nat) /\
  h 2000%nat = 0x1.f2d28p-39 /\ h 2500%nat = 0.
Proof.
  cbv zeta. split; [repeat split; lia|].
  apply (@health_exhausted_after_2001_ticks tabulated_sin numpy_round
           python_round (started "EQUIP-001" 0.05)
           (steady_world still_clock) 2500);
    [reflexivity|reflexivity|lia].
Defined.

(** C9 as stated fails: after exactly 2000 ticks at rate 0.05 the health
    score is not 0 but still above it, so the value before the clamp was
    positive too; only the two-decimal figure in the reading is 0. *)
Lemma positive_after_2000_ticks_counterexample :
  let s :=
    snd (fst (ticks tabulated_sin numpy_round python_round 2000
                (started "EQUIP-001" 0.05) (steady_world still_clock))) in
  (0 <? health_score s) = true /\
  health_score s = 0x1.f2d28p-39 /\
  python_round (health_score s) 2 = 0.
Proof.
  cbv zeta. rewrite ticks_health. vm_compute. repeat split.
Qed.

(** *** One tick *)

Lemma sensor_values_eq s tf df f w :
  sensor_values s tf df f w =
  ((uniform_value (fst (normal_temp_range s)) (snd (normal_temp_range s))
      (draws w 0%nat) * tf + f * 30
    + uniform_value (-2) 2 (draws w 1%nat),
    uniform_value (fst (normal_vibration_range s))
      (snd (normal_vibration_range s)) (draws w 2%nat) * df + f * 1.5
    + uniform_value (-0.05) 0.05 (draws w 3%nat),
    uniform_value (fst (normal_pressure_range s))
      (snd (normal_pressure_range s)) (draws w 4%nat) * 1 + f * -15
    + uniform_value (-3) 3 (draws w 5%nat),
    uniform_value (fst (normal_noise_range s)) (snd (normal_noise_range s))
      (draws w 6%nat) * df + f * 25
    + uniform_value (-2) 2 (draws w 7%nat)),
   later 0 8 w).
Proof. reflexivity. Qed.

Lemma generate_sensor_reading_eq
    (np_sin : float -> float) (np_round py_round : float -> nat -> float)
    (s : simulator) (w : world) :
  generate_sensor_reading np_sin np_round py_round s w =
  let h := degraded s in
  let current_time := clock w 1%nat in
  let f := health_factor h in
  let (raw, w1) :=
    sensor_values (set_health s h) (time_factor np_sin current_time)
      (day_factor current_time) f (later 2 0 w) in
  let (channels, w2) := anomalies f raw w1 in
  let '(t, v, p, n) := channels in
  ({| reading_equipment_id := equipment_id s;
      timestamp := isoformat (clock w 0%nat);
      temperature := np_round t 2%nat;
      vibration := py_round v 3%nat;
      pressure := py_round p 2%nat;
      noise_level := py_round n 2%nat;
      reading_health_score := py_round h 2%nat |},
   set_health s h, w2).
Proof.
  unfold generate_sensor_reading, bind, now, ret. cbv zeta.
  rewrite !sensor_values_eq.
  match goal with
  | |- context [anomalies ?f ?r ?w] => set (A := anomalies f r w)
  end.
  change (anomalies ?f ?r ?w) with A.
  destruct A as [[[[t v] p] n] w2]. reflexivity.
Qed.

(** *** Health and the channels *)

Ltac positive_constant := eexists; eexists; vm_compute; reflexivity.

Lemma health_factor_fraction h :
  percentage h -> fraction (health_factor h).
Proof.
  intros Hh. destruct (percentage_value Hh) as (Hf & H0 & H1).
  unfold health_factor.
  assert (Hd0 : (0 <=? 100 - h) = true).
  { apply sub_leb_left; try constant; try assumption.
    change (value 0) with 0%Z. lia. }
  assert (Hd1 : (100 - h <=? 100) = true).
  { apply sub_leb_right; try constant; try assumption. lia. }
  assert (Hfd : finite (100 - h))
    by (apply (@finite_between 0 100); try constant; assumption).
  assert (H100 : positive_finite 100) by positive_constant.
  split.
  - change (0 <=? (100 - h) / 100) with (0 / 100 <=? (100 - h) / 100).
    apply div_leb; try constant; try assumption.
    apply (leb_value 0 (100 - h)); try constant; assumption.
  - change ((100 - h) / 100 <=? 1) with ((100 - h) / 100 <=? 100 / 100).
    apply div_leb; try constant; try assumption.
    apply (leb_value (100 - h) 100); try constant; assumption.
Qed.

(** The lower the health score, the higher the health factor. *)
Lemma health_factor_antitone h1 h2 :
  percentage h1 -> percentage h2 -> (h1 <=? h2) = true ->
  (health_factor h2 <=? health_factor h1) = true.
Proof.
  intros Hh1 Hh2 Hle.
  destruct (percentage_value Hh1) as (Hf1 & H10 & H11).
  destruct (percentage_value Hh2) as (Hf2 & H20 & H21).
  apply (leb_value h1 h2 Hf1 Hf2) in Hle.
  assert (Hfd : forall h, percentage h -> finite (100 - h)).
  { intros h Hh. destruct (percentage_value Hh) as (Hf & H0 & H1).
    apply (@finite_between 0 100); try constant.
    - apply sub_leb_left; try constant; try assumption.
      change (value 0) with 0%Z. lia.
    - apply sub_leb_right; try constant; try assumption. lia. }
  unfold health_factor. apply div_leb; auto; [positive_constant|].
  apply (leb_value (100 - h2) (100 - h1)); auto.
  apply sub_leb; try constant; try assumption. lia.
Qed.

(** Scaling by a positive number keeps the order, by a negative number
    reverses it. *)
Lemma scale_monotone k f1 f2 :
  positive_finite k -> finite f1 -> finite f2 ->
  (f1 <=? f2) = true -> (f1 * k <=? f2 * k) = true.
Proof.
  intros Hk H1 H2 Hle. destruct (positive_finite_value Hk) as [Hfk Hpos].
  apply (leb_value f1 f2 H1 H2) in Hle.
  apply mul_leb; try assumption.
  apply Z.mul_le_mono_nonneg_r; lia.
Qed.

Lemma scale_antitone k f1 f2 :
  negative_finite k -> finite f1 -> finite f2 ->
  (f1 <=? f2) = true -> (f2 * k <=? f1 * k) = true.
Proof.
  intros Hk H1 H2 Hle. destruct (negative_finite_value Hk) as [Hfk Hneg].
  apply (leb_value f1 f2 H1 H2) in Hle.
  apply mul_leb; try assumption.
  apply Z.mul_le_mono_nonpos_r; lia.
Qed.

(** The higher the health factor, the higher the bound of the anomaly
    test. *)
Lemma anomaly_threshold_monotone f1 f2 :
  fraction f1 -> fraction f2 -> (f1 <=? f2) = true ->
  (anomaly_threshold f1 <=? anomaly_threshold f2) = true.
Proof.
  intros Hf1 Hf2 Hle.
  assert (Htenth : positive_finite 0.1) by positive_constant.
  assert (Hfin : forall f, fraction f -> finite (f * 0.1)).
  { intros f Hf. destruct (fraction_value Hf) as (Hff & _).
    destruct Hf as [H0 H1].
    apply (@finite_between (0 * 0.1) (1 * 0.1)); try constant;
      apply scale_monotone; try constant; assumption. }
  destruct (fraction_value Hf1) as (Hff1 & _).
  destruct (fraction_value Hf2) as (Hff2 & _).
  pose proof (scale_monotone Htenth Hff1 Hff2 Hle) as Hm.
  apply (leb_value _ _ (Hfin f1 Hf1) (Hfin f2 Hf2)) in Hm.
  unfold anomaly_threshold. apply add_leb; auto; try constant. lia.
Qed.

(** *** Scores that are 0.01 apart

    Rounding is monotone, no more; that the health factor, the effects
    and the bound of the anomaly test differ for two health scores at
    least 0.01 apart is read off a grid of scores, 256 to the unit: two
    neighbours of the grid lie between such scores, and at neighbours of
    the grid the values differ. *)

Definition grid (k : Z) : float := float_of_Z k / 256.

Definition grid_size : Z := 25600.

Fixpoint upto (n : nat) (k : Z) : list Z :=
  match n with
  | O => []
  | S n' => k :: upto n' (k + 1)
  end.

(** [P] holds at every index of the grid. *)
Definition on_grid (P : Z -> bool) : bool :=
  forallb P (upto (Z.to_nat grid_size) 0).

Lemma in_upto n k j : (k <= j < k + Z.of_nat n)%Z -> In j (upto n k).
Proof.
  revert k. induction n as [|n IH]; intros k Hj; [lia|].
  simpl. destruct (Z.eq_dec k j) as [->|Hne]; [now left|].
  right. apply IH. lia.
Qed.

Lemma on_grid_at P k :
  on_grid P = true -> (0 <= k < grid_size)%Z -> P k = true.
Proof.
  intros H Hk. unfold on_grid in H.
  apply (proj1 (forallb_forall _ _) H). apply in_upto.
  rewrite Z2Nat.id; unfold grid_size in *; lia.
Qed.

Lemma leb_total x y :
  finite x -> finite y -> (x <=? y) = false -> (y <=? x) = true.
Proof.
  intros Hx Hy H. apply (leb_value y x Hy Hx).
  destruct (Z_le_gt_dec (value x) (value y)) as [Hle|Hgt]; [|lia].
  apply (leb_value x y Hx Hy) in Hle. congruence.
Qed.

Lemma grid_percentage k :
  (0 <= k <= grid_size)%Z -> percentage (grid k).
Proof.
  intros Hk.
  assert (H : on_grid (fun k => (0 <=? grid k) && (grid k <=? 100)
                                && (grid (k + 1) <=? 100)) = true)
    by (vm_compute; reflexivity).
  destruct (Z.eq_dec k grid_size) as [->|Hne].
  - split; reflexivity.
  - pose proof (on_grid_at _ H (k := k) ltac:(lia)) as Hl. cbv beta in Hl.
    apply andb_prop in Hl as [Hl _]. apply andb_prop in Hl as [H0 H1].
    now split.
Qed.

(** A health score lies between two neighbours of the grid. *)
Lemma grid_around h :
  percentage h ->
  exists k, (0 <= k < grid_size)%Z /\
            (grid k <=? h) = true /\ (h <=? grid (k + 1)) = true.
Proof.
  intros Hh. destruct (percentage_value Hh) as (Hf & _). destruct Hh as [H0 H1].
  pose proof (eq_refl : grid_size = 25600%Z) as Hgs.
  assert (Hn : forall n : nat,
             (Z.of_nat n < grid_size)%Z ->
             (h <=? grid (Z.of_nat n + 1)) = true ->
             exists k, (0 <= k <= Z.of_nat n)%Z /\
                       (grid k <=? h) = true /\
                       (h <=? grid (k + 1)) = true).
  { induction n as [|n IH]; intros Hlt Hle.
    - exists 0%Z. split; [lia|]. split; [exact H0|exact Hle].
    - destruct (grid (Z.of_nat (S n)) <=? h) eqn:E.
      + exists (Z.of_nat (S n)). split; [lia|]. now split.
      + assert (Hg : percentage (grid (Z.of_nat (S n))))
          by (apply grid_percentage; lia).
        apply leb_total in E; [|apply (percentage_value Hg)|exact Hf].
        rewrite Nat2Z.inj_succ in E. unfold Z.succ in E.
        destruct (IH ltac:(lia) E) as (k & Hk & Hk0 & Hk1).
        exists k. split; [lia|]. now split. }
  destruct (Hn (Z.to_nat (grid_size - 1))) as (k & Hk & Hk0 & Hk1).
  - rewrite Z2Nat.id; lia.
  - rewrite Z2Nat.id by lia. rewrite Hgs. exact H1.
  - exists k. split; [|now split].
    rewrite Z2Nat.id in Hk; lia.
Qed.

(** Two neighbours of the grid lie between two health scores that are
    0.01 apart. *)
Lemma grid_between h h' :
  percentage h -> percentage h' -> (h' <=? h - 0.01) = true ->
  exists k, (0 <= k)%Z /\ (k + 1 < grid_size)%Z /\
            (h' <=? grid k) = true /\ (grid (k + 1) <=? h) = true.
Proof.
  intros Hh Hh' Hle.
  pose proof (eq_refl : grid_size = 25600%Z) as Hgs.
  destruct (percentage_value Hh) as (Hf & Hv0 & Hv1).
  destruct (percentage_value Hh') as (Hf' & Hv0' & _).
  destruct (grid_around Hh) as (j & Hj & Hj0 & Hj1).
  assert (Hg : percentage (grid (j + 1))) by (apply grid_percentage; lia).
  destruct (percentage_value Hg) as (Hfg & Hg0 & Hg1).
  assert (Hfs : finite (h - 0.01)).
  { apply (@finite_between (0 - 0.01) (100 - 0.01)); try constant;
      apply sub_leb; try constant; try assumption;
      change (value 0) with 0%Z; lia. }
  assert (Hfgs : finite (grid (j + 1) - 0.01)).
  { apply (@finite_between (0 - 0.01) (100 - 0.01)); try constant;
      apply sub_leb; try constant; try assumption;
      change (value 0) with 0%Z; lia. }
  assert (Hs : (h - 0.01 <=? grid (j + 1) - 0.01) = true).
  { apply sub_leb; try constant; try assumption.
    apply (leb_value h (grid (j + 1)) Hf Hfg) in Hj1. lia. }
  assert (Hstep : on_grid (fun k =>
                    if (k =? 0)%Z then grid (k + 1) - 0.01 <? 0
                    else grid (k + 1) - 0.01 <=? grid (k - 1)) = true)
    by (vm_compute; reflexivity).
  pose proof (on_grid_at _ Hstep Hj) as Hat. cbv beta in Hat.
  destruct (Z.eqb_spec j 0) as [->|Hne].
  - exfalso.
    apply (leb_value h' (h - 0.01) Hf' Hfs) in Hle.
    apply (leb_value _ _ Hfs Hfgs) in Hs.
    apply (ltb_value _ 0 Hfgs ltac:(constant)) in Hat.
    change (value 0) with 0%Z in *. lia.
  - exists (j - 1)%Z. split; [lia|]. split; [lia|].
    replace (j - 1 + 1)%Z with j by lia. split; [|exact Hj0].
    assert (Hgp : percentage (grid (j - 1))) by (apply grid_percentage; lia).
    destruct (percentage_value Hgp) as (Hfgp & _).
    apply (@leb_trans h' (h - 0.01)); try assumption.
    apply (@leb_trans (h - 0.01) (grid (j + 1) - 0.01)); assumption.
Qed.

(** A function of the health score that never rises where the score
    does, and falls from each point of the grid to the next, is
    strictly higher at a score that is lower by 0.01 or more; and the
    other way round. *)
Lemma falls_between (F : float -> float) h h' :
  (forall a b, percentage a -> percentage b -> (a <=? b) = true ->
     (F b <=? F a) = true) ->
  (forall a, percentage a -> finite (F a)) ->
  on_grid (fun k => F (grid (k + 1)) <? F (grid k)) = true ->
  percentage h -> percentage h' -> (h' <=? h - 0.01) = true ->
  (F h <? F h') = true.
Proof.
  intros Hmono Hfin Hgrid Hh Hh' Hle.
  pose proof (eq_refl : grid_size = 25600%Z) as Hgs.
  destruct (grid_between Hh Hh' Hle) as (k & Hk0 & Hk1 & Hlo & Hhi).
  pose proof (on_grid_at _ Hgrid (k := k) ltac:(lia)) as Hat. cbv beta in Hat.
  assert (Hg0 : percentage (grid k)) by (apply grid_percentage; lia).
  assert (Hg1 : percentage (grid (k + 1))) by (apply grid_percentage; lia).
  apply (@leb_ltb_trans (F h) (F (grid (k + 1))) (F h')); auto.
  apply (@ltb_leb_trans (F (grid (k + 1))) (F (grid k)) (F h')); auto.
Qed.

Lemma rises_between (F : float -> float) h h' :
  (forall a b, percentage a -> percentage b -> (a <=? b) = true ->
     (F a <=? F b) = true) ->
  (forall a, percentage a -> finite (F a)) ->
  on_grid (fun k => F (grid k) <? F (grid (k + 1))) = true ->
  percentage h -> percentage h' -> (h' <=? h - 0.01) = true ->
  (F h' <? F h) = true.
Proof.
  intros Hmono Hfin Hgrid Hh Hh' Hle.
  pose proof (eq_refl : grid_size = 25600%Z) as Hgs.
  destruct (grid_between Hh Hh' Hle) as (k & Hk0 & Hk1 & Hlo & Hhi).
  pose proof (on_grid_at _ Hgrid (k := k) ltac:(lia)) as Hat. cbv beta in Hat.
  assert (Hg0 : percentage (grid k)) by (apply grid_percentage; lia).
  assert (Hg1 : percentage (grid (k + 1))) by (apply grid_percentage; lia).
  apply (@leb_ltb_trans (F h') (F (grid k)) (F h)); auto.
  apply (@ltb_leb_trans (F (grid k)) (F (grid (k + 1))) (F h)); auto.
Qed.

Lemma effect_finite k h :
  finite (0 * k) -> finite (1 * k) ->
  positive_finite k \/ negative_finite k ->
  percentage h -> finite (health_factor h * k).
Proof.
  intros H0 H1 Hk Hh.
  pose proof (health_factor_fraction Hh) as Hf.
  destruct (fraction_value Hf) as (Hff & _). destruct Hf as [Hf0 Hf1].
  destruct Hk as [Hk|Hk].
  - apply (@finite_between (0 * k) (1 * k)); try assumption;
      apply scale_monotone; try constant; assumption.
  - apply (@finite_between (1 * k) (0 * k)); try assumption;
      apply scale_antitone; try constant; assumption.
Qed.

(** The health factor and the four health effects at two health scores
    that are 0.01 apart, and the bound of the anomaly test. *)
Lemma health_factor_strict h h' :
  percentage h -> percentage h' -> (h' <=? h - 0.01) = true ->
  (health_factor h <? health_factor h') = true.
Proof.
  apply (@falls_between health_factor).
  - intros a b Ha Hb. now apply health_factor_antitone.
  - intros a Ha. apply (fraction_value (health_factor_fraction Ha)).
  - vm_compute; reflexivity.
Qed.

Lemma effect_strict k h h' :
  positive_finite k -> finite (0 * k) -> finite (1 * k) ->
  on_grid (fun j => health_factor (grid (j + 1)) * k
                    <? health_factor (grid j) * k) = true ->
  percentage h -> percentage h' -> (h' <=? h - 0.01) = true ->
  (health_factor h * k <? health_factor h' * k) = true.
Proof.
  intros Hk H0 H1 Hgrid.
  apply (@falls_between (fun x => health_factor x * k)).
  - intros a b Ha Hb Hab. apply scale_monotone; try assumption;
      try (apply (fraction_value (health_factor_fraction Ha)));
      try (apply (fraction_value (health_factor_fraction Hb))).
    now apply health_factor_antitone.
  - intros a Ha. apply effect_finite; auto.
  - exact Hgrid.
Qed.

Lemma pressure_effect_strict h h' :
  percentage h -> percentage h' -> (h' <=? h - 0.01) = true ->
  (health_factor h' * -15 <? health_factor h * -15) = true.
Proof.
  assert (Hk : negative_finite (-15)) by positive_constant.
  apply (@rises_between (fun x => health_factor x * -15)).
  - intros a b Ha Hb Hab. apply scale_antitone; try assumption;
      try (apply (fraction_value (health_factor_fraction Ha)));
      try (apply (fraction_value (health_factor_fraction Hb))).
    now apply health_factor_antitone.
  - intros a Ha. apply effect_finite; auto; constant.
  - vm_compute; reflexivity.
Qed.

Lemma anomaly_threshold_finite f : fraction f -> finite (anomaly_threshold f).
Proof.
  intros Hf. destruct Hf as [H0 H1].
  apply (@finite_between (anomaly_threshold 0) (anomaly_threshold 1));
    try constant;
    apply anomaly_threshold_monotone;
    try (split; reflexivity); try (now split); assumption.
Qed.

Lemma anomaly_threshold_strict h h' :
  percentage h -> percentage h' -> (h' <=? h - 0.01) = true ->
  (anomaly_threshold (health_factor h)
   <? anomaly_threshold (health_factor h')) = true.
Proof.
  apply (@falls_between (fun x => anomaly_threshold (health_factor x))).
  - intros a b Ha Hb Hab. apply anomaly_threshold_monotone;
      try (now apply health_factor_fraction).
    now apply health_factor_antitone.
  - intros a Ha. apply anomaly_threshold_finite.
    now apply health_factor_fraction.
  - vm_compute; reflexivity.
Qed.

(** A tick that leaves the health score positive lowers it by 0.01 or
    more. *)
Lemma tick_lowers h r :
  percentage h -> (0.01 <=? r) = true -> (r <=? 0.05) = true ->
  (0 <? h - r) = true ->
  percentage (max0 (h - r)) /\ (max0 (h - r) <=? h - 0.01) = true.
Proof.
  intros Hh Hlo Hhi Hpos.
  pose proof (degradation_rate_positive Hlo Hhi) as Hr.
  destruct (max0_step Hh Hr) as [Hp _]. split; [exact Hp|].
  unfold max0. rewrite Hpos.
  destruct (percentage_value Hh) as (Hf & _).
  destruct (positive_finite_value Hr) as (Hfr & _).
  apply sub_leb; try constant; try assumption.
  apply (leb_value 0.01 r ltac:(constant) Hfr) in Hlo. lia.
Qed.

(** What [random.uniform(a, b)] gives for a draw of [0, 1], for the
    bounds of the excursions. *)
Lemma excursion_bounds a b u :
  finite a -> finite (b - a) -> finite ((b - a) * 0) ->
  finite ((b - a) * 1) -> (0 <=? b - a) = true ->
  (0.5 <=? uniform_value a b 0) = true -> finite (uniform_value a b 0) ->
  finite (uniform_value a b 1) ->
  fraction u ->
  (uniform_value a b 0 <=? uniform_value a b u) = true /\
  (uniform_value a b u <=? uniform_value a b 1) = true /\
  finite (uniform_value a b u) /\
  (0.5 <=? uniform_value a b u) = true.
Proof.
  intros Ha Hc Hc0 Hc1 Hpos Hhalf Hf0 Hf1 Hu.
  destruct (uniform_value_between Ha Hc Hc0 Hc1 Hpos Hu) as [Hlo Hhi].
  assert (Hf : finite (uniform_value a b u))
    by (apply (@finite_between (uniform_value a b 0) (uniform_value a b 1));
        assumption).
  repeat split; try assumption.
  apply (@leb_trans 0.5 (uniform_value a b 0)); try assumption; constant.
Qed.

Ltac excursion a b Hu :=
  apply (@excursion_bounds a b); try constant; try reflexivity; exact Hu.

(** *** The range of the channels *)

Lemma within_finite lo hi x :
  finite lo -> finite hi -> within lo hi x ->
  finite x /\ (value lo <= value x <= value hi)%Z.
Proof.
  intros Hlo Hhi [H0 H1].
  assert (Hf : finite x) by (apply (@finite_between lo hi x); assumption).
  split; [exact Hf|]. split.
  - now apply (leb_value lo x).
  - now apply (leb_value x hi).
Qed.

Lemma within_add lo1 hi1 lo2 hi2 x y :
  finite lo1 -> finite hi1 -> finite lo2 -> finite hi2 ->
  within lo1 hi1 x -> within lo2 hi2 y ->
  within (lo1 + lo2) (hi1 + hi2) (x + y).
Proof.
  intros Hl1 Hh1 Hl2 Hh2 Hx Hy.
  destruct (within_finite Hl1 Hh1 Hx) as (Hfx & Hx0 & Hx1).
  destruct (within_finite Hl2 Hh2 Hy) as (Hfy & Hy0 & Hy1).
  split; apply add_leb; try assumption; lia.
Qed.

Lemma within_mul lo1 hi1 lo2 hi2 x y :
  finite lo1 -> finite hi1 -> finite lo2 -> finite hi2 ->
  (0 <=? lo1) = true -> (0 <=? lo2) = true ->
  within lo1 hi1 x -> within lo2 hi2 y ->
  within (lo1 * lo2) (hi1 * hi2) (x * y).
Proof.
  intros Hl1 Hh1 Hl2 Hh2 Hp1 Hp2 Hx Hy.
  destruct (within_finite Hl1 Hh1 Hx) as (Hfx & Hx0 & Hx1).
  destruct (within_finite Hl2 Hh2 Hy) as (Hfy & Hy0 & Hy1).
  apply (leb_value 0 lo1) in Hp1; [|constant|exact Hl1].
  apply (leb_value 0 lo2) in Hp2; [|constant|exact Hl2].
  change (value 0) with 0%Z in *.
  split; apply mul_leb; try assumption;
    apply Z.mul_le_mono_nonneg; lia.
Qed.

(** Scaling by a constant, on the right or on the left. *)
Lemma within_scale k lo hi x :
  positive_finite k -> finite lo -> finite hi -> within lo hi x ->
  within (lo * k) (hi * k) (x * k) /\ within (k * lo) (k * hi) (k * x).
Proof.
  intros Hk Hlo Hhi Hx.
  destruct (within_finite Hlo Hhi Hx) as (Hfx & Hx0 & Hx1).
  destruct (positive_finite_value Hk) as [Hfk Hpos].
  repeat split; apply mul_leb; try assumption;
    try (apply Z.mul_le_mono_nonneg_r; lia);
    apply Z.mul_le_mono_nonneg_l; lia.
Qed.

Lemma within_scale_negative k lo hi x :
  negative_finite k -> finite lo -> finite hi -> within lo hi x ->
  within (hi * k) (lo * k) (x * k).
Proof.
  intros Hk Hlo Hhi Hx.
  destruct (within_finite Hlo Hhi Hx) as (Hfx & Hx0 & Hx1).
  destruct (negative_finite_value Hk) as [Hfk Hneg].
  split; apply mul_leb; try assumption;
    apply Z.mul_le_mono_nonpos_r; lia.
Qed.

Lemma within_weaken lo hi lo' hi' x :
  finite lo -> finite hi -> finite lo' -> finite hi' ->
  (lo' <=? lo) = true -> (hi <=? hi') = true ->
  within lo hi x -> within lo' hi' x.
Proof.
  intros Hlo Hhi Hlo' Hhi' H0 H1 Hx.
  destruct (within_finite Hlo Hhi Hx) as (Hfx & _). destruct Hx as [Hx0 Hx1].
  split.
  - now apply (@leb_trans lo' lo x).
  - now apply (@leb_trans x hi hi').
Qed.

Lemma uniform_value_within a b u :
  finite a -> finite (b - a) -> finite ((b - a) * 0) ->
  finite ((b - a) * 1) -> (0 <=? b - a) = true -> fraction u ->
  within (uniform_value a b 0) (uniform_value a b 1) (uniform_value a b u).
Proof. intros. now apply uniform_value_between. Qed.

(** The weekly multiplier is 0.9 or 1.1; the daily one is between 0.8 and
    1.2 when the sine is between -1 and 1. *)
Lemma day_factor_within current_time :
  within 0.9 1.1 (day_factor current_time).
Proof.
  unfold day_factor. destruct (weekday current_time <? 5)%nat;
    split; reflexivity.
Qed.

Lemma time_factor_within np_sin current_time :
  within (-1) 1 (np_sin (np_pi * float_of_nat (hour current_time) / 12)) ->
  within 0.8 1.2 (time_factor np_sin current_time).
Proof.
  intros Hsin. unfold time_factor.
  assert (Hk : positive_finite 0.2) by positive_constant.
  destruct (@within_scale 0.2 (-1) 1 _ Hk ltac:(constant) ltac:(constant)
              Hsin) as [_ Hs].
  apply (@within_weaken (1 + 0.2 * -1) (1 + 0.2 * 1)); try constant;
    try reflexivity.
  apply within_add; try constant; [split; reflexivity|exact Hs].
Qed.

(** The four channels of a simulator with the normal ranges of [__init__],
    before the occasional anomaly: the temperature is between 46 and 128,
    the vibration between 0 and 3, the pressure between 77 and 108 and the
    noise between 52 and 110. *)
Lemma sensor_values_within s tf df f w :
  normal_temp_range s = (60, 80) ->
  normal_vibration_range s = (0.1, 0.5) ->
  normal_pressure_range s = (95, 105) ->
  normal_noise_range s = (60, 75) ->
  within 0.8 1.2 tf -> within 0.9 1.1 df -> fraction f ->
  (forall i, (i < 8)%nat -> fraction (draws w i)) ->
  let '(t, v, p, n) := fst (sensor_values s tf df f w) in
  within 46 128 t /\ within 0 3 v /\ within 77 108 p /\ within 52 110 n.
Proof.
  intros Et Ev Ep En Htf Hdf Hf Hu.
  rewrite sensor_values_eq, Et, Ev, Ep, En. cbn [fst snd].
  assert (U : forall a b i,
            finite a -> finite (b - a) -> finite ((b - a) * 0) ->
            finite ((b - a) * 1) -> (0 <=? b - a) = true -> (i < 8)%nat ->
            within (uniform_value a b 0) (uniform_value a b 1)
              (uniform_value a b (draws w i))).
  { intros a b i Ha Hc Hc0 Hc1 Hpos Hi.
    apply uniform_value_within; auto. }
  assert (K30 : positive_finite 30) by positive_constant.
  assert (K15 : positive_finite 1.5) by positive_constant.
  assert (K25 : positive_finite 25) by positive_constant.
  assert (Kn : negative_finite (-15)) by positive_constant.
  destruct (@within_scale 30 0 1 f K30 ltac:(constant) ltac:(constant) Hf)
    as [Hf30 _].
  destruct (@within_scale 1.5 0 1 f K15 ltac:(constant) ltac:(constant) Hf)
    as [Hf15 _].
  destruct (@within_scale 25 0 1 f K25 ltac:(constant) ltac:(constant) Hf)
    as [Hf25 _].
  pose proof (@within_scale_negative (-15) 0 1 f Kn ltac:(constant)
                ltac:(constant) Hf) as Hfn.
  assert (H1 : within 1 1 1) by (split; reflexivity).
  split; [|split; [|split]].
  - apply (@within_weaken (60 * 0.8 + 0 * 30 + -2) (80 * 1.2 + 1 * 30 + 2));
      try constant; try reflexivity.
    apply within_add; try constant;
      [apply within_add; try constant; [|exact Hf30]|].
    + apply within_mul; try constant; try reflexivity; [|exact Htf].
      apply (U 60 80 0%nat); try constant; try reflexivity; lia.
    + apply (U (-2) 2 1%nat); try constant; try reflexivity; lia.
  - apply (@within_weaken (0.1 * 0.9 + 0 * 1.5 + -0.05)
             (0.5 * 1.1 + 1 * 1.5 + 0.05));
      try constant; try reflexivity.
    apply within_add; try constant;
      [apply within_add; try constant; [|exact Hf15]|].
    + apply within_mul; try constant; try reflexivity; [|exact Hdf].
      apply (U 0.1 0.5 2%nat); try constant; try reflexivity; lia.
    + apply (U (-0.05) 0.05 3%nat); try constant; try reflexivity; lia.
  - apply (@within_weaken (95 * 1 + 1 * -15 + -3) (105 * 1 + 0 * -15 + 3));
      try constant; try reflexivity.
    apply within_add; try constant;
      [apply within_add; try constant; [|exact Hfn]|].
    + apply within_mul; try constant; try reflexivity; [|exact H1].
      apply (U 95 105 4%nat); try constant; try reflexivity; lia.
    + apply (U (-3) 3 5%nat); try constant; try reflexivity; lia.
  - apply (@within_weaken (60 * 0.9 + 0 * 25 + -2) (75 * 1.1 + 1 * 25 + 2));
      try constant; try reflexivity.
    apply within_add; try constant;
      [apply within_add; try constant; [|exact Hf25]|].
    + apply within_mul; try constant; try reflexivity; [|exact Hdf].
      apply (U 60 75 6%nat); try constant; try reflexivity; lia.
    + apply (U (-2) 2 7%nat); try constant; try reflexivity; lia.
Qed.

(** So the channels a tick hands to the anomaly block are moderate, for a
    simulator with the normal ranges of [__init__], a health score from 0
    to 100 and a rate as [__init__] draws it, a sine between -1 and 1 and
    random numbers of [0, 1]. *)
Lemma tick_channels_moderate (np_sin : float -> float) s w :
  normal_temp_range s = (60, 80) ->
  normal_vibration_range s = (0.1, 0.5) ->
  normal_pressure_range s = (95, 105) ->
  normal_noise_range s = (60, 75) ->
  percentage (health_score s) ->
  (0.01 <=? degradation_rate s) = true ->
  (degradation_rate s <=? 0.05) = true ->
  within (-1) 1 (np_sin (np_pi * float_of_nat (hour (clock w 1%nat)) / 12)) ->
  (forall i, (i < 8)%nat -> fraction (draws w i)) ->
  let h := degraded s in
  let '(t, v, p, n) :=
    fst (sensor_values (set_health s h)
           (time_factor np_sin (clock w 1%nat)) (day_factor (clock w 1%nat))
           (health_factor h) (later 2 0 w)) in
  moderate t /\ moderate v /\ moderate p /\ moderate n.
Proof.
  intros Et Ev Ep En Hs Hlo Hhi Hsin Hu h.
  pose proof (degradation_rate_positive Hlo Hhi) as Hr.
  destruct (max0_step Hs Hr) as [Hh _]. fold (degraded s) in Hh. fold h in Hh.
  pose proof (@sensor_values_within (set_health s h)
                (time_factor np_sin (clock w 1%nat))
                (day_factor (clock w 1%nat)) (health_factor h) (later 2 0 w)
                Et Ev Ep En (time_factor_within _ _ Hsin)
                (day_factor_within _) (health_factor_fraction Hh)
                (fun i Hi => Hu i Hi)) as H.
  destruct (fst (sensor_values _ _ _ _ _)) as [[[t v] p] n].
  destruct H as (Ht & Hv & Hp & Hn).
  repeat match goal with |- _ /\ _ => split end.
  - apply (@within_weaken 46 128); try constant; try reflexivity; exact Ht.
  - apply (@within_weaken 0 3); try constant; try reflexivity; exact Hv.
  - apply (@within_weaken 77 108); try constant; try reflexivity; exact Hp.
  - apply (@within_weaken 52 110); try constant; try reflexivity; exact Hn.
Qed.

(** *** The claims about one tick *)

(** C4, with the clock among what a tick reads: the reading, and the
    state a tick leaves, are the same in two surroundings that give the
    same random numbers and choices, the same text for the first reading
    of the clock and the same hour and weekday for the second; the state,
    the random source and these two clock readings determine the tick. *)
Theorem reading_determined_by_state_randomness_and_clock
    (np_sin : float -> float) (np_round py_round : float -> nat -> float)
    (s : simulator) (w1 w2 : world) :
  (forall n, draws w1 n = draws w2 n) ->
  (forall n, picks w1 n = picks w2 n) ->
  isoformat (clock w1 0%nat) = isoformat (clock w2 0%nat) ->
  hour (clock w1 1%nat) = hour (clock w2 1%nat) ->
  weekday (clock w1 1%nat) = weekday (clock w2 1%nat) ->
  fst (generate_sensor_reading np_sin np_round py_round s w1) =
  fst (generate_sensor_reading np_sin np_round py_round s w2).
Proof.
  intros Hd Hp Hiso Hhour Hday.
  unfold generate_sensor_reading, sensor_values, anomalies, _generate_value,
    choice, uniform, bind, ret, now, random, randbelow, time_factor,
    day_factor.
  cbn [clock draws picks fst snd].
  rewrite !Hd, Hiso, Hhour, Hday.
  destruct (draws w2 8 <? _); cbn [clock draws picks fst snd]; [|reflexivity].
  rewrite Hp.
  repeat match goal with
         | |- context [if String.eqb ?a ?b then _ else _] =>
             destruct (String.eqb a b)
         end;
    cbn [clock draws picks fst snd]; rewrite ?Hd; reflexivity.
Qed.

(** Two surroundings that agree for the length of one tick. *)
Lemma reading_determined_by_state_randomness_and_clock_witness :
  let s := started "EQUIP-001" 0.05 in
  let w1 := steady_world midnight_clock in
  let w2 := steady_world drifting_clock in
  ((forall n, draws w1 n = draws w2 n) /\
   (forall n, picks w1 n = picks w2 n) /\
   isoformat (clock w1 0%nat) = isoformat (clock w2 0%nat) /\
   hour (clock w1 1%nat) = hour (clock w2 1%nat) /\
   weekday (clock w1 1%nat) = weekday (clock w2 1%nat)) /\
  fst (generate_sensor_reading tabulated_sin numpy_round python_round s w1) =
  fst (generate_sensor_reading tabulated_sin numpy_round python_round s w2).
Proof.
  cbv zeta. split; [repeat split|].
  apply (@reading_determined_by_state_randomness_and_clock tabulated_sin
           numpy_round python_round (started "EQUIP-001" 0.05)
           (steady_world midnight_clock) (steady_world drifting_clock));
    reflexivity.
Defined.

(** C4 as stated fails: one simulator state and one random source, but
    two clocks, give two different readings; the timestamp differs, and
    so does the temperature. *)
Lemma clock_changes_reading_counterexample :
  let s := started "EQUIP-001" 0.05 in
  let w1 := steady_world still_clock in
  let w2 := steady_world midnight_clock in
  let r1 :=
    fst (fst (generate_sensor_reading tabulated_sin numpy_round python_round
                s w1)) in
  let r2 :=
    fst (fst (generate_sensor_reading tabulated_sin numpy_round python_round
                s w2)) in
  draws w1 = draws w2 /\ picks w1 = picks w2 /\
  r1 = {| reading_equipment_id := "EQUIP-001";
          timestamp := "2024-03-01T15:00:00";
          temperature := 60.12; vibration := 0.331; pressure := 99.99;
          noise_level := 74.26; reading_health_score := 99.95 |} /\
  r2 = {| reading_equipment_id := "EQUIP-001";
          timestamp := "2024-03-01T23:59:59.999998";
          temperature := 70.02; vibration := 0.271; pressure := 99.99;
          noise_level := 60.76; reading_health_score := 99.95 |} /\
  (temperature r1 =? temperature r2) = false.
Proof. cbv zeta. repeat split; vm_compute; reflexivity. Qed.

(** C6, with the two readings of the clock told apart: a tick takes one
    health score, the degraded one, which is the score the simulator
    keeps and the one the reading records, and the health effects of all
    four channels and the anomaly test use its one health factor; the
    timestamp is the first reading of the clock, while the daily and the
    weekly multiplier come from the second reading. *)
Theorem one_health_snapshot_two_clock_readings
    (np_sin : float -> float) (np_round py_round : float -> nat -> float)
    (s : simulator) (w : world) :
  let h := degraded s in
  let stamped := clock w 0%nat in
  let current_time := clock w 1%nat in
  let f := health_factor h in
  let raw :=
    fst (sensor_values (set_health s h) (time_factor np_sin current_time)
           (day_factor current_time) f (later 2 0 w)) in
  let '(t, v, p, n) := fst (anomalies f raw (later 2 8 w)) in
  generate_sensor_reading np_sin np_round py_round s w =
  ({| reading_equipment_id := equipment_id s;
      timestamp := isoformat stamped;
      temperature := np_round t 2%nat;
      vibration := py_round v 3%nat;
      pressure := py_round p 2%nat;
      noise_level := py_round n 2%nat;
      reading_health_score := py_round h 2%nat |},
   set_health s h,
   snd (anomalies f raw (later 2 8 w))).
Proof.
  cbv zeta. rewrite generate_sensor_reading_eq. cbv zeta.
  rewrite sensor_values_eq. cbn [fst].
  change (later 0 8 (later 2 0 w)) with (later 2 8 w).
  destruct (anomalies _ _ (later 2 8 w)) as [[[[t v] p] n] w2].
  reflexivity.
Qed.

(** C6 as stated fails: with a clock that passes midnight between its two
    readings, the reading is stamped Friday 23:59:59.999998, when the
    weekly multiplier is 1.1, but its vibration, 0.271, is Saturday's, with
    the multiplier 0.9; with the multipliers of the instant of the
    timestamp, which a clock standing at that instant gives, the vibration
    is 0.331 and the temperature 66.39 instead of 70.02. *)
Lemma multipliers_after_timestamp_counterexample :
  let s := started "EQUIP-001" 0.05 in
  let r :=
    fst (fst (generate_sensor_reading tabulated_sin numpy_round python_round
                s (steady_world midnight_clock))) in
  let r' :=
    fst (fst (generate_sensor_reading tabulated_sin numpy_round python_round
                s (steady_world frozen_clock))) in
  timestamp r = isoformat (midnight_clock 0) /\
  timestamp r' = isoformat (midnight_clock 0) /\
  day_factor (midnight_clock 0) = 1.1 /\
  day_factor (midnight_clock 1) = 0.9 /\
  (vibration r = 0.271 /\ temperature r = 70.02 /\ noise_level r = 60.76) /\
  (vibration r' = 0.331 /\ temperature r' = 66.39 /\ noise_level r' = 74.26).
Proof. cbv zeta. repeat split; vm_compute; reflexivity. Qed.

(** C7, as the code and the floats have it: in a tick, each channel is,
    before the occasional anomaly and the final rounding,
    [uniform(normal range) * multiplier + health effect +
    uniform(-noise, noise)], with the daily multiplier
    [1 + 0.2 * sin(pi * hour / 12)] for the temperature, the weekly
    one, 1.1 from Monday to Friday and 0.9 at the weekend, for vibration
    and noise, and the constant 1 for the pressure, which follows no
    cycle, the noise levels 2,
    0.05, 3 and 2, and the health effects the health factor
    [f = (100 - health) / 100] times 30, 1.5, -15 and 25, where [f] is 0
    at the health score 100 and 1 at 0. At a lower health score the
    health factor and the effects on temperature, vibration and noise
    are at least as high and the effect on pressure at least as low; at
    a health score that is lower by 0.01 or more they are strictly
    higher, and strictly lower for the pressure. *)
Theorem channels_sampled
    (np_sin : float -> float) (np_round py_round : float -> nat -> float)
    (s : simulator) (w : world) (lower : float) :
  percentage (health_score s) ->
  (0.01 <=? degradation_rate s) = true ->
  (degradation_rate s <=? 0.05) = true ->
  percentage lower ->
  (lower <=? degraded s) = true ->
  let h := degraded s in
  let current_time := clock w 1%nat in
  let u := draws w in
  let f := health_factor h in
  let f' := health_factor lower in
  let raw :=
    (uniform_value (fst (normal_temp_range s)) (snd (normal_temp_range s))
       (u 0%nat) * time_factor np_sin current_time + f * 30
     + uniform_value (-2) 2 (u 1%nat),
     uniform_value (fst (normal_vibration_range s))
       (snd (normal_vibration_range s)) (u 2%nat) * day_factor current_time
     + f * 1.5 + uniform_value (-0.05) 0.05 (u 3%nat),
     uniform_value (fst (normal_pressure_range s))
       (snd (normal_pressure_range s)) (u 4%nat) * 1 + f * -15
     + uniform_value (-3) 3 (u 5%nat),
     uniform_value (fst (normal_noise_range s)) (snd (normal_noise_range s))
       (u 6%nat) * day_factor current_time + f * 25
     + uniform_value (-2) 2 (u 7%nat)) in
  (let '(t, v, p, n) := fst (anomalies f raw (later 2 8 w)) in
   fst (fst (generate_sensor_reading np_sin np_round py_round s w)) =
   {| reading_equipment_id := equipment_id s;
      timestamp := isoformat (clock w 0%nat);
      temperature := np_round t 2%nat;
      vibration := py_round v 3%nat;
      pressure := py_round p 2%nat;
      noise_level := py_round n 2%nat;
      reading_health_score := py_round h 2%nat |}) /\
  (time_factor np_sin current_time =
     1 + 0.2 * np_sin (np_pi * float_of_nat (hour current_time) / 12) /\
   day_factor current_time =
     (if (weekday current_time <? 5)%nat then 1.1 else 0.9)) /\
  (health_factor 100 = 0 /\ health_factor 0 = 1) /\
  ((f <=? f') = true /\
   (f * 30 <=? f' * 30) = true /\
   (f * 1.5 <=? f' * 1.5) = true /\
   (f' * -15 <=? f * -15) = true /\
   (f * 25 <=? f' * 25) = true) /\
  ((lower <=? h - 0.01) = true ->
   (f <? f') = true /\
   (f * 30 <? f' * 30) = true /\
   (f * 1.5 <? f' * 1.5) = true /\
   (f' * -15 <? f * -15) = true /\
   (f * 25 <? f' * 25) = true).
Proof.
  intros Hs Hlo Hhi Hlower Hle h current_time u f f' raw.
  split; [|split; [|split; [split; reflexivity|]]].
  2: { split; [reflexivity|].
       unfold day_factor. now destruct (weekday current_time <? 5)%nat. }
  - rewrite generate_sensor_reading_eq. cbv zeta.
    rewrite sensor_values_eq. cbn [fst].
    change (later 0 8 (later 2 0 w)) with (later 2 8 w).
    fold h f.
    change (anomalies f ?r (later 2 8 w)) with (anomalies f raw (later 2 8 w)).
    destruct (anomalies f raw (later 2 8 w)) as [[[[t v] p] n] w2].
    reflexivity.
  - pose proof (degradation_rate_positive Hlo Hhi) as Hr.
    destruct (max0_step Hs Hr) as [Hh _]. fold (degraded s) in Hh. fold h in Hh.
    pose proof (health_factor_antitone Hlower Hh Hle) as Hf. fold f f' in Hf.
    destruct (fraction_value (health_factor_fraction Hh)) as (Hff & _).
    destruct (fraction_value (health_factor_fraction Hlower)) as (Hff' & _).
    fold f in Hff. fold f' in Hff'.
    split.
    + split; [exact Hf|].
      repeat split;
        [apply scale_monotone|apply scale_monotone|apply scale_antitone
        |apply scale_monotone]; try assumption; positive_constant.
    + intros Hgap. unfold f, f'.
      split; [now apply health_factor_strict|].
      split; [apply (@effect_strict 30);
              [positive_constant|constant|constant|vm_compute; reflexivity
              |exact Hh|exact Hlower|exact Hgap]|].
      split; [apply (@effect_strict 1.5);
              [positive_constant|constant|constant|vm_compute; reflexivity
              |exact Hh|exact Hlower|exact Hgap]|].
      split; [now apply pressure_effect_strict|].
      apply (@effect_strict 25);
        [positive_constant|constant|constant|vm_compute; reflexivity
        |exact Hh|exact Hlower|exact Hgap].
Qed.

(** A tick of a fresh simulator, against the health score 40, and the
    reading it gives. *)
Lemma channels_sampled_witness :
  let s := started "EQUIP-001" 0.05 in
  let w := steady_world still_clock in
  let h := degraded s in
  let f := health_factor h in
  let f' := health_factor 40 in
  let raw :=
    (uniform_value 60 80 0.5 * time_factor tabulated_sin (still_clock 1)
     + f * 30 + uniform_value (-2) 2 0.5,
     uniform_value 0.1 0.5 0.5 * day_factor (still_clock 1) + f * 1.5
     + uniform_value (-0.05) 0.05 0.5,
     uniform_value 95 105 0.5 * 1 + f * -15 + uniform_value (-3) 3 0.5,
     uniform_value 60 75 0.5 * day_factor (still_clock 1) + f * 25
     + uniform_value (-2) 2 0.5) in
  (percentage (health_score s) /\
   (0.01 <=? degradation_rate s) = true /\
   (degradation_rate s <=? 0.05) = true /\
   percentage 40 /\ (40 <=? degraded s) = true /\
   (40 <=? degraded s - 0.01) = true) /\
  ((let '(t, v, p, n) := fst (anomalies f raw (later 2 8 w)) in
   fst (fst (generate_sensor_reading tabulated_sin numpy_round python_round
               s w)) =
   {| reading_equipment_id := "EQUIP-001";
      timestamp := "2024-03-01T15:00:00";
      temperature := numpy_round t 2;
      vibration := python_round v 3;
      pressure := python_round p 2;
      noise_level := python_round n 2;
      reading_health_score := python_round h 2 |}) /\
   (time_factor tabulated_sin (still_clock 1) =
      1 + 0.2 * tabulated_sin (np_pi * float_of_nat 15 / 12) /\
    day_factor (still_clock 1) = (if (4 <? 5)%nat then 1.1 else 0.9)) /\
   (health_factor 100 = 0 /\ health_factor 0 = 1) /\
   ((f <=? f') = true /\
    (f * 30 <=? f' * 30) = true /\
    (f * 1.5 <=? f' * 1.5) = true /\
    (f' * -15 <=? f * -15) = true /\
    (f * 25 <=? f' * 25) = true) /\
   ((40 <=? h - 0.01) = true ->
    (f <? f') = true /\
    (f * 30 <? f' * 30) = true /\
    (f * 1.5 <? f' * 1.5) = true /\
    (f' * -15 <? f * -15) = true /\
    (f * 25 <? f' * 25) = true)) /\
  fst (fst (generate_sensor_reading tabulated_sin numpy_round python_round
              s w)) =
  {| reading_equipment_id := "EQUIP-001";
     timestamp := "2024-03-01T15:00:00";
     temperature := 60.12; vibration := 0.331; pressure := 99.99;
     noise_level := 74.26; reading_health_score := 99.95 |}.
Proof.
  cbv zeta. split; [repeat split|]. split.
  - apply (@channels_sampled tabulated_sin numpy_round python_round
             (started "EQUIP-001" 0.05) (steady_world still_clock) 40);
      try split; reflexivity.
  - vm_compute. reflexivity.
Defined.

(** C7 as stated fails twice. The effects do not rise with every fall of
    the health score: the simulator [__init__] builds when the random
    source answers 0.9707031249999998 has the health score [2^-56]
    after 2048 ticks and 0 after 2049, lower, yet the health factor is
    1 at both and none of the four effects differs. And the pressure
    has no cyclical multiplier: on a Friday afternoon and around
    Friday's midnight, with the same random numbers, temperature,
    vibration and noise differ and the pressure is the same. *)
Lemma health_effects_tie_counterexample :
  let s := fst (__init__ "EQUIP-001" (drawing 0x1.f0ffffffffffep-1)) in
  let h := fun k =>
    health_score
      (snd (fst (ticks tabulated_sin numpy_round python_round k s
                   (steady_world still_clock)))) in
  let f := fun k => health_factor (h k) in
  let r := fun clock =>
    fst (fst (generate_sensor_reading tabulated_sin numpy_round python_round
                (started "EQUIP-001" 0.05) (steady_world clock))) in
  (h 2048%nat = 0x1p-56 /\ h 2049%nat = 0 /\
   (h 2049%nat <? h 2048%nat) = true /\
   f 2048%nat = 1 /\ f 2049%nat = 1 /\
   (f 2048%nat * 30 <? f 2049%nat * 30) = false /\
   (f 2048%nat * 1.5 <? f 2049%nat * 1.5) = false /\
   (f 2049%nat * -15 <? f 2048%nat * -15) = false /\
   (f 2048%nat * 25 <? f 2049%nat * 25) = false) /\
  ((temperature (r still_clock) =? temperature (r midnight_clock)) = false /\
   (vibration (r still_clock) =? vibration (r midnight_clock)) = false /\
   (noise_level (r still_clock) =? noise_level (r midnight_clock)) = false /\
   pressure (r still_clock) = 99.99 /\
   pressure (r midnight_clock) = 99.99).
Proof.
  cbv beta zeta. rewrite !ticks_health. vm_compute. repeat split.
Qed.

(** C8, with the order as the floats have it: the bound the anomaly test
    compares its random number with, [0.01 + f * 0.1], is 0.01 at the
    health score 100 and 0.11 at 0, lies between the two, and is at a
    lower health score at least as high, never lower; it is strictly
    higher at a health score that is lower by 0.01 or more, and so after
    every tick that leaves the health score positive; the anomaly fires
    when the random number is below the bound,
    and then the channel is the one at the index the random source picks
    among four, each index standing for one channel; the excursion,
    between 10 and 30 for temperature and
    pressure, 0.5 and 2 for vibration, 10 and 20 for noise, is added to
    temperature, vibration or noise, which it raises, or subtracted from
    the pressure, which it lowers; the other three channels stay as they
    were, and without an anomaly all four do. *)
Theorem anomaly_policy (h lower : float) (t v p n : float) (w : world) :
  percentage h -> percentage lower -> (lower <=? h) = true ->
  moderate t -> moderate v -> moderate p -> moderate n ->
  fraction (draws w 1%nat) ->
  let f := health_factor h in
  let e := fun a b => uniform_value a b (draws w 1%nat) in
  ((0.01 <=? anomaly_threshold f) = true /\
   (anomaly_threshold f <=? 0.11) = true /\
   (anomaly_threshold f <=? anomaly_threshold (health_factor lower)) = true) /\
  (anomaly_threshold (health_factor 100) = 0.01 /\
   anomaly_threshold (health_factor 0) = 0.11 /\
   ((lower <=? h - 0.01) = true ->
    (anomaly_threshold f <? anomaly_threshold (health_factor lower)) = true) /\
   (forall r,
      (0.01 <=? r) = true -> (r <=? 0.05) = true -> (0 <? h - r) = true ->
      (anomaly_threshold f
       <? anomaly_threshold (health_factor (max0 (h - r)))) = true)) /\
  fst (anomalies f (t, v, p, n) w) =
    (if draws w 0%nat <? anomaly_threshold f then
       match (picks w 0 mod 4)%nat with
       | 0%nat => (t + e 10 30, v, p, n)
       | 1%nat => (t, v + e 0.5 2, p, n)
       | 2%nat => (t, v, p - e 10 30, n)
       | _ => (t, v, p, n + e 10 20)
       end
     else (t, v, p, n)) /\
  ((10 <=? e 10 30) = true /\ (e 10 30 <=? 30) = true /\
   (t <? t + e 10 30) = true /\ (p - e 10 30 <? p) = true) /\
  ((0.5 <=? e 0.5 2) = true /\ (e 0.5 2 <=? 2) = true /\
   (v <? v + e 0.5 2) = true) /\
  ((10 <=? e 10 20) = true /\ (e 10 20 <=? 20) = true /\
   (n <? n + e 10 20) = true).
Proof.
  intros Hh Hlower Hle [Ht0 Ht1] [Hv0 Hv1] [Hp0 Hp1] [Hn0 Hn1] Hu f e.
  assert (H1 : (10 <=? e 10 30) = true /\ (e 10 30 <=? 30) = true /\
               finite (e 10 30) /\ (0.5 <=? e 10 30) = true)
    by (unfold e; excursion 10 30 Hu).
  assert (H2 : (0.5 <=? e 0.5 2) = true /\ (e 0.5 2 <=? 2) = true /\
               finite (e 0.5 2) /\ (0.5 <=? e 0.5 2) = true)
    by (unfold e; excursion 0.5 2 Hu).
  assert (H3 : (10 <=? e 10 20) = true /\ (e 10 20 <=? 20) = true /\
               finite (e 10 20) /\ (0.5 <=? e 10 20) = true)
    by (unfold e; excursion 10 20 Hu).
  destruct H1 as (H1a & H1b & H1f & H1h).
  destruct H2 as (H2a & H2b & H2f & H2h).
  destruct H3 as (H3a & H3b & H3f & H3h).
  split; [|split; [|split; [|split; [|split]]]].
  - pose proof (health_factor_fraction Hh) as Hf. fold f in Hf.
    split; [|split].
    + change (0.01 <=? anomaly_threshold f)
        with (anomaly_threshold 0 <=? anomaly_threshold f).
      apply anomaly_threshold_monotone;
        [split; reflexivity|exact Hf|apply Hf].
    + change (anomaly_threshold f <=? 0.11)
        with (anomaly_threshold f <=? anomaly_threshold 1).
      apply anomaly_threshold_monotone;
        [exact Hf|split; reflexivity|apply Hf].
    + apply anomaly_threshold_monotone;
        try (apply health_factor_fraction; assumption).
      now apply health_factor_antitone.
  - split; [reflexivity|]. split; [reflexivity|]. split.
    + intros Hgap. now apply anomaly_threshold_strict.
    + intros r Hr0 Hr1 Hpos.
      destruct (tick_lowers Hh Hr0 Hr1 Hpos) as [Hp Hgap].
      now apply anomaly_threshold_strict.
  - unfold anomalies, choice, randbelow, uniform, random, bind, ret.
    cbn [fst snd draws picks clock length].
    destruct (draws w 0%nat <? anomaly_threshold f); [|reflexivity].
    cbn [fst snd draws picks clock length].
    pose proof (Nat.mod_upper_bound (picks w 0%nat) 4 ltac:(lia)) as Hlt.
    destruct (picks w 0 mod 4)%nat as [|[|[|[|k]]]]; try reflexivity. lia.
  - repeat split; try assumption.
    + now apply add_increases.
    + now apply sub_decreases.
  - repeat split; try assumption. now apply add_increases.
  - repeat split; try assumption. now apply add_increases.
Qed.

(** The health scores 50 and 40, and an anomaly on the temperature, with
    the bounds, the excursions and the channels it leaves. *)
Lemma anomaly_policy_witness :
  let w := drawing 0.05 in
  let f := health_factor 50 in
  let e := fun a b => uniform_value a b 0.05 in
  (percentage 50 /\ percentage 40 /\ (40 <=? 50) = true /\
   moderate 70 /\ moderate 0.3 /\ moderate 100 /\ moderate 65 /\
   fraction (draws w 1%nat) /\ (40 <=? 50 - 0.01) = true) /\
  (((0.01 <=? anomaly_threshold f) = true /\
    (anomaly_threshold f <=? 0.11) = true /\
    (anomaly_threshold f <=? anomaly_threshold (health_factor 40)) = true) /\
   (anomaly_threshold (health_factor 100) = 0.01 /\
    anomaly_threshold (health_factor 0) = 0.11 /\
    ((40 <=? 50 - 0.01) = true ->
     (anomaly_threshold f <? anomaly_threshold (health_factor 40)) = true) /\
    (forall r,
       (0.01 <=? r) = true -> (r <=? 0.05) = true -> (0 <? 50 - r) = true ->
       (anomaly_threshold f
        <? anomaly_threshold (health_factor (max0 (50 - r)))) = true)) /\
   fst (anomalies f (70, 0.3, 100, 65) w) =
     (if draws w 0%nat <? anomaly_threshold f then
        match (picks w 0 mod 4)%nat with
        | 0%nat => (70 + e 10 30, 0.3, 100, 65)
        | 1%nat => (70, 0.3 + e 0.5 2, 100, 65)
        | 2%nat => (70, 0.3, 100 - e 10 30, 65)
        | _ => (70, 0.3, 100, 65 + e 10 20)
        end
      else (70, 0.3, 100, 65)) /\
   ((10 <=? e 10 30) = true /\ (e 10 30 <=? 30) = true /\
    (70 <? 70 + e 10 30) = true /\ (100 - e 10 30 <? 100) = true) /\
   ((0.5 <=? e 0.5 2) = true /\ (e 0.5 2 <=? 2) = true /\
    (0.3 <? 0.3 + e 0.5 2) = true) /\
   ((10 <=? e 10 20) = true /\ (e 10 20 <=? 20) = true /\
    (65 <? 65 + e 10 20) = true)) /\
  (anomaly_threshold f = 0.060000000000000005 /\
   anomaly_threshold (health_factor 40) = 0.06999999999999999 /\
   e 10 30 = 11 /\ e 0.5 2 = 0.575 /\ e 10 20 = 10.5 /\
   fst (anomalies f (70, 0.3, 100, 65) w) = (81, 0.3, 100, 65)).
Proof.
  cbv zeta. split; [repeat split|]. split.
  - apply (@anomaly_policy 50 40 70 0.3 100 65 (drawing 0.05));
      try split; reflexivity.
  - vm_compute. repeat split.
Defined.

(** C8 as stated fails: the bound of the anomaly test is not strictly
    higher at every lower health score.  The simulator [__init__] builds
    when the random source answers 0.9707031249999998 has the degradation
    rate 0.04882812499999999; its health score is [2^-56] after 2048 ticks
    and 0 after 2049, lower, yet the health factor is 1 and the bound 0.11
    at both.  Nor is the bound strictly increasing in the health factor:
    at the health scores 10.46 and the float just below it the health
    factors differ and the bounds are equal. *)
Lemma anomaly_bound_not_strict_counterexample :
  let s := fst (__init__ "EQUIP-001" (drawing 0x1.f0ffffffffffep-1)) in
  let h := fun k =>
    health_score
      (snd (fst (ticks tabulated_sin numpy_round python_round k s
                   (steady_world still_clock)))) in
  let bound := fun x => anomaly_threshold (health_factor x) in
  (degradation_rate s = 0x1.8ffffffffffffp-5 /\
   h 2048%nat = 0x1p-56 /\ h 2049%nat = 0 /\
   (h 2049%nat <? h 2048%nat) = true /\
   bound (h 2048%nat) = 0.11 /\ bound (h 2049%nat) = 0.11 /\
   (bound (h 2048%nat) <? bound (h 2049%nat)) = false) /\
  ((0x1.4eb851eb851ebp+3 <? 10.46) = true /\
   (health_factor 10.46 <? health_factor 0x1.4eb851eb851ebp+3) = true /\
   bound 10.46 = bound 0x1.4eb851eb851ebp+3 /\
   (bound 10.46 <? bound 0x1.4eb851eb851ebp+3) = false).
Proof.
  cbv beta zeta. rewrite !ticks_health. vm_compute. repeat split.
Qed.

(** *** Beyond one tick: what a tick consumes, the range of a reading,
    and a run of ticks *)

(** The world once a choice of the random source was consumed. *)
Definition after_choice (w : world) : world :=
  {| clock := clock w; draws := draws w; picks := fun i => picks w (S i) |}.

(** The anomaly block, spelled out: the channels and what is left of the
    random source. *)
Lemma anomalies_eq f t v p n w :
  anomalies f (t, v, p, n) w =
  if draws w 0%nat <? anomaly_threshold f then
    (match (picks w 0 mod 4)%nat with
     | 0%nat => (t + uniform_value 10 30 (draws w 1%nat), v, p, n)
     | 1%nat => (t, v + uniform_value 0.5 2 (draws w 1%nat), p, n)
     | 2%nat => (t, v, p - uniform_value 10 30 (draws w 1%nat), n)
     | _ => (t, v, p, n + uniform_value 10 20 (draws w 1%nat))
     end, after_choice (later 0 2 w))
  else ((t, v, p, n), later 0 1 w).
Proof.
  unfold anomalies, choice, randbelow, uniform, random, bind, ret.
  cbn [fst snd draws picks clock length].
  destruct (draws w 0%nat <? anomaly_threshold f); [|reflexivity].
  cbn [fst snd draws picks clock length].
  pose proof (Nat.mod_upper_bound (picks w 0%nat) 4 ltac:(lia)) as Hlt.
  destruct (picks w 0 mod 4)%nat as [|[|[|[|k]]]]; try reflexivity. lia.
Qed.

Lemma within_sub lo1 hi1 lo2 hi2 x y :
  finite lo1 -> finite hi1 -> finite lo2 -> finite hi2 ->
  within lo1 hi1 x -> within lo2 hi2 y ->
  within (lo1 - hi2) (hi1 - lo2) (x - y).
Proof.
  intros Hl1 Hh1 Hl2 Hh2 Hx Hy.
  destruct (within_finite Hl1 Hh1 Hx) as (Hfx & Hx0 & Hx1).
  destruct (within_finite Hl2 Hh2 Hy) as (Hfy & Hy0 & Hy1).
  split; apply sub_leb; try assumption; lia.
Qed.

Lemma within_refl x : finite x -> within x x x.
Proof.
  intros Hx. split; apply (leb_value x x Hx Hx); lia.
Qed.

(** What a tick consumes: it reads the clock twice and takes nine
    random numbers, eight for the channels and one for the anomaly test;
    when the anomaly fires it takes one choice and a tenth random number
    as well. *)
Lemma tick_world
    (np_sin : float -> float) (np_round py_round : float -> nat -> float)
    (s : simulator) (w : world) :
  snd (generate_sensor_reading np_sin np_round py_round s w) =
  if draws w 8%nat <? anomaly_threshold (health_factor (degraded s))
  then after_choice (later 2 10 w)
  else later 2 9 w.
Proof.
  rewrite generate_sensor_reading_eq. cbv zeta.
  rewrite sensor_values_eq.
  match goal with
  | |- context [anomalies ?f (?t, ?v, ?p, ?n) ?w0] =>
      rewrite (@anomalies_eq f t v p n w0)
  end.
  change (draws (later 0 8 (later 2 0 w)) 0%nat) with (draws w 8%nat).
  destruct (draws w 8%nat <? _); [|reflexivity].
  destruct (picks (later 0 8 (later 2 0 w)) 0 mod 4)%nat as [|[|[|k]]];
    reflexivity.
Qed.

(** The channels after the anomaly block. *)
Lemma anomalies_within f t v p n w :
  within 46 128 t -> within 0 3 v -> within 77 108 p -> within 52 110 n ->
  fraction (draws w 1%nat) ->
  let '(t', v', p', n') := fst (anomalies f (t, v, p, n) w) in
  within 46 158 t' /\ within 0 5 v' /\ within 47 108 p' /\
  within 52 130 n'.
Proof.
  intros Ht Hv Hp Hn Hu.
  assert (Ht' : within 46 158 t)
    by (apply (@within_weaken 46 128); try constant; try reflexivity; exact Ht).
  assert (Hv' : within 0 5 v)
    by (apply (@within_weaken 0 3); try constant; try reflexivity; exact Hv).
  assert (Hp' : within 47 108 p)
    by (apply (@within_weaken 77 108); try constant; try reflexivity; exact Hp).
  assert (Hn' : within 52 130 n)
    by (apply (@within_weaken 52 110); try constant; try reflexivity; exact Hn).
  assert (E1 : within 10 30 (uniform_value 10 30 (draws w 1%nat)))
    by (apply (@uniform_value_within 10 30); try constant;
        try reflexivity; exact Hu).
  assert (E2 : within 0.5 2 (uniform_value 0.5 2 (draws w 1%nat)))
    by (apply (@uniform_value_within 0.5 2); try constant;
        try reflexivity; exact Hu).
  assert (E3 : within 10 20 (uniform_value 10 20 (draws w 1%nat)))
    by (apply (@uniform_value_within 10 20); try constant;
        try reflexivity; exact Hu).
  rewrite anomalies_eq.
  destruct (draws w 0%nat <? anomaly_threshold f); cbn [fst];
    [|split; [|split; [|split]]; assumption].
  destruct (picks w 0 mod 4)%nat as [|[|[|k]]];
    (split; [|split; [|split]]); try assumption.
  - apply (@within_weaken (46 + 10) (128 + 30)); try constant; try reflexivity.
    apply within_add; try constant; assumption.
  - apply (@within_weaken (0 + 0.5) (3 + 2)); try constant; try reflexivity.
    apply within_add; try constant; assumption.
  - apply (@within_weaken (77 - 30) (108 - 10)); try constant; try reflexivity.
    apply within_sub; try constant; assumption.
  - apply (@within_weaken (52 + 10) (110 + 20)); try constant; try reflexivity.
    apply within_add; try constant; assumption.
Qed.

(** The range of a reading. For a simulator with the normal ranges of
    [__init__], a health score from 0 to 100 and a rate as [__init__]
    draws it, a sine between -1 and 1 and random numbers of [0, 1], the
    reading of a tick holds the roundings of a temperature between 46
    and 158, a vibration between 0 and 5, a pressure between 47 and 108
    and a noise level between 52 and 130, anomaly included, and of a
    health score from 0 to 100. *)
Lemma tick_ranges
    (np_sin : float -> float) (np_round py_round : float -> nat -> float)
    (s : simulator) (w : world) :
  normal_temp_range s = (60, 80) ->
  normal_vibration_range s = (0.1, 0.5) ->
  normal_pressure_range s = (95, 105) ->
  normal_noise_range s = (60, 75) ->
  percentage (health_score s) ->
  (0.01 <=? degradation_rate s) = true ->
  (degradation_rate s <=? 0.05) = true ->
  within (-1) 1 (np_sin (np_pi * float_of_nat (hour (clock w 1%nat)) / 12)) ->
  (forall i, (i < 10)%nat -> fraction (draws w i)) ->
  exists t v p n,
    fst (fst (generate_sensor_reading np_sin np_round py_round s w)) =
    {| reading_equipment_id := equipment_id s;
       timestamp := isoformat (clock w 0%nat);
       temperature := np_round t 2%nat;
       vibration := py_round v 3%nat;
       pressure := py_round p 2%nat;
       noise_level := py_round n 2%nat;
       reading_health_score := py_round (degraded s) 2%nat |} /\
    within 46 158 t /\ within 0 5 v /\ within 47 108 p /\
    within 52 130 n /\ percentage (degraded s).
Proof.
  intros Et Ev Ep En Hs Hlo Hhi Hsin Hu.
  pose proof (degradation_rate_positive Hlo Hhi) as Hr.
  destruct (max0_step Hs Hr) as [Hh _]. fold (degraded s) in Hh.
  set (h := degraded s) in *.
  pose proof (@sensor_values_within (set_health s h)
                (time_factor np_sin (clock w 1%nat))
                (day_factor (clock w 1%nat)) (health_factor h) (later 2 0 w)
                Et Ev Ep En (time_factor_within _ _ Hsin)
                (day_factor_within _) (health_factor_fraction Hh)
                (fun i Hi => Hu i ltac:(lia))) as Hraw.
  rewrite generate_sensor_reading_eq. cbv zeta. fold h.
  destruct (sensor_values (set_health s h) _ _ _ (later 2 0 w))
    as [[[[t0 v0] p0] n0] w1] eqn:Hsv.
  rewrite sensor_values_eq in Hsv. injection Hsv as _ _ _ _ Hw1.
  cbn [fst] in Hraw. destruct Hraw as (Ht & Hv & Hp & Hn).
  assert (Hu9 : fraction (draws w1 1%nat))
    by (rewrite <- Hw1; apply (Hu 9%nat); lia).
  pose proof (@anomalies_within (health_factor h) t0 v0 p0 n0 w1
                Ht Hv Hp Hn Hu9) as Hfinal.
  destruct (anomalies (health_factor h) (t0, v0, p0, n0) w1)
    as [[[[t v] p] n] w2].
  cbn [fst] in Hfinal |- *. destruct Hfinal as (Ht' & Hv' & Hp' & Hn').
  exists t, v, p, n. split; [reflexivity|].
  split; [exact Ht'|]. split; [exact Hv'|]. split; [exact Hp'|].
  split; [exact Hn'|exact Hh].
Qed.

(** *** A run of ticks *)

(** The normal ranges [__init__] sets. *)
Definition normal_ranges (s : simulator) : Prop :=
  normal_temp_range s = (60, 80) /\
  normal_vibration_range s = (0.1, 0.5) /\
  normal_pressure_range s = (95, 105) /\
  normal_noise_range s = (60, 75).

(** A reading in range: it holds the roundings of a temperature between
    46 and 158, a vibration between 0 and 5, a pressure between 47 and
    108, a noise level between 52 and 130 and a health score from 0 to
    100. *)
Definition in_range (np_round py_round : float -> nat -> float)
    (r : reading) : Prop :=
  exists t v p n h,
    temperature r = np_round t 2%nat /\
    vibration r = py_round v 3%nat /\
    pressure r = py_round p 2%nat /\
    noise_level r = py_round n 2%nat /\
    reading_health_score r = py_round h 2%nat /\
    within 46 158 t /\ within 0 5 v /\ within 47 108 p /\
    within 52 130 n /\ percentage h.

(** The sine of the hour angle, at every reading of the clock, is
    between -1 and 1. *)
Definition sine_bounded (np_sin : float -> float) (w : world) : Prop :=
  forall i,
    within (-1) 1 (np_sin (np_pi * float_of_nat (hour (clock w i)) / 12)).

(** The random source answers numbers of [0, 1]. *)
Definition draws_fractions (w : world) : Prop :=
  forall i, fraction (draws w i).

Lemma tick_world_shift
    (np_sin : float -> float) (np_round py_round : float -> nat -> float)
    (s : simulator) (w : world) :
  exists a, (a <= 1)%nat /\
    let w' := snd (generate_sensor_reading np_sin np_round py_round s w) in
    forall i,
      clock w' i = clock w (2 + i)%nat /\
      draws w' i = draws w (9 + a + i)%nat /\
      picks w' i = picks w (a + i)%nat.
Proof.
  cbv zeta. rewrite tick_world.
  destruct (draws w 8%nat <? _).
  - exists 1%nat. split; [lia|]. intros i. repeat split.
  - exists 0%nat. split; [lia|]. intros i. repeat split.
Qed.

Lemma ticks_in_range
    (np_sin : float -> float) (np_round py_round : float -> nat -> float)
    (n : nat) : forall (s : simulator) (w : world),
  normal_ranges s -> percentage (health_score s) ->
  (0.01 <=? degradation_rate s) = true ->
  (degradation_rate s <=? 0.05) = true ->
  draws_fractions w -> sine_bounded np_sin w ->
  Forall (in_range np_round py_round)
    (fst (fst (ticks np_sin np_round py_round n s w))).
Proof.
  induction n as [|n IH]; intros s w Hranges Hs Hlo Hhi Hu Hsin.
  - constructor.
  - cbn [ticks]. unfold bind, ret.
    destruct Hranges as (Et & Ev & Ep & En).
    destruct (@tick_ranges np_sin np_round py_round s w Et Ev Ep En Hs Hlo Hhi
                (Hsin 1%nat) (fun i _ => Hu i))
      as (t & v & p & m & Hr & Ht & Hv & Hp & Hm & Hh).
    pose proof (generate_sensor_reading_state np_sin np_round py_round s w)
      as Hstate.
    destruct (tick_world_shift np_sin np_round py_round s w)
      as (a & _ & Hw).
    cbv zeta in Hw.
    destruct (generate_sensor_reading np_sin np_round py_round s w)
      as [[r0 s1] w1].
    cbn [fst snd] in Hr, Hstate, Hw |- *. subst r0 s1.
    assert (IH' : Forall (in_range np_round py_round)
                    (fst (fst (ticks np_sin np_round py_round n
                                 (set_health s (degraded s)) w1)))).
    { apply IH.
      - now repeat split.
      - exact Hh.
      - exact Hlo.
      - exact Hhi.
      - intros i. destruct (Hw i) as (_ & -> & _). apply Hu.
      - intros i. destruct (Hw i) as (-> & _). apply Hsin. }
    destruct (ticks np_sin np_round py_round n (set_health s (degraded s)) w1)
      as [[rs s2] w2].
    cbn [fst snd] in IH' |- *. constructor; [|exact IH'].
    exists t, v, p, m, (degraded s). cbn.
    repeat (split; [reflexivity|]).
    split; [exact Ht|]. split; [exact Hv|]. split; [exact Hp|].
    split; [exact Hm|exact Hh].
Qed.

(** X12: what a run consumes. A run of [n] ticks reads the clock [2 n]
    times and takes [9 n + a] random numbers and [a] choices, for some
    [a] of at most [n] (a tick takes a tenth number and a choice when
    its anomaly fires): afterwards the clock and the random source go on
    from there. *)
Theorem run_consumes
    (np_sin : float -> float) (np_round py_round : float -> nat -> float)
    (n : nat) (s : simulator) (w : world) :
  exists a, (a <= n)%nat /\
    let w' := snd (ticks np_sin np_round py_round n s w) in
    forall i,
      clock w' i = clock w (2 * n + i)%nat /\
      draws w' i = draws w (9 * n + a + i)%nat /\
      picks w' i = picks w (a + i)%nat.
Proof.
  revert s w. induction n as [|n IH]; intros s w.
  - exists 0%nat. split; [lia|]. intros i. repeat split.
  - cbn [ticks]. unfold bind, ret.
    destruct (tick_world_shift np_sin np_round py_round s w)
      as (a1 & Ha1 & Hw1).
    cbv zeta in Hw1.
    destruct (generate_sensor_reading np_sin np_round py_round s w)
      as [[r0 s1] w1].
    cbn [fst snd] in Hw1 |- *.
    destruct (IH s1 w1) as (a2 & Ha2 & Hw2). cbv zeta in Hw2.
    destruct (ticks np_sin np_round py_round n s1 w1) as [[rs s2] w2].
    cbn [fst snd] in Hw2 |- *.
    exists (a1 + a2)%nat. split; [lia|]. intros i.
    destruct (Hw2 i) as (-> & -> & ->).
    destruct (Hw1 (2 * n + i)%nat) as (-> & _).
    destruct (Hw1 (9 * n + a2 + i)%nat) as (_ & -> & _).
    destruct (Hw1 (a2 + i)%nat) as (_ & _ & ->).
    repeat split; f_equal; lia.
Qed.

(** X13: every reading of a run is in range. A simulator as [__init__]
    builds it, run for any number of ticks, gives only readings in
    range, the occasional anomaly included, provided the random source
    answers numbers of [0, 1] and the sine is between -1 and 1. *)
Theorem run_in_range
    (np_sin : float -> float) (np_round py_round : float -> nat -> float)
    (equipment_id : string) (n : nat) (w0 : world) :
  draws_fractions w0 -> sine_bounded np_sin w0 ->
  let (s, w) := __init__ equipment_id w0 in
  Forall (in_range np_round py_round)
    (fst (fst (ticks np_sin np_round py_round n s w))).
Proof.
  intros Hu Hsin.
  destruct (@degradation_rate_bounds equipment_id w0 (Hu 0%nat))
    as (Hstart & Hlo & Hhi).
  destruct (__init__ equipment_id w0) as [s w] eqn:Hinit.
  cbn [fst] in Hstart, Hlo, Hhi.
  unfold __init__, uniform, random, bind, ret in Hinit.
  injection Hinit as Hs Hw.
  apply ticks_in_range; try assumption.
  - subst s. now repeat split.
  - rewrite Hstart. apply percentage_100.
  - intros i. subst w. apply (Hu (S i)).
  - intros i. subst w. apply (Hsin i).
Qed.

(** X14: the readings of a run. [n] ticks of a simulator give [n]
    readings; each carries the identity of the simulator, and the
    [k]-th, counted from 0, records the rounding of the health score
    after [k + 1] decrements, whatever the clock and the random source
    do. *)
Theorem run_readings
    (np_sin : float -> float) (np_round py_round : float -> nat -> float)
    (n : nat) (s : simulator) (w : world) :
  let readings := fst (fst (ticks np_sin np_round py_round n s w)) in
  length readings = n /\
  forall k r,
    nth_error readings k = Some r ->
    reading_equipment_id r = equipment_id s /\
    reading_health_score r =
      py_round (decay (S k) (health_score s) (degradation_rate s)) 2%nat.
Proof.
  cbv zeta. revert s w. induction n as [|n IH]; intros s w.
  - split; [reflexivity|]. intros [|k] r; discriminate.
  - cbn [ticks]. unfold bind, ret.
    pose proof (generate_sensor_reading_eq np_sin np_round py_round s w)
      as Heq. cbv zeta in Heq.
    destruct (generate_sensor_reading np_sin np_round py_round s w)
      as [[r0 s1] w1] eqn:Hg.
    assert (Hr0 : reading_equipment_id r0 = equipment_id s /\
                  reading_health_score r0 = py_round (degraded s) 2%nat /\
                  s1 = set_health s (degraded s)).
    { destruct (sensor_values _ _ _ _ _) as [raw w'] in Heq.
      destruct (anomalies _ raw w') as [[[[t v] p] m] w''] in Heq.
      injection Heq as -> -> _. repeat split. }
    destruct Hr0 as (Hid & Hh & ->).
    cbn [fst snd].
    specialize (IH (set_health s (degraded s)) w1).
    destruct (ticks np_sin np_round py_round n (set_health s (degraded s)) w1)
      as [[rs s2] w2].
    cbn [fst snd] in IH |- *. destruct IH as [Hlen Hall].
    split; [simpl; now rewrite Hlen|].
    intros [|k] r Hnth; simpl in Hnth.
    + injection Hnth as <-. split; [exact Hid|exact Hh].
    + destruct (Hall k r Hnth) as [Hid' Hh']. split; [exact Hid'|].
      rewrite Hh'. reflexivity.
Qed.

(** *** Sending a reading to Kafka *)

(** The health score is exhausted: [max(0, x)] has returned its first
    argument, so that [self.health_score] is no longer a float but the
    int 0, and so is its rounding. *)
Definition exhausted (s : simulator) : bool := negb (0 <? health_score s).

(** The dict [generate_sensor_reading] returns, as a JSON value; the
    health score is the int 0 when the health is exhausted. *)
Definition reading_dict (r : reading) (exhausted : bool) : json :=
  JDict [ ("equipment_id", JStr (reading_equipment_id r));
          ("timestamp", JStr (timestamp r));
          ("temperature", JFloat (temperature r));
          ("vibration", JFloat (vibration r));
          ("pressure", JFloat (pressure r));
          ("noise_level", JFloat (noise_level r));
          ("health_score",
           if exhausted then JInt 0
           else JFloat (reading_health_score r)) ]%string.

(** The dict of a tick, from the reading and the simulator the tick
    leaves. *)
Definition tick_dict (tick : reading * simulator) : json :=
  reading_dict (fst tick) (exhausted (snd tick)).

(** A message handed to [producer.produce]. *)
Record sent_message : Type := Sent {
  topic : string;
  key : string;
  payload : string
}.

(** The Kafka producer of a simulator: the messages it was handed, and
    how often [produce] and [flush] were called. *)
Record producer : Type := Producer {
  handed : list sent_message;
  produce_calls : nat;
  flush_calls : nat
}.

Section WithProducer.

(** [json.dumps], and whether the [n]-th call of [producer.produce] and
    of [producer.flush] returns ([true]) or raises ([false]). *)
Variable json_dumps : json -> string.
Variable produce_ok : nat -> bool.
Variable flush_ok : nat -> bool.

(** [send_to_kafka]: the value returned, the producer afterwards, and
    whether the error line was printed. *)
Definition send_to_kafka (s : simulator) (p : option producer)
    (reading : json) : bool * option producer * bool :=
  match p with
  | Some q =>
      let message :=
        {| topic := "equipment-sensors"; key := equipment_id s;
           payload := json_dumps reading |} in
      if produce_ok (produce_calls q) then
        let q1 := {| handed := handed q ++ [message];
                     produce_calls := S (produce_calls q);
                     flush_calls := S (flush_calls q) |} in
        if flush_ok (flush_calls q) then (true, Some q1, false)
        else (false, Some q1, true)
      else
        (false,
         Some {| handed := handed q; produce_calls := S (produce_calls q);
                 flush_calls := flush_calls q |},
         true)
  | None => (false, None, false)
  end.

(** X15: what [send_to_kafka] answers. It returns [True] exactly when
    the simulator has a producer and both [produce] and [flush] return;
    the error line is printed exactly when one of them raises. The
    message is handed to the producer whenever [produce] returns, with
    the topic [equipment-sensors], the identity of the simulator as key
    and the JSON text of the reading, also when [flush] then raises and
    the answer is [False]; without a producer, or when [produce] raises,
    nothing is handed over. *)
Theorem send_to_kafka_answer (s : simulator) (p : option producer)
    (reading : json) :
  let '(answer, p', error_printed) := send_to_kafka s p reading in
  let produced :=
    match p with
    | Some q => produce_ok (produce_calls q)
    | None => false
    end in
  let flushed :=
    match p with
    | Some q => flush_ok (flush_calls q)
    | None => false
    end in
  answer = produced && flushed /\
  error_printed =
    match p with
    | Some _ => negb (produced && flushed)
    | None => false
    end /\
  option_map handed p' =
    option_map
      (fun q =>
         if produced then
           handed q ++
           [{| topic := "equipment-sensors"; key := equipment_id s;
               payload := json_dumps reading |}]
         else handed q) p.
Proof.
  unfold send_to_kafka. destruct p as [q|]; [|now repeat split].
  destruct (produce_ok (produce_calls q));
    [destruct (flush_ok (flush_calls q))|]; now repeat split.
Qed.

End WithProducer.


(** Five ticks of a fresh simulator on a Friday afternoon. *)
Lemma run_in_range_witness :
  let w0 := steady_world still_clock in
  (draws_fractions w0 /\ sine_bounded tabulated_sin w0) /\
  let (s, w) := __init__ "EQUIP-001" w0 in
  Forall (in_range numpy_round python_round)
    (fst (fst (ticks tabulated_sin numpy_round python_round 5 s w))).
Proof.
  cbv zeta.
  assert (Hu : draws_fractions (steady_world still_clock))
    by (intros i; split; reflexivity).
  assert (Hsin : sine_bounded tabulated_sin (steady_world still_clock))
    by (intros i; split; reflexivity).
  split; [split; [exact Hu|exact Hsin]|].
  exact (@run_in_range tabulated_sin numpy_round python_round "EQUIP-001" 5
           (steady_world still_clock) Hu Hsin).
Defined.

End Simulator.

(** ** From the simulator to the consumer *)

Module Pipeline.

Import Consumer Simulator.

Section WithRuntime.

(** The runtime of the consumer, as in [Consumer]; [json.dumps] and the
    producer, as in [Simulator]; and [str.encode('utf-8')], by which the
    text handed to the producer becomes the bytes the consumer polls. *)
Variable K : Type.
Variable K_eq_dec : forall a b : K, {a = b} + {a <> b}.
Variable hash_key : json -> option K.
Variable decode_utf8 : list Byte.byte -> option string.
Variable json_loads : string -> option json.
Variable csv_ok : nat -> bool.
Variable str_key : K -> string.
Variable now : nat -> Files.datetime.
Variable json_dumps : json -> string.
Variable encode_utf8 : string -> list Byte.byte.
Variable produce_ok : nat -> bool.
Variable flush_ok : nat -> bool.

(** The message the consumer polls for a message handed to the
    producer. *)
Definition delivered (m : sent_message) : message :=
  Message (Some (encode_utf8 (payload m))).

(** X16: a reading on its way. When [produce] returns, the dict of a
    tick is handed to Kafka under the identity of the simulator; if the
    bytes decode back to the JSON text and the text loads back to the
    dict, as they do for what [json.dumps] writes, the consumer that
    polls the message ingests the reading under that identity, written
    or buffered after the rows it had, provided the identity is not the
    empty string; a simulator whose identity is the empty string has its
    readings dropped by the consumer without a word. *)
Theorem reading_reaches_consumer
    (np_sin : float -> float) (np_round py_round : float -> nat -> float)
    (s : simulator) (w : world) (q : producer) (c : consumer K) (k : K) :
  let tick := fst (generate_sensor_reading np_sin np_round py_round s w) in
  let j := tick_dict tick in
  produce_ok (produce_calls q) = true ->
  decode_utf8 (encode_utf8 (json_dumps j)) = Some (json_dumps j) ->
  json_loads (json_dumps j) = Some j ->
  hash_key (JStr (equipment_id s)) = Some k ->
  exists m q',
    snd (fst (send_to_kafka json_dumps produce_ok flush_ok (snd tick)
                (Some q) j)) = Some q' /\
    handed q' = handed q ++ [m] /\
    key m = equipment_id s /\
    (equipment_id s <> EmptyString ->
     reading_of hash_key decode_utf8 json_loads (delivered m) = Some (k, j) /\
     exists c1,
       _process_message K_eq_dec hash_key decode_utf8 json_loads csv_ok
         str_key now (delivered m) c = (Returned, c1) /\
       forall k',
         flushed K_eq_dec c1 k' ++ buffered K_eq_dec c1 k' =
         (flushed K_eq_dec c k' ++ buffered K_eq_dec c k') ++
         (if K_eq_dec k' k then [j] else [])) /\
    (equipment_id s = EmptyString ->
     _process_message K_eq_dec hash_key decode_utf8 json_loads csv_ok
       str_key now (delivered m) c = (Returned, c)).
Proof.
  intros tick j Hproduce Hbytes Hloads Hkey.
  assert (Hid : reading_equipment_id (fst tick) = equipment_id s).
  { subst tick. rewrite generate_sensor_reading_eq. cbv zeta.
    destruct (sensor_values _ _ _ _ _) as [raw w1].
    destruct (anomalies _ raw w1) as [[[[t v] p] n] w2]. reflexivity. }
  assert (Hself : equipment_id (snd tick) = equipment_id s).
  { subst tick. now rewrite generate_sensor_reading_state. }
  set (m := {| topic := "equipment-sensors"; key := equipment_id s;
               payload := json_dumps j |}).
  assert (Hsent : exists q',
             snd (fst (send_to_kafka json_dumps produce_ok flush_ok
                         (snd tick) (Some q) j)) = Some q' /\
             handed q' = handed q ++ [m]).
  { unfold send_to_kafka. rewrite Hproduce, Hself. fold m.
    destruct (flush_ok (flush_calls q)); eexists; split; reflexivity. }
  destruct Hsent as (q' & Hq' & Hhanded).
  exists m, q'. split; [exact Hq'|]. split; [exact Hhanded|].
  split; [reflexivity|].
  assert (Hj : exists kv,
             j = JDict kv /\
             dict_get kv "equipment_id" = JStr (equipment_id s)).
  { eexists. split; [reflexivity|]. simpl. now rewrite Hid. }
  destruct Hj as (kv & Hj & Hget).
  split.
  - intros Hne.
    assert (Hread : reading_of hash_key decode_utf8 json_loads (delivered m)
                    = Some (k, j)).
    { unfold reading_of, delivered, m. cbn [value payload].
      rewrite Hbytes, Hloads, Hj, Hget. simpl truthy.
      destruct (String.eqb_spec (equipment_id s) EmptyString);
        [contradiction|].
      simpl. now rewrite Hkey. }
    split; [exact Hread|].
    destruct (process_message_account K_eq_dec hash_key decode_utf8
                json_loads csv_ok str_key now (delivered m) c)
      as (c1 & Hs & Hacc).
    exists c1. split; [exact Hs|]. intros k'.
    rewrite (account_rows Hacc), ingested_one, Hread. reflexivity.
  - intros Hempty.
    unfold _process_message, process_body, delivered, m.
    cbn [value payload]. rewrite Hbytes, Hloads, Hj, Hget, Hempty.
    reflexivity.
Qed.

End WithRuntime.

(** *** A reading of a fresh simulator, sent and polled *)

(** The first tick of a fresh simulator on a Friday afternoon, and the
    dict it returns. *)
Definition first_tick : reading * simulator :=
  fst (generate_sensor_reading tabulated_sin numpy_round python_round
         (started "EQUIP-001" 0.05) (steady_world still_clock)).

Definition first_dict : json := tick_dict first_tick.

(** A text that stands for the JSON text of [first_dict]; its numbers
    are left out. *)
Definition first_text : string :=
  object_text [("equipment_id", "EQUIP-001");
               ("timestamp", "2024-03-01T15:00:00")]%string.

(** A [json.dumps] and a [json.loads] that know this one reading. *)
Definition first_dumps (j : json) : string := first_text.

Definition first_loads (text : string) : option json :=
  if String.eqb text first_text then Some first_dict else None.

Definition produce_fine (n : nat) : bool := true.

(** A [flush] that always raises. *)
Definition flush_fails (n : nat) : bool := false.

Lemma reading_reaches_consumer_witness :
  let s := started "EQUIP-001" 0.05 in
  let w := steady_world still_clock in
  let q := {| handed := []; produce_calls := 0; flush_calls := 0 |} in
  let c := consumer_with 100 [] in
  let j := first_dict in
  (produce_fine (produce_calls q) = true /\
   decode_ascii (list_byte_of_string (first_dumps j)) =
     Some (first_dumps j) /\
   first_loads (first_dumps j) = Some j /\
   string_key (JStr (equipment_id s)) = Some "EQUIP-001"%string) /\
  exists m q',
    snd (fst (send_to_kafka first_dumps produce_fine flush_fails
                (snd first_tick) (Some q) j)) = Some q' /\
    handed q' = handed q ++ [m] /\
    key m = equipment_id s /\
    (equipment_id s <> EmptyString ->
     reading_of string_key decode_ascii first_loads
       (delivered list_byte_of_string m) = Some ("EQUIP-001"%string, j) /\
     exists c1,
       _process_message string_dec string_key decode_ascii first_loads
         csv_fine str_of_string ticking_clock
         (delivered list_byte_of_string m) c = (Returned, c1) /\
       forall k',
         flushed string_dec c1 k' ++ buffered string_dec c1 k' =
         (flushed string_dec c k' ++ buffered string_dec c k') ++
         (if string_dec k' "EQUIP-001" then [j] else [])) /\
    (equipment_id s = EmptyString ->
     _process_message string_dec string_key decode_ascii first_loads
       csv_fine str_of_string ticking_clock
       (delivered list_byte_of_string m) c = (Returned, c)).
Proof.
  cbv zeta. split; [repeat split|].
  apply (@reading_reaches_consumer string string_dec string_key decode_ascii
           first_loads csv_fine str_of_string ticking_clock first_dumps
           list_byte_of_string produce_fine flush_fails tabulated_sin
           numpy_round python_round
           (started "EQUIP-001" 0.05) (steady_world still_clock)
           {| handed := []; produce_calls := 0; flush_calls := 0 |}
           (consumer_with 100 []) "EQUIP-001"%string);
    reflexivity.
Defined.

End Pipeline.
